(** * score-trend: the spreadsheet import engine, embedded and verified

    The development follows the two source modules:
    - [ExcelParse]  (matrix normalisation, header location, block splitting),
    - [ImportEngine] (column-role guessing, per-sheet records, class inference).

    Modelling conventions.
    - A JavaScript string is the list of its UTF-16 code units ([list N]);
      [js "..."] decodes a UTF-8 literal of this file into that list, so
      [.length], [includes], [trim] and the character-class tests are the
      ones of the source.
    - A cell ([any]) is [undefined], [null], a number or a string.  Numeric
      cells carry integers, rendered in plain decimal.  That is what
      [String] gives for the integers a binary64 number holds exactly (up
      to 2^53 in absolute value, [safeInteger]); [String] rounds the
      digits of larger numbers and writes an exponent from 1e21 on, which
      is not modelled, so a statement about the text of a number carries
      that bound.  A fractional numeric cell behaves, in
      every function below, as the text cell of its decimal rendering
      ([toNumber] parses it back), so it enters as a text cell.
    - A number computed by the scoring code is an exact rational ([Q]); the
      source computes the same quotients and sums in binary64.  The ratios
      compared with 0.1, 0.7 and 0.85 are quotients of small counters, for
      which both readings agree; a sum of score terms, or a decimal text
      within rounding distance of a threshold, may compare differently at
      the threshold itself.
    - [toLowerCase] is the ASCII mapping; the keywords compared after it that
      matter below are CJK text, which has no case.
    - [buildHeaders] (the labels of the header rows) is a parameter of
      [parseSheetToBlocks] and [importFiles]: the results hold for whatever
      it returns.  The per-subject table [metricCols] of a record is not
      carried.
    - The header builder of the source is [Headers.buildHeaders]; its two
      products [W * 0.25] and [W * 0.35] are computed in binary64, as the
      source does.  [Headers.parseSheet] is the parser with it.  The
      per-subject table is [Metrics.importMetricCols], a function of the
      rows and columns of a record. *)

From Stdlib Require Import ZArith NArith QArith Lia Lqa Bool Sorted.
From Stdlib Require Import Strings.String Strings.Ascii Numbers.DecimalString.
From Stdlib Require Import DecimalN DecimalPos.
From Stdlib Require Import Floats.PrimFloat Numbers.Cyclic.Int63.Uint63.
From stdpp Require Import base option list gmap.

Local Open Scope nat_scope.

(* ===================================================================== *)
(** ** JavaScript strings *)
(* ===================================================================== *)

Module JsString.

(** UTF-8 decoding of a literal into UTF-16 code units. *)
Definition emit (cp : N) : list N :=
  if (cp <? 65536)%N then [cp]
  else let v := (cp - 65536)%N in
       [(55296 + v / 1024)%N; (56320 + v mod 1024)%N].

Fixpoint utf8 (s : string) (need : nat) (acc : N) : list N :=
  match s with
  | EmptyString => []
  | String a s' =>
      let b := N_of_ascii a in
      match need with
      | O =>
          if (b <? 128)%N then b :: utf8 s' 0 0%N
          else if (b <? 224)%N then utf8 s' 1 (b - 192)%N
          else if (b <? 240)%N then utf8 s' 2 (b - 224)%N
          else utf8 s' 3 (b - 240)%N
      | S k =>
          let acc' := (acc * 64 + (b - 128))%N in
          match k with
          | O => emit acc' ++ utf8 s' 0 0%N
          | S _ => utf8 s' k acc'
          end
      end
  end.

Definition js (s : string) : list N := utf8 s 0 0%N.

Definition eqb (a b : list N) : bool := bool_decide (a = b).

(** WhiteSpace and LineTerminator code units: what [trim] strips and what
    [\s] matches. *)
Definition isWhite (c : N) : bool :=
  ((9 <=? c) && (c <=? 13) || (c =? 32) || (c =? 160) || (c =? 5760)
   || (8192 <=? c) && (c <=? 8202) || (c =? 8232) || (c =? 8233)
   || (c =? 8239) || (c =? 8287) || (c =? 12288) || (c =? 65279))%N.

Fixpoint trimStart (s : list N) : list N :=
  match s with
  | c :: s' => if isWhite c then trimStart s' else s
  | [] => []
  end.

Definition trimEnd (s : list N) : list N := rev (trimStart (rev s)).

Definition trim (s : list N) : list N := trimEnd (trimStart s).

(** [s.replace(/\s+/g, "")] *)
Definition removeSpaces (s : list N) : list N :=
  List.filter (fun c => negb (isWhite c)) s.

(** [s.replace(/x/g, "y")] for single code units. *)
Definition replaceAll (x y : N) (s : list N) : list N :=
  map (fun c => if (c =? x)%N then y else c) s.

Definition lowerUnit (c : N) : N :=
  if ((65 <=? c) && (c <=? 90))%N then (c + 32)%N else c.

Definition toLowerCase (s : list N) : list N := map lowerUnit s.

Fixpoint startsWith (s k : list N) : bool :=
  match k, s with
  | [], _ => true
  | _ :: _, [] => false
  | x :: k', y :: s' => (x =? y)%N && startsWith s' k'
  end.

Fixpoint includes (s k : list N) : bool :=
  startsWith s k ||
  match s with
  | [] => false
  | _ :: s' => includes s' k
  end.

Definition isDigit (c : N) : bool := ((48 <=? c) && (c <=? 57))%N.

Definition isLetter (c : N) : bool :=
  ((65 <=? c) && (c <=? 90) || (97 <=? c) && (c <=? 122))%N.

(** Decimal rendering of a natural number and of an integer. *)
Definition ofN (n : N) : list N :=
  map N_of_ascii (list_ascii_of_string (NilZero.string_of_uint (N.to_uint n))).

Definition ofNat (n : nat) : list N := ofN (N.of_nat n).

Definition ofZ (z : Z) : list N :=
  match z with
  | Zneg p => 45%N :: ofN (Npos p)
  | _ => ofN (Z.to_N z)
  end.

(** [xs.join(sep)] *)
Fixpoint join (sep : list N) (xs : list (list N)) : list N :=
  match xs with
  | [] => []
  | [x] => x
  | x :: xs' => x ++ sep ++ join sep xs'
  end.

End JsString.

Import JsString.

(* ===================================================================== *)
(** ** Cells and their conversions *)
(* ===================================================================== *)

Inductive Cell : Type :=
| CUndef
| CNull
| CNum (z : Z)
| CStr (s : list N).

(** [String(v ?? "")]; a number in plain decimal, as [String] writes the
    integers up to 2^53 in absolute value. *)
Definition str (v : Cell) : list N :=
  match v with
  | CUndef | CNull => []
  | CNum z => ofZ z
  | CStr s => s
  end.

(** [String(v ?? "").trim()] *)
Definition strTrim (v : Cell) : list N := trim (str v).

(** Truthiness of a string: non-empty. *)
Definition nonEmpty (s : list N) : bool :=
  match s with [] => false | _ => true end.

(** ExcelParse.isEmptyCell *)
Definition isEmptyCell (v : Cell) : bool := negb (nonEmpty (strTrim v)).

(** A row object [Record<string, any>]: a finite map from column keys to
    cells; a missing property reads as [undefined]. *)
Abbreviation Row := (gmap (list N) Cell).

Definition getProp (r : Row) (k : list N) : Cell := default CUndef (r !! k).

(** Array read [row[c]]: [undefined] past the end. *)
Definition getIdx (row : list Cell) (c : nat) : Cell := default CUndef (row !! c).

(** [rows.slice(0, n)] *)
Definition slice0 {A} (n : nat) (l : list A) : list A := take n l.

(* --------------------------------------------------------------------- *)
(** *** Numbers *)

Definition Qltb (a b : Q) : bool := negb (Qle_bool b a).

Fixpoint digitsVal (acc : Z) (ds : list N) : Z :=
  match ds with
  | [] => acc
  | d :: ds' => digitsVal (10 * acc + (Z.of_N d - 48))%Z ds'
  end.

Fixpoint spanDigits (s : list N) : list N * list N :=
  match s with
  | c :: s' =>
      if isDigit c then let '(a, b) := spanDigits s' in (c :: a, b) else ([], s)
  | [] => ([], [])
  end.

(** [Number(cleaned)] for a string made of digits, dots and minus signs:
    the StrDecimalLiteral grammar without exponent, [None] for NaN. *)
Definition parseDecimal (s : list N) : option Q :=
  let '(neg, body) :=
    match s with
    | 45%N :: t => (true, t)
    | _ => (false, s)
    end in
  let '(ip, rest) := spanDigits body in
  let sign (q : Q) : Q := if neg then Qopp q else q in
  match rest with
  | [] => if nonEmpty ip then Some (sign (inject_Z (digitsVal 0 ip))) else None
  | 46%N :: fp =>
      if forallb isDigit fp && (nonEmpty ip || nonEmpty fp)
      then Some (sign (Qmake (digitsVal (digitsVal 0 ip) fp)
                             (Z.to_pos (10 ^ Z.of_nat (length fp)))))
      else None
  | _ => None
  end.

(** ImportEngine.toNumber *)
Definition toNumber (v : Cell) : option Q :=
  match v with
  | CUndef | CNull => None
  | CNum z => Some (inject_Z z)
  | CStr s0 =>
      let s := trim s0 in
      if nonEmpty s then
        let cleaned :=
          List.filter (fun c => isDigit c || (c =? 46)%N || (c =? 45)%N) s in
        if nonEmpty cleaned then parseDecimal cleaned else None
      else None
  end.

(** ImportEngine.isLikelyChineseName: [/^[一-龥]{2,5}$/] on the
    trimmed text. *)
Definition isHan (c : N) : bool := ((19968 <=? c) && (c <=? 40869))%N.

Definition isLikelyChineseName (v : list N) : bool :=
  let s := trim v in
  forallb isHan s && (2 <=? length s) && (length s <=? 5).

(* ===================================================================== *)
(** ** ExcelParse: from a sheet to blocks *)
(* ===================================================================== *)

Module ExcelParse.

Record ParsedColumn : Type := {
  key : list N;
  label : list N;
  colIndex : nat
}.

Record BlockMeta : Type := {
  startCol : nat;
  endCol : nat;
  headerStartRow : nat;
  headerRowsUsed : nat
}.

Record ParsedBlock : Type := {
  blockId : list N;
  rangeLabel : list N;
  columns : list ParsedColumn;
  rows : list Row;
  meta : BlockMeta
}.

(** A merge range [{s: {r, c}, e: {r, c}}]. *)
Record Range : Type := {
  s_r : nat;
  s_c : nat;
  e_r : nat;
  e_c : nat
}.

(** The worksheet: its cell objects by address ([sheet[addr].v]) and its
    ["!merges"] list (absent reads as empty). *)
Record WorkSheet : Type := {
  ws_cells : gmap (nat * nat) Cell;
  ws_merges : list Range
}.

Definition covers (m : Range) (r0 c0 : nat) : bool :=
  (s_r m <=? r0) && (r0 <=? e_r m) && (s_c m <=? c0) && (c0 <=? e_c m).

Definition getCellValueMerged (sheet : WorkSheet) (r0 c0 : nat) : Cell :=
  let viaMerges :=
    match List.find (fun m => covers m r0 c0) (ws_merges sheet) with
    | Some m => default CNull (ws_cells sheet !! (s_r m, s_c m))
    | None => CNull
    end in
  match ws_cells sheet !! (r0, c0) with
  | Some v => if isEmptyCell v then viaMerges else v
  | None => viaMerges
  end.

(** [row[c] = v]: an assignment past the end extends the array with
    holes, which read as [undefined]. *)
Definition setIdx (row : list Cell) (c : nat) (v : Cell) : list Cell :=
  if c <? length row then <[c := v]> row
  else row ++ replicate (c - length row) CUndef ++ [v].

(** [matrix[r] ?? []] *)
Definition getRow (matrix : list (list Cell)) (r : nat) : list Cell :=
  default [] (matrix !! r).

(** [matrix[r] = row]; a hole left by an assignment past the end reads as
    [[]] wherever the source reads a row ([matrix[r] ?? []]). *)
Definition setRow (matrix : list (list Cell)) (r : nat) (row : list Cell)
  : list (list Cell) :=
  if r <? length matrix then <[r := row]> matrix
  else matrix ++ replicate (r - length matrix) [] ++ [row].

(** [for (let i = lo; i <= hi; i++)] *)
Definition fromTo (lo hi : nat) : list nat := seq lo (S hi - lo).

Definition fillCell (tl : Cell) (row : list Cell) (c : nat) : list Cell :=
  if isEmptyCell (getIdx row c) then setIdx row c tl else row.

Definition fillRow (tl : Cell) (m : Range) (row : list Cell) : list Cell :=
  foldl (fillCell tl) row (fromTo (s_c m) (e_c m)).

(** One turn of the row loop: [const row = matrix[r] ?? (matrix[r] = [])]
    and the column loop on it. *)
Definition fillRowAt (tl : Cell) (m : Range) (matrix : list (list Cell))
    (r : nat) : list (list Cell) :=
  setRow matrix r (fillRow tl m (getRow matrix r)).

Definition fillRange (tl : Cell) (m : Range) (maxRows : nat)
    (matrix : list (list Cell)) : list (list Cell) :=
  let rEnd := Nat.min (e_r m) (maxRows - 1) in
  foldl (fillRowAt tl m) matrix (fromTo (s_r m) rEnd).

Definition applyMerge (ws : WorkSheet) (maxRows : nat)
    (matrix : list (list Cell)) (m : Range) : list (list Cell) :=
  if maxRows <=? s_r m then matrix
  else
    let tl := getCellValueMerged ws (s_r m) (s_c m) in
    if isEmptyCell tl then matrix
    else fillRange tl m maxRows matrix.

(** [while (matrix.length < maxRows) matrix.push([])] *)
Definition padRows (maxRows : nat) (matrix : list (list Cell))
  : list (list Cell) :=
  matrix ++ replicate (maxRows - length matrix) [].

Definition applyMergesToMatrix (ws : WorkSheet) (matrix : list (list Cell))
    (maxRows : nat) : list (list Cell) :=
  match ws_merges ws with
  | [] => matrix
  | merges => foldl (applyMerge ws maxRows) (padRows maxRows matrix) merges
  end.

(** [colLetter]: the loop runs while [x > 0]; [x] strictly decreases, so
    [x] itself bounds the number of turns. *)
Fixpoint colLetterLoop (fuel x : nat) (s : list N) : list N :=
  match fuel with
  | O => s
  | S f =>
      if 0 <? x then
        let r := (x - 1) mod 26 in
        colLetterLoop f ((x - 1) / 26) (N.of_nat (65 + r) :: s)
      else s
  end.

Definition colLetter (n : nat) : list N := colLetterLoop (n + 1) (n + 1) [].

Definition norm (s : list N) : list N :=
  toLowerCase
    (replaceAll 65289 41 (replaceAll 65288 40 (removeSpaces (trim s)))).

Definition isSeparatorCol (matrix : list (list Cell)) (col topRows : nat)
  : bool :=
  forallb (fun r => isEmptyCell (getIdx (getRow matrix r) col))
          (seq 0 (Nat.min topRows (length matrix))).

Definition HEADER_KEYWORDS : list (list N) :=
  map js ["姓名"; "名字"; "学号"; "考号"; "学籍"; "班级"; "总分"; "合计";
          "总计"; "分数"; "排名"; "名次"; "扣分"; "原始分"; "赋分"; "语文";
          "数学"; "英语"; "物理"; "化学"; "生物"; "政治"; "历史";
          "地理"]%string.

Definition hasKeyword (row : list Cell) : bool :=
  let s := join (js "|") (map str row) in
  existsb (includes s) HEADER_KEYWORDS.

Definition nonEmptyCells (row : list Cell) : list Cell :=
  List.filter (fun v => nonEmpty (strTrim v)) row.

Definition nonEmptyCount (row : list Cell) : nat := length (nonEmptyCells row).

Definition looksLikeTitle (row : list Cell) : bool :=
  match nonEmptyCells row with
  | [v] => 6 <=? length (strTrim v)
  | _ => false
  end.

Definition rowScore (row : list Cell) : Z :=
  (Z.of_nat (nonEmptyCount row) + (if hasKeyword row then 12 else 0))%Z.

(** A row that passes both [continue] guards of the loop. *)
Definition isCandidate (row : list Cell) : bool :=
  negb (looksLikeTitle row) &&
  negb ((nonEmptyCount row <? 3) && negb (hasKeyword row)).

Definition headerStep (matrix : list (list Cell)) (st : nat * Z) (r : nat)
  : nat * Z :=
  let '(bestRow, bestScore) := st in
  let row := getRow matrix r in
  if looksLikeTitle row then st
  else
    let score := rowScore row in
    if (nonEmptyCount row <? 3) && negb (hasKeyword row) then st
    else if (bestScore <? score)%Z then (r, score)
    else st.

Definition detectHeaderStartRow (matrix : list (list Cell)) : nat :=
  let LIMIT := Nat.min 18 (length matrix) in
  fst (foldl (headerStep matrix) (0, (-1)%Z) (seq 0 LIMIT)).

(** [splitBlocks].  The inner [while] skips a run of separator columns;
    the outer one walks the remaining columns.  Every turn advances [c],
    so [W] turns are enough for either loop. *)
Fixpoint skipCuts (cuts : list nat) (W fuel c : nat) : nat :=
  match fuel with
  | O => c
  | S f =>
      if (c <? W) && bool_decide (c ∈ cuts) then skipCuts cuts W f (S c)
      else c
  end.

Fixpoint splitLoop (cuts : list nat) (W fuel c start : nat)
    (ranges : list (nat * nat)) : nat * list (nat * nat) :=
  match fuel with
  | O => (start, ranges)
  | S f =>
      if c <? W then
        if bool_decide (c ∈ cuts) then
          let ranges' :=
            if start <? c then ranges ++ [(start, c - 1)] else ranges in
          let c' := skipCuts cuts W (W - c) c in
          splitLoop cuts W f c' c' ranges'
        else splitLoop cuts W f (S c) start ranges
      else (start, ranges)
  end.

Definition splitBlocks (view : list (list Cell)) (headers : list (list N))
  : list (nat * nat) :=
  let W := length headers in
  let cuts := List.filter (fun c => isSeparatorCol view c 2) (seq 0 W) in
  let '(start, ranges) := splitLoop cuts W W 0 0 [] in
  let ranges := if start <? W then ranges ++ [(start, W - 1)] else ranges in
  List.filter (fun r => 3 <=? snd r - fst r + 1) ranges.

(** [makeUniqueColumns]; [headers[c]] past the end is [undefined], which a
    template renders as the word and [norm] as the empty string. *)
Definition makeColumn (headers : list (list N)) (c : nat) : ParsedColumn :=
  let base := headers !! c in
  let normed := norm (default [] base) in
  let keyBase := if nonEmpty normed then normed else js "col" in
  {| key := keyBase ++ js "__" ++ ofNat c;
     label := default (js "undefined") base ++ js "（" ++ colLetter c
                ++ js "列）";
     colIndex := c |}.

Definition makeUniqueColumns (headers : list (list N)) (start end_ : nat)
  : list ParsedColumn :=
  map (makeColumn headers) (fromTo start end_).

(** One data row of a block: the object and the [anyVal] flag. *)
Definition buildRow (cols : list ParsedColumn) (row : list Cell)
  : bool * Row :=
  foldl (fun '(anyVal, obj) col =>
           let v := getIdx row (colIndex col) in
           (anyVal || negb (isEmptyCell v), <[key col := v]> obj))
        (false, ∅) cols.

Definition buildRows (cols : list ParsedColumn) (view : list (list Cell))
    (dataStartRow : nat) : list Row :=
  omap (fun i => let '(anyVal, obj) := buildRow cols (getRow view i) in
                 if anyVal then Some obj else None)
       (seq dataStartRow (length view - dataStartRow)).

(** The part of [parseSheetToBlocks] after [buildHeaders]: the header
    labels and the number of header rows are whatever [buildHeaders]
    returned for the view. *)
Definition blocksOfView (view : list (list Cell)) (headers : list (list N))
    (headerStartRow headerRowsUsed : nat) : list ParsedBlock :=
  imap (fun idx r =>
          let cols := makeUniqueColumns headers (fst r) (snd r) in
          {| blockId := js "block-" ++ ofNat (idx + 1);
             rangeLabel := js "块" ++ ofNat (idx + 1) ++ js " ("
                             ++ colLetter (fst r) ++ js "~"
                             ++ colLetter (snd r) ++ js "列)";
             columns := cols;
             rows := buildRows cols view headerRowsUsed;
             meta := {| startCol := fst r; endCol := snd r;
                        headerStartRow := headerStartRow;
                        headerRowsUsed := headerRowsUsed |} |})
       (splitBlocks view headers).

(** A sheet as the workbook hands it over: the worksheet object and the
    grid [XLSX.utils.sheet_to_json] makes of it. *)
Record Sheet : Type := {
  sheet_ws : WorkSheet;
  sheet_matrix : list (list Cell)
}.

Section Parse.

(** [buildHeaders] decides the column labels and whether one or two
    header rows are used; nothing below depends on how, so it is a
    parameter here. *)
Variable buildHeaders : list (list Cell) -> list (list N) * nat.

Definition parseSheetToBlocks (sh : Sheet) : list ParsedBlock :=
  match sheet_matrix sh with
  | [] => []
  | _ =>
      let matrix := applyMergesToMatrix (sheet_ws sh) (sheet_matrix sh) 30 in
      let headerStartRow := detectHeaderStartRow matrix in
      let view := drop headerStartRow matrix in
      let '(headers, headerRowsUsed) := buildHeaders view in
      blocksOfView view headers headerStartRow headerRowsUsed
  end.

End Parse.

End ExcelParse.

(* ===================================================================== *)
(** ** ImportEngine: column roles, records, class inference *)
(* ===================================================================== *)

Module ImportEngine.

Import ExcelParse.

(** [ExamConfig].  [examId] is the source's [id]; [scope] is the constant
    ["auto"] at import and [metricCols] (the per-subject table) is not
    carried: neither is read by the functions below. *)
Record ExamConfig : Type := {
  examId : list N;
  fileName : list N;
  sheetName : list N;
  examName : list N;
  blocks : list ParsedBlock;
  blockId : list N;
  cols : list ParsedColumn;
  rows : list Row;
  idCol : list N;
  nameCol : list N;
  classCol : list N;
  totalCol : list N;
  inferredClass : list N;
  overrideClass : list N;
  fatalErrors : list (list N);
  warnings : list (list N)
}.

(* ------------------------------------------------------------------- *)
(** *** utils *)

(** [s.replace(/<open>[a-zA-Z]+列<close>$/, "")]: the suffix, read from
    the end, is the closing bracket, the character 列, a maximal
    non-empty run of letters and the opening bracket. *)
Fixpoint spanLetters (s : list N) : list N * list N :=
  match s with
  | c :: s' =>
      if isLetter c then let '(a, b) := spanLetters s' in (c :: a, b)
      else ([], s)
  | [] => ([], [])
  end.

Definition stripColSuffix (open close : N) (s : list N) : list N :=
  match rev s with
  | c1 :: c2 :: r1 =>
      if (c1 =? close)%N && (c2 =? 21015)%N then
        let '(letters, r2) := spanLetters r1 in
        match r2 with
        | c3 :: r3 =>
            if nonEmpty letters && (c3 =? open)%N then rev r3 else s
        | [] => s
        end
      else s
  | _ => s
  end.

Definition normalizeHeader (s : list N) : list N :=
  toLowerCase
    (replaceAll 65289 41
       (replaceAll 65288 40
          (removeSpaces
             (stripColSuffix 40 41 (stripColSuffix 65288 65289 (trim s)))))).

Definition makeExamId (fileName sheetName : list N) : list N :=
  fileName ++ js "::" ++ sheetName.

(* ------------------------------------------------------------------- *)
(** *** column guessing *)

Definition isNameHeader (h : list N) : bool :=
  includes h (js "姓名") || includes h (js "名字").

Definition findAllNameCols (cols : list ParsedColumn) : list (list N) :=
  map key (List.filter (fun c => isNameHeader (normalizeHeader (label c))) cols).

Definition guessIdCol (cols : list ParsedColumn) : list N :=
  let keys := map js ["学生id"; "学号"; "studentid"; "student_id"; "id"]%string in
  match List.find (fun c => existsb (includes (normalizeHeader (label c))) keys)
                  cols with
  | Some c => key c
  | None => []
  end.

Definition classRankLike (h : list N) : bool :=
  let exclude := map js ["排名"; "名次"; "rank"; "班级排"; "年级排"; "班排";
                         "年排"; "校排"; "级排"]%string in
  existsb (includes h) exclude ||
  (includes h (js "排") &&
   (includes h (js "班") || includes h (js "年") || includes h (js "校")
    || includes h (js "级"))).

Definition guessClassCol (cols : list ParsedColumn) : list N :=
  let includeExact := map js ["班级"; "班级号"; "行政班"; "班号"; "班别";
                              "班级编号"]%string in
  let pass1 c :=
    let h := normalizeHeader (label c) in
    negb (classRankLike h) && existsb (JsString.eqb h) includeExact in
  let pass2 c :=
    let h := normalizeHeader (label c) in
    negb (classRankLike h) &&
    (includes h (js "班级号") || includes h (js "行政班")
     || includes h (js "班号") || JsString.eqb h (js "班级")
     || includes h (js "班级")) in
  match List.find pass1 cols with
  | Some c => key c
  | None =>
      match List.find pass2 cols with
      | Some c => key c
      | None => []
      end
  end.

(** [a / b] for two counters. *)
Definition frac (a b : nat) : Q :=
  (inject_Z (Z.of_nat a) / inject_Z (Z.of_nat b))%Q.

Definition nameCounts (rows : list Row) (k : list N) : nat * nat :=
  foldl (fun '(seen, hit) r =>
           let s := strTrim (getProp r k) in
           if nonEmpty s
           then (S seen, if isLikelyChineseName s then S hit else hit)
           else (seen, hit))
        (0, 0) (slice0 450 rows).

Definition scoreName (rows : list Row) (c : ParsedColumn) : Q :=
  let h := normalizeHeader (label c) in
  let score := if isNameHeader h then 6%Q else 0%Q in
  let '(seen, hit) := nameCounts rows (key c) in
  if 0 <? seen then (score + frac hit seen * 10)%Q else score.

(** The scan of [guessNameCol]: the best key so far and its score. *)
Definition nameScan (rows : list Row) (cols : list ParsedColumn)
    (best0 : list N) : list N * Q :=
  foldl (fun '(best, bestScore) c =>
           let score := scoreName rows c in
           if Qltb bestScore score then (key c, score) else (best, bestScore))
        (best0, (-1)%Q) cols.

Definition guessNameCol (rows : list Row) (cols : list ParsedColumn)
  : list N :=
  let prefer :=
    List.find (fun c => isNameHeader (normalizeHeader (label c))) cols in
  let best0 :=
    match prefer with
    | Some c => key c
    | None => match cols with c :: _ => key c | [] => [] end
    end in
  fst (nameScan rows cols best0).

Definition totalRankLike (h : list N) : bool :=
  includes h (js "排名") || includes h (js "名次")
  || includes h (js "班级排") || includes h (js "年级排")
  || (includes h (js "排") &&
      (includes h (js "班") || includes h (js "年") || includes h (js "校")
       || includes h (js "级"))).

Definition totalMetaLike (h : list N) : bool :=
  JsString.eqb h (js "班级") || includes h (js "班级号")
  || includes h (js "行政班") || includes h (js "班号")
  || includes h (js "考号") || includes h (js "准考证")
  || JsString.eqb h (js "姓名") || includes h (js "名字").

Record TotalCounts : Type := {
  seen : nat;
  numeric : nat;
  inRange : nat;
  veryLarge : nat
}.

Definition totalCountStep (k : list N) (a : TotalCounts) (r : Row)
  : TotalCounts :=
  let v := getProp r k in
  if isEmptyCell v then a
  else
    match toNumber v with
    | Some n =>
        {| seen := S (seen a);
           numeric := S (numeric a);
           inRange := if Qle_bool 0 n && Qle_bool n 1200
                      then S (inRange a) else inRange a;
           veryLarge := if Qle_bool 100000 n
                        then S (veryLarge a) else veryLarge a |}
    | None =>
        {| seen := S (seen a); numeric := numeric a;
           inRange := inRange a; veryLarge := veryLarge a |}
    end.

Definition totalCounts (rows : list Row) (k : list N) : TotalCounts :=
  foldl (totalCountStep k)
        {| seen := 0; numeric := 0; inRange := 0; veryLarge := 0 |}
        (slice0 450 rows).

Definition scoreTotal (rows : list Row) (c : ParsedColumn) : Q :=
  let h := normalizeHeader (label c) in
  let good := map js ["总分"; "总分得分"; "总分_得分"; "总分原始分";
                      "总分_原始分"; "总分原始"; "总分_原始"]%string in
  let score := if existsb (includes h) good then 20%Q else 0%Q in
  if totalRankLike h then (-9999)%Q
  else if totalMetaLike h then (-9999)%Q
  else
    let score := if includes h (js "赋分") then (score - 50)%Q else score in
    let a := totalCounts rows (key c) in
    if 0 <? seen a then
      (score + frac (numeric a) (seen a) * 5
             + frac (inRange a) (seen a) * 30
             - frac (veryLarge a) (seen a) * 200)%Q
    else (score - 50)%Q.

(** The scan of [guessTotalCol]: the best key so far and its score. *)
Definition totalScan (rows : list Row) (cols : list ParsedColumn)
  : list N * Q :=
  foldl (fun '(best, bestScore) c =>
           let s := scoreTotal rows c in
           if Qltb bestScore s then (key c, s) else (best, bestScore))
        ([], (-1000000000)%Q) cols.

Definition guessTotalCol (rows : list Row) (cols : list ParsedColumn)
  : list N :=
  let '(best, bestScore) := totalScan rows cols in
  if Qltb bestScore 10 then [] else best.

Definition hasAnyNonEmpty (rows : list Row) (colKey : list N) (limit : nat)
  : bool :=
  nonEmpty colKey &&
  existsb (fun r => nonEmpty (strTrim (getProp r colKey))) (slice0 limit rows).

(* ------------------------------------------------------------------- *)
(** *** block quality *)

Definition qualityCounts (rows : list Row) (nameCol totalCol : list N)
  : nat * nat * nat :=
  foldl (fun '(seen, nameHit, totalHit) r =>
           let n := strTrim (getProp r nameCol) in
           let t := if nonEmpty totalCol then toNumber (getProp r totalCol)
                    else None in
           if negb (nonEmpty n) && negb (bool_decide (is_Some t)) then
             (seen, nameHit, totalHit)
           else
             (S seen,
              if isLikelyChineseName n then S nameHit else nameHit,
              if bool_decide (is_Some t) then S totalHit else totalHit))
        (0, 0, 0) (slice0 500 rows).

Definition scoreBlockQuality (block : ParsedBlock) : Q :=
  let cols := columns block in
  let rows := ExcelParse.rows block in
  match cols, rows with
  | [], _ | _, [] => (-999)%Q
  | _, _ =>
      let headers :=
        join (js "|") (map (fun c => normalizeHeader (label c)) cols) in
      let score := if isNameHeader headers then 15%Q else 0%Q in
      let score := if includes headers (js "总分") then (score + 15)%Q
                   else score in
      let nameCol := guessNameCol rows cols in
      let totalCol := guessTotalCol rows cols in
      let '(seen, nameHit, totalHit) := qualityCounts rows nameCol totalCol in
      let score := if 0 <? seen
                   then (score + frac nameHit seen * 20
                               + frac totalHit seen * 15)%Q
                   else score in
      let score := if 6 <=? length cols then (score + 3)%Q else score in
      if length cols <? 4 then (score - 10)%Q else score
  end.

(* ------------------------------------------------------------------- *)
(** *** class inference *)

(** [hasClassData] on the two fields it reads. *)
Definition hasClassDataOf (classCol : list N) (rows : list Row) : bool :=
  nonEmpty classCol &&
  existsb (fun r => nonEmpty (strTrim (getProp r classCol))) (slice0 300 rows).

Definition hasClassData (ex : ExamConfig) : bool :=
  hasClassDataOf (classCol ex) (rows ex).

(** [Set.add] on a set kept in insertion order. *)
Definition setAdd (x : list N) (s : list (list N)) : list (list N) :=
  if bool_decide (x ∈ s) then s else s ++ [x].

(** Code-unit order, the default order of [Array.prototype.sort]. *)
Fixpoint strLe (a b : list N) : bool :=
  match a, b with
  | [], _ => true
  | _ :: _, [] => false
  | x :: a', y :: b' => (x <? y)%N || ((x =? y)%N && strLe a' b')
  end.

Fixpoint insertSorted (x : list N) (l : list (list N)) : list (list N) :=
  match l with
  | [] => [x]
  | y :: l' => if strLe x y then x :: l else y :: insertSorted x l'
  end.

Definition sortStrings (l : list (list N)) : list (list N) :=
  foldr insertSorted [] l.

(** [ClassInferenceResult]: [nameToClasses] maps a name to the set of its
    classes, iterated in insertion order. *)
Record ClassInferenceResult : Type := {
  classSet : list (list N);
  nameToClasses : gmap (list N) (list (list N))
}.

Definition indexRow (nameCol classCol : list N)
    (st : list (list N) * gmap (list N) (list (list N))) (r : Row)
  : list (list N) * gmap (list N) (list (list N)) :=
  let name := strTrim (getProp r nameCol) in
  let cls := strTrim (getProp r classCol) in
  if negb (nonEmpty name) || negb (nonEmpty cls) then st
  else (setAdd cls (fst st),
        <[name := setAdd cls (default [] (snd st !! name))]> (snd st)).

Definition buildClassIndex (exams : list ExamConfig) : ClassInferenceResult :=
  let st :=
    foldl (fun st ex =>
             if negb (hasClassData ex) || negb (nonEmpty (classCol ex))
                || negb (nonEmpty (nameCol ex))
             then st
             else foldl (indexRow (nameCol ex) (classCol ex)) st (rows ex))
          ([], ∅) exams in
  {| classSet := sortStrings (fst st); nameToClasses := snd st |}.

Definition UNKNOWN : list N := js "未知班级".
Definition SCHOOL : list N := js "全校".

(** The sampling loop of [inferSheetClass]: push each non-empty trimmed
    name, stop once [cap] names (the source's [N = 6]) are held. *)
Fixpoint sampleNames (cap : nat) (nameCol : list N) (rows : list Row)
    (names : list (list N)) : list (list N) :=
  match rows with
  | [] => names
  | r :: rows' =>
      let n := strTrim (getProp r nameCol) in
      if nonEmpty n then
        let names' := names ++ [n] in
        if cap <=? length names' then names'
        else sampleNames cap nameCol rows' names'
      else sampleNames cap nameCol rows' names
  end.

(** [vote.set(c, (vote.get(c) ?? 0) + 1)] on a map kept in insertion
    order. *)
Fixpoint voteAdd (c : list N) (vote : list (list N * nat))
  : list (list N * nat) :=
  match vote with
  | [] => [(c, 1)]
  | (c', v) :: vote' =>
      if JsString.eqb c' c then (c', S v) :: vote'
      else (c', v) :: voteAdd c vote'
  end.

(** One sampled name: a name with at least one known class is a hit and
    gives each of its classes one vote. *)
Definition countStep (idx : ClassInferenceResult)
    (st : list (list N * nat) * nat) (n : list N)
  : list (list N * nat) * nat :=
  let '(vote, hit) := st in
  match nameToClasses idx !! n with
  | Some (c :: cs) => (foldl (fun v c => voteAdd c v) vote (c :: cs), S hit)
  | _ => (vote, hit)
  end.

Definition countVotes (idx : ClassInferenceResult) (names : list (list N))
  : list (list N * nat) * nat :=
  foldl (countStep idx) ([], 0) names.

Definition bestVote (vote : list (list N * nat)) : list N * Z :=
  foldl (fun '(bestC, bestV) '(c, v) =>
           if (bestV <? Z.of_nat v)%Z then (c, Z.of_nat v) else (bestC, bestV))
        ([], (-1)%Z) vote.

(** The decision of [inferSheetClass] once the votes are counted. *)
Definition decideClass (rowCount : nat) (vote : list (list N * nat))
    (hit : nat) : list N :=
  if (hit <? 3) || (length vote =? 0) then UNKNOWN
  else
    let '(bestC, bestV) := bestVote vote in
    let ratio := (inject_Z bestV / inject_Z (Z.of_nat hit))%Q in
    if (150 <=? rowCount) && Qltb ratio (85 # 100) then SCHOOL
    else if Qle_bool (7 # 10) ratio then bestC
    else UNKNOWN.

Definition inferSheetClass (ex : ExamConfig) (idx : ClassInferenceResult)
  : list N :=
  if hasClassData ex then inferredClass ex
  else if negb (nonEmpty (nameCol ex)) then UNKNOWN
  else
    let names := sampleNames 6 (nameCol ex) (rows ex) [] in
    if length names <? 3 then UNKNOWN
    else
      let '(vote, hit) := countVotes idx names in
      decideClass (length (rows ex)) vote hit.

(* ------------------------------------------------------------------- *)
(** *** import main *)

Definition MSG_MULTI_NAME (n : nat) : list N :=
  js "检测到多个“姓名”列（" ++ ofNat n ++ js "列）。请合并为一列后再导入。".

Definition MSG_NO_NAME : list N :=
  js "未识别到“姓名”列（支持“姓名/姓 名/名字”）。".

Definition MSG_TINY_TOTAL : list N :=
  js "总分列疑似异常（大量值<=20），可能误选为排名列，请检查该sheet表头。".

Definition pickBestBlock (b0 : ParsedBlock) (blocks : list ParsedBlock)
  : ParsedBlock :=
  fst (foldl (fun '(best, bestScore) b =>
                let s := scoreBlockQuality b in
                match bestScore with
                | None => (b, Some s)
                | Some bs => if Qltb bs s then (b, Some s) else (best, bestScore)
                end)
             (b0, None) blocks).

(** The local [fixedClassCol] of [importFiles]: the class column, or the
    empty string when, among the first 300 rows that have a name, at
    least 10 were seen and fewer than a tenth carry a class. *)
Definition fixedClassCol (rows : list Row) (nameCol classCol : list N)
  : list N :=
  if nonEmpty classCol then
    let window := Nat.min 300 (length rows) in
    let '(seen, nonEmptyN) :=
      foldl (fun '(seen, ne) r =>
               let nameV := if nonEmpty nameCol
                            then strTrim (getProp r nameCol) else [] in
               if nonEmpty nameV then
                 (S seen,
                  if nonEmpty (strTrim (getProp r classCol)) then S ne else ne)
               else (seen, ne))
            (0, 0) (slice0 window rows) in
    let ratio := if 0 <? seen then frac nonEmptyN seen else 0%Q in
    if (10 <=? seen) && Qltb ratio (1 # 10) then [] else classCol
  else classCol.

Definition totalWarnings (rows : list Row) (totalCol : list N)
  : list (list N) :=
  if nonEmpty totalCol then
    let '(seen, tiny) :=
      foldl (fun '(seen, tiny) r =>
               match toNumber (getProp r totalCol) with
               | None => (seen, tiny)
               | Some n =>
                   (S seen,
                    if Qle_bool 0 n && Qle_bool n 20 then S tiny else tiny)
               end)
            (0, 0) (slice0 300 rows) in
    if (10 <=? seen) && Qle_bool (7 # 10) (frac tiny seen)
    then [MSG_TINY_TOTAL] else []
  else [].

(** The body of the sheet loop of [importFiles], for a sheet whose block
    list starts with [b0]. *)
Definition importSheet (fName sheetName : list N) (b0 : ParsedBlock)
    (blocks : list ParsedBlock) : ExamConfig :=
  let best := pickBestBlock b0 blocks in
  let cols := columns best in
  let rows := ExcelParse.rows best in
  let idCol := guessIdCol cols in
  let classCol0 := guessClassCol cols in
  let classCol :=
    if nonEmpty classCol0 && negb (hasAnyNonEmpty rows classCol0 400)
    then [] else classCol0 in
  let nameCols := findAllNameCols cols in
  let fatal1 :=
    if 2 <=? length nameCols then [MSG_MULTI_NAME (length nameCols)] else [] in
  let nameCol :=
    match nameCols with
    | k :: _ => if nonEmpty k then k else guessNameCol rows cols
    | [] => guessNameCol rows cols
    end in
  let fatal2 := if nonEmpty nameCol then [] else [MSG_NO_NAME] in
  let fixedClassCol := fixedClassCol rows nameCol classCol in
  let totalCol := guessTotalCol rows cols in
  {| examId := makeExamId fName sheetName;
     fileName := fName;
     sheetName := sheetName;
     examName := sheetName;
     blocks := blocks;
     blockId := ExcelParse.blockId best;
     cols := cols;
     rows := rows;
     idCol := idCol;
     nameCol := nameCol;
     classCol := classCol;
     totalCol := totalCol;
     inferredClass := [];
     overrideClass := [];
     fatalErrors := fatal1 ++ fatal2;
     warnings := totalWarnings rows totalCol |}.

Record File : Type := {
  file_name : list N;
  file_sheets : list (list N * Sheet)
}.

Definition setInferredClass (ex : ExamConfig) (c : list N) : ExamConfig :=
  {| examId := examId ex; fileName := fileName ex; sheetName := sheetName ex;
     examName := examName ex; blocks := blocks ex; blockId := blockId ex;
     cols := cols ex; rows := rows ex; idCol := idCol ex;
     nameCol := nameCol ex; classCol := classCol ex; totalCol := totalCol ex;
     inferredClass := c; overrideClass := overrideClass ex;
     fatalErrors := fatalErrors ex; warnings := warnings ex |}.

Section ImportMain.

Variable buildHeaders : list (list Cell) -> list (list N) * nat.

(** First pass: one record per sheet that is not the instructions
    sheet and yields at least one block. *)
Definition importSheets (f : File) : list ExamConfig :=
  omap (fun '(sheetName, sh) =>
          if JsString.eqb (trim sheetName) (js "说明") then None
          else
            match parseSheetToBlocks buildHeaders sh with
            | [] => None
            | b0 :: bs => Some (importSheet (file_name f) sheetName b0 (b0 :: bs))
            end)
       (file_sheets f).

Definition importFiles (files : list File) : list ExamConfig :=
  let all := concat (map importSheets files) in
  let idx := buildClassIndex all in
  map (fun ex => setInferredClass ex (inferSheetClass ex idx)) all.

End ImportMain.

(** The sampling loop of [getEffectiveClass]: collect distinct non-empty
    trimmed class values, stop at two. *)
Fixpoint sampleClasses (classCol : list N) (rows : list Row)
    (set : list (list N)) : list (list N) :=
  match rows with
  | [] => set
  | r :: rows' =>
      match getProp r classCol with
      | CUndef | CNull => sampleClasses classCol rows' set
      | raw =>
          let v := trim (str raw) in
          if nonEmpty v then
            let set' := setAdd v set in
            if 2 <=? length set' then set'
            else sampleClasses classCol rows' set'
          else sampleClasses classCol rows' set
      end
  end.

Definition getEffectiveClass (ex : ExamConfig) : list N :=
  let c := trim (overrideClass ex) in
  if nonEmpty c then c
  else if nonEmpty (classCol ex) then
    match sampleClasses (classCol ex) (slice0 300 (rows ex)) [] with
    | [v] => v
    | _ :: _ :: _ => SCHOOL
    | [] => UNKNOWN
    end
  else if nonEmpty (inferredClass ex) then inferredClass ex
  else UNKNOWN.

End ImportEngine.

(* ===================================================================== *)
(** ** ExcelParse: the header builder *)
(* ===================================================================== *)

Module Headers.

Import ExcelParse ImportEngine.

(** [fillForward]: an empty cell takes the trimmed text of the last
    non-empty cell before it (the empty string when there is none); a
    non-empty cell is kept as it is. *)
Definition fillStep (st : list Cell * list N) (v : Cell) : list Cell * list N :=
  let '(out, last) := st in
  let s := strTrim v in
  if nonEmpty s then (out ++ [v], s) else (out ++ [CStr last], last).

Definition fillForward (arr : list Cell) : list Cell :=
  fst (foldl fillStep ([], []) arr).

(** [row[i] ?? ""] *)
Definition orEmpty (v : Cell) : Cell :=
  match v with
  | CUndef | CNull => CStr []
  | _ => v
  end.

(** [[...Array(W)].map((_, i) => row[i] ?? "")] *)
Definition padRow (W : nat) (row : list Cell) : list Cell :=
  map (fun i => orEmpty (getIdx row i)) (seq 0 W).

(** [arr.map(v => String(v ?? "").trim()).filter(s => s.length > 0)] *)
Definition nonEmptyTexts (arr : list Cell) : list (list N) :=
  List.filter nonEmpty (map strTrim arr).

(** [/^[一-龥]{2,5}$/] *)
Definition looksLikeChineseName (s : list N) : bool :=
  forallb isHan s && (2 <=? length s) && (length s <=? 5).

(** [/^-?\d+(\.\d+)?$/] *)
Definition looksLikeNumber (s : list N) : bool :=
  let body := match s with 45%N :: t => t | _ => s end in
  let '(ip, rest) := spanDigits body in
  nonEmpty ip &&
  match rest with
  | [] => true
  | 46%N :: fp => nonEmpty fp && forallb isDigit fp
  | _ => false
  end.

Definition testKeywords (s : list N) : bool :=
  existsb (includes s) HEADER_KEYWORDS.

Definition STRONG_HEADERS : list (list N) :=
  map js ["姓名"; "原始分"; "赋分"; "校内排名"; "班级排名"; "年级排名";
          "总分"; "合计"; "名次"; "排名"]%string.

Definition PLACEHOLDER : list N := js "未命名".

(** A sheet width or a cell count as a binary64 number. *)
Definition toFloat (n : nat) : float :=
  PrimFloat.of_uint63 (Uint63.of_Z (Z.of_nat n)).

(** [n <= Math.max(2, Math.floor(W * 0.25))]: for an integer [n],
    [n <= floor x] is [n <= x]. *)
Definition atMostQuarter (n W : nat) : bool :=
  (n <=? 2) || PrimFloat.leb (toFloat n) (PrimFloat.mul (toFloat W) 0.25%float).

(** [n >= Math.max(4, Math.floor(W * 0.35))]: for an integer [n],
    [n >= floor x] is [x < n + 1].  The constant is the binary64 value of
    the literal 0.35. *)
Definition atLeastThird (n W : nat) : bool :=
  (4 <=? n) &&
  PrimFloat.ltb (PrimFloat.mul (toFloat W) 0x1.6666666666666p-2%float)
                (toFloat (n + 1)).

(** [ratio(x) >= q] with [ratio = x => (c1.length ? x / c1.length : 0)],
    for the thresholds 0.25 and 0.6; the quotient of two cell counts of a
    row compares with them in binary64 as it does exactly. *)
Definition ratioAtLeast (q : Q) (x len : nat) : bool :=
  Qle_bool q (if 0 <? len then frac x len else 0%Q).

Definition countIf (p : list N -> bool) (l : list (list N)) : nat :=
  length (List.filter p l).

Definition useTwoRows (W : nat) (r0 r1 : list Cell) : bool :=
  let c1 := nonEmptyTexts r1 in
  let kwHits := countIf testKeywords c1 in
  let nameHits := countIf looksLikeChineseName c1 in
  let numHits := countIf looksLikeNumber c1 in
  let row1LooksLikeData :=
    (kwHits =? 0)
    && (ratioAtLeast (1 # 4) nameHits (length c1)
        || ratioAtLeast (6 # 10) numHits (length c1)) in
  let row1HasStrongHeader :=
    existsb (fun s => existsb (includes s) STRONG_HEADERS) c1 in
  let row1LooksLikeHeader := (1 <=? kwHits) || row1HasStrongHeader in
  let nonEmptyCount0 := length (nonEmptyTexts r0) in
  let nonEmptyCount1 := length (nonEmptyTexts r1) in
  let row0Sparse := atMostQuarter nonEmptyCount0 W in
  let row1Rich := atLeastThird nonEmptyCount1 W in
  let row0HasGroupKeyword := existsb testKeywords (nonEmptyTexts r0) in
  let groupHeaderPattern :=
    (row0Sparse && row1Rich) || (row0HasGroupKeyword && row1Rich) in
  negb row1LooksLikeData && (row1LooksLikeHeader || groupHeaderPattern).

(** The label of one column from its two header cells. *)
Definition headerOf (two : bool) (a b : list N) : list N :=
  let h :=
    if two then
      if nonEmpty a && nonEmpty b && negb (JsString.eqb a b)
      then a ++ js "_" ++ b
      else if nonEmpty a then a else b
    else a in
  if nonEmpty h then h else PLACEHOLDER.

Definition buildHeaders (view : list (list Cell)) : list (list N) * nat :=
  let row0 := getRow view 0 in
  let row1 := getRow view 1 in
  let W := Nat.max (length row0) (length row1) in
  let r0 := fillForward (padRow W row0) in
  let r1 := padRow W row1 in
  let two := useTwoRows W r0 r1 in
  (map (fun c => headerOf two (strTrim (getIdx r0 c)) (strTrim (getIdx r1 c)))
       (seq 0 W),
   if two then 2 else 1).

(** [parseSheetToBlocks] with the header builder of the source. *)
Definition parseSheet (sh : Sheet) : list ParsedBlock :=
  parseSheetToBlocks buildHeaders sh.

End Headers.

(* ===================================================================== *)
(** ** ImportEngine: the per-metric columns *)
(* ===================================================================== *)

Module Metrics.

Import ExcelParse ImportEngine.

Inductive MetricId : Type :=
| total | chinese | math | english | physics | chemistry | biology
| history | geography | politics | classRank | schoolRank.

Definition metricEqb (a b : MetricId) : bool :=
  match a, b with
  | total, total | chinese, chinese | math, math | english, english
  | physics, physics | chemistry, chemistry | biology, biology
  | history, history | geography, geography | politics, politics
  | classRank, classRank | schoolRank, schoolRank => true
  | _, _ => false
  end.

(** [MetricCols]: a missing property is [None]. *)
Definition MetricCols : Type := MetricId -> option (list N).

Definition noMetrics : MetricCols := fun _ => None.

Definition setMetric (mc : MetricCols) (m : MetricId) (k : list N)
  : MetricCols :=
  fun m' => if metricEqb m' m then Some k else mc m'.

(** [!metricCols.m]: the property is missing or the empty string. *)
Definition unset (mc : MetricCols) (m : MetricId) : bool :=
  negb (nonEmpty (default [] (mc m))).

(** The characters the local [norm] of [detectMetricCols] deletes. *)
Definition isPunct (c : N) : bool :=
  existsb (N.eqb c)
    [65288; 65289; 40; 41; 12304; 12305; 91; 93; 95; 45; 8212; 183; 46;
     12290; 58; 65306; 47; 92]%N.

Definition normMetric (s : list N) : list N :=
  List.filter (fun c => negb (isPunct c))
              (removeSpaces (toLowerCase (trim s))).

Definition has (h : list N) (kw : string) : bool :=
  includes h (normMetric (js kw)).

Definition hasRankWord (h : list N) : bool :=
  has h "排名" || has h "名次" || has h "排".

Definition isSchoolRank (h : list N) : bool :=
  (has h "年级" || has h "学校" || has h "校" || has h "级")
  && hasRankWord h && negb (has h "班").

Definition isClassRank (h : list N) : bool :=
  has h "班" && hasRankWord h
  && negb (has h "年级") && negb (has h "学校") && negb (has h "校").

(** The test of each metric, in the order the loop body tries them. *)
Definition metricTest (m : MetricId) (h : list N) : bool :=
  match m with
  | schoolRank => isSchoolRank h
  | classRank => isClassRank h
  | total => has h "总分" || has h "总分得分" || has h "总分原始"
  | chinese => has h "语文"
  | math => has h "数学"
  | english => has h "英语"
  | physics => has h "物理"
  | chemistry => has h "化学"
  | biology => has h "生物"
  | politics => has h "政治"
  | history => has h "历史"
  | geography => has h "地理"
  end.

Definition METRIC_CHAIN : list MetricId :=
  [schoolRank; classRank; total; chinese; math; english; physics; chemistry;
   biology; politics; history; geography].

(** One column: the first metric of the chain that is still unset and
    whose test the header passes takes the column's key ([continue]). *)
Definition metricStep (mc : MetricCols) (c : ParsedColumn) : MetricCols :=
  let h := normMetric (label c) in
  match List.find (fun m => unset mc m && metricTest m h) METRIC_CHAIN with
  | Some m => setMetric mc m (key c)
  | None => mc
  end.

Definition detectMetricCols (cols : list ParsedColumn) : MetricCols :=
  foldl metricStep noMetrics cols.

(** The [metricCols] field [importFiles] stores:
    [{ ...metricCols0, total: metricCols0.total || totalCol }]. *)
Definition importMetricCols (rows : list Row) (cols : list ParsedColumn)
  : MetricCols :=
  let mc0 := detectMetricCols cols in
  let t0 := default [] (mc0 total) in
  setMetric mc0 total (if nonEmpty t0 then t0 else guessTotalCol rows cols).

End Metrics.

(* ===================================================================== *)
(** ** App: the status of an imported sheet *)
(* ===================================================================== *)

Module App.

Import ExcelParse ImportEngine.

Inductive ExamStatus : Type := ok | warn | fail.

(** [hasUsableClassCol] *)
Definition hasUsableClassCol (ex : ExamConfig) : bool :=
  nonEmpty (classCol ex) &&
  existsb (fun r => nonEmpty (strTrim (getProp r (classCol ex))))
          (slice0 300 (rows ex)).

(** [getExamStatus]; [dup] is [duplicateCountByExamId?.get(ex.id) ?? 0]. *)
Definition getExamStatus (ex : ExamConfig) (dup : nat) : ExamStatus :=
  if 0 <? length (fatalErrors ex) then fail
  else if 0 <? dup then warn
  else if negb (nonEmpty (totalCol ex)) then warn
  else if 0 <? length (warnings ex) then warn
  else ok.

(** The number of names that occur at least twice in the name column:
    [dups.length] of the duplicate-name check. *)
Definition seenCounts (nameCol : list N) (rows : list Row)
  : list (list N * nat) :=
  foldl (fun seen r =>
           let name := strTrim (getProp r nameCol) in
           if nonEmpty name then voteAdd name seen else seen)
        [] rows.

Definition duplicateNames (nameCol : list N) (rows : list Row)
  : list (list N) :=
  map fst (List.filter (fun p => 2 <=? snd p) (seenCounts nameCol rows)).

End App.


(* ===================================================================== *)
(** ** Specification-level notions and loop invariants *)
(* ===================================================================== *)

Import ExcelParse ImportEngine.

Definition headerScan (matrix : list (list Cell)) (n : nat) : nat * Z :=
  foldl (headerStep matrix) (0, (-1)%Z) (seq 0 n).

Definition candidateAt (matrix : list (list Cell)) (r : nat) : bool :=
  isCandidate (getRow matrix r).

Definition scoreAt (matrix : list (list Cell)) (r : nat) : Z :=
  rowScore (getRow matrix r).

(** The scan invariant: either no candidate was met and the state is the
    initial one, or the state is the earliest candidate of maximal score. *)
Definition scanInv (matrix : list (list Cell)) (n : nat) (st : nat * Z) : Prop :=
  ((forall r, r < n -> candidateAt matrix r = false) /\ st = (0, (-1)%Z))
  \/ (fst st < n /\ candidateAt matrix (fst st) = true
      /\ snd st = scoreAt matrix (fst st)
      /\ (forall r, r < n -> candidateAt matrix r = true ->
                    (scoreAt matrix r <= snd st)%Z)
      /\ (forall r, r < fst st -> candidateAt matrix r = true ->
                    (scoreAt matrix r < snd st)%Z)).

(** The non-empty trimmed values of a column, in row order. *)
Definition columnValues (k : list N) (rows : list Row) : list (list N) :=
  List.filter nonEmpty (map (fun r => strTrim (getProp r k)) rows).

Definition hardExcluded (c : ParsedColumn) : bool :=
  let h := normalizeHeader (label c) in totalRankLike h || totalMetaLike h.

Definition largeOrEmpty (v : Cell) : bool :=
  isEmptyCell v ||
  match toNumber v with
  | Some n => Qle_bool 100000 n
  | None => false
  end.

Definition largeIntegerColumn (rows : list Row) (k : list N) : bool :=
  forallb (fun r => largeOrEmpty (getProp r k)) (slice0 450 rows).

Definition emptyColumn (rows : list Row) (k : list N) : bool :=
  forallb (fun r => isEmptyCell (getProp r k)) (slice0 450 rows).

(** The scan of [guessTotalCol] keeps the first column of maximal score;
    before any column is taken the state is the initial one. *)
Definition totalInv (rows : list Row) (seenCols : list ParsedColumn)
    (st : list N * Q) : Prop :=
  (st = ([], (-1000000000)%Q)
   /\ forall c, c ∈ seenCols -> (scoreTotal rows c <= -1000000000)%Q)
  \/ (exists c, c ∈ seenCols /\ st = (key c, scoreTotal rows c)
      /\ forall c', c' ∈ seenCols -> (scoreTotal rows c' <= scoreTotal rows c)%Q).

(** The first column of maximal name score. *)
Definition firstMax (rows : list Row) (cols : list ParsedColumn)
    (c : ParsedColumn) : Prop :=
  exists pre post, cols = pre ++ c :: post
    /\ (forall c', c' ∈ pre -> (scoreName rows c' < scoreName rows c)%Q)
    /\ (forall c', c' ∈ post -> (scoreName rows c' <= scoreName rows c)%Q).

(** A block as the parser builds it. *)
Definition wfBlock (b : ParsedBlock) : Prop :=
  3 <= length (columns b)
  /\ Forall (fun c => nonEmpty (key c) = true) (columns b).

(** Specification-level reading of the vote: the classes known for a name,
    the sampled names that contribute, the votes a class receives. *)
Definition knownClasses (idx : ClassInferenceResult) (n : list N)
  : list (list N) :=
  default [] (nameToClasses idx !! n).

Definition contributes (idx : ClassInferenceResult) (n : list N) : bool :=
  match knownClasses idx n with [] => false | _ => true end.

Definition contributors (idx : ClassInferenceResult) (names : list (list N))
  : list (list N) :=
  List.filter (contributes idx) names.

Definition votesFor (idx : ClassInferenceResult) (names : list (list N))
    (c : list N) : nat :=
  length (List.filter (fun n => bool_decide (c ∈ knownClasses idx n)) names).

Definition wfIndex (idx : ClassInferenceResult) : Prop :=
  forall n cs, nameToClasses idx !! n = Some cs -> NoDup cs.

(** The names [inferSheetClass] votes with. *)
Definition votingSample (ex : ExamConfig) : list (list N) :=
  if nonEmpty (nameCol ex) then sampleNames 6 (nameCol ex) (rows ex) [] else [].

Fixpoint voteGet (vote : list (list N * nat)) (c : list N) : nat :=
  match vote with
  | [] => 0
  | (c', v) :: vote' => if JsString.eqb c' c then v else voteGet vote' c
  end.

Definition votePos (vote : list (list N * nat)) : Prop :=
  Forall (fun p => 0 < snd p) vote.

(** The rule applied once the contributors and the best class are known. *)
Definition classRule (rowCount hit bestV : nat) (bestC : list N) : list N :=
  let ratio := frac bestV hit in
  if (150 <=? rowCount) && Qltb ratio (85 # 100) then SCHOOL
  else if Qle_bool (7 # 10) ratio then bestC
  else UNKNOWN.

(** [matrix[r]?.[c]] *)
Definition cellAt (matrix : list (list Cell)) (r c : nat) : Cell :=
  getIdx (getRow matrix r) c.

Definition topLeft (ws : WorkSheet) (m : Range) : Cell :=
  getCellValueMerged ws (s_r m) (s_c m).

(** The range [m] writes to cell [(r, c)] if that cell is empty. *)
Definition fills (ws : WorkSheet) (maxRows : nat) (m : Range) (r c : nat)
  : bool :=
  (s_r m <? maxRows) && negb (isEmptyCell (topLeft ws m))
  && covers m r c && (r <? maxRows).

Definition firstFill (ws : WorkSheet) (maxRows : nat) (merges : list Range)
    (r c : nat) : option Cell :=
  topLeft ws <$> List.find (fun m => fills ws maxRows m r c) merges.

Definition inCols (m : Range) (c : nat) : bool :=
  (s_c m <=? c) && (c <=? e_c m).

(* ===================================================================== *)
(** ** Concrete sheets used in the examples *)
(* ===================================================================== *)

Definition txt (s : string) : Cell := CStr (js s).

(** A header builder that reads the first row of the view as the labels
    of a one-row header: what [buildHeaders] returns when the first row has
    no blank cell and the second row reads as data, as in the grids
    below. *)
Definition firstRowHeaders (view : list (list Cell)) : list (list N) * nat :=
  (map strTrim (getRow view 0), 1).

Definition sheetOf (matrix : list (list Cell)) : Sheet :=
  {| sheet_ws := {| ws_cells := ∅; ws_merges := [] |}; sheet_matrix := matrix |}.

Definition fileOf (matrix : list (list Cell)) : File :=
  {| file_name := js "scores.xlsx";
     file_sheets := [(js "期中", sheetOf matrix)] |}.

(** Eleven named rows, one of which carries a class. *)
Definition sparseClassGrid : list (list Cell) :=
  [txt "姓名"; txt "班级"; txt "总分"]
  :: [txt "张三"; txt "1班"; CNum 500]
  :: replicate 10 [txt "李四"; CNull; CNum 480].

(** Two columns whose header reads as a name. *)
Definition dupNameGrid : list (list Cell) :=
  [ [txt "姓名"; txt "学生姓名"; txt "总分"];
    [txt "张三"; txt "张三"; CNum 500] ].

(** Small student ids, no total column. *)
Definition smallIdGrid : list (list Cell) :=
  [ [txt "学号"; txt "姓名"; txt "班级"];
    [CNum 17; txt "张三"; txt "1班"];
    [CNum 18; txt "李四"; txt "1班"] ].

Definition studentIdCol : ParsedColumn :=
  {| key := js "学号__0"; label := js "学号（A列）"; colIndex := 0 |}.

Definition emptyTotalCol : ParsedColumn :=
  {| key := js "总分__1"; label := js "总分（B列）"; colIndex := 1 |}.

Definition smallIdRows : list Row := [ {[ js "学号__0" := CNum 17 ]} ].

Definition largeIdRows : list Row :=
  [ {[ js "学号__0" := CNum 20230001 ]}; {[ js "学号__0" := CNum 20230002 ]} ].

Definition dupRows : list Row :=
  [ {[ js "姓名__0" := txt "张三" ]}; {[ js "姓名__0" := txt "张三" ]};
    {[ js "姓名__0" := txt "李四" ]} ].

Definition titleOnlyGrid : list (list Cell) := [ [txt "2023学年期末成绩"] ].

Definition titledGrid : list (list Cell) :=
  [ [txt "2023学年期末成绩"];
    [];
    [txt "姓名"; txt "班级"; txt "总分"; txt "语文"];
    [txt "张三"; CNum 3; CNum 500; CNum 100] ].

(** A title, a blank row, a header row and a denser second header row. *)
Definition twoHeaderGrid : list (list Cell) :=
  [ [txt "2023学年期末成绩"];
    [];
    [txt "姓名"; txt "班级"; txt "总分"];
    [txt "姓名"; txt "班级"; txt "总分"; txt "语文"; txt "数学"] ].

Definition noMergeSheet : WorkSheet := {| ws_cells := ∅; ws_merges := [] |}.

Definition mergedSheet : WorkSheet :=
  {| ws_cells := {[ (0, 0) := txt "成绩" ]};
     ws_merges := [ {| s_r := 0; s_c := 0; e_r := 1; e_c := 2 |} ] |}.

Definition mergedGrid : list (list Cell) :=
  [ [txt "成绩"]; [CUndef; txt "语文"] ].

Definition blankExam : ExamConfig :=
  {| examId := js "scores.xlsx::期中"; fileName := js "scores.xlsx";
     sheetName := js "期中"; examName := js "期中";
     blocks := []; blockId := js "block-1"; cols := []; rows := [];
     idCol := []; nameCol := []; classCol := []; totalCol := [];
     inferredClass := []; overrideClass := [];
     fatalErrors := []; warnings := [] |}.

Definition withRows (ex : ExamConfig) (nameCol classCol : list N)
    (rows : list Row) : ExamConfig :=
  {| examId := examId ex; fileName := fileName ex; sheetName := sheetName ex;
     examName := examName ex; blocks := blocks ex; blockId := blockId ex;
     cols := cols ex; rows := rows; idCol := idCol ex;
     nameCol := nameCol; classCol := classCol; totalCol := totalCol ex;
     inferredClass := inferredClass ex; overrideClass := overrideClass ex;
     fatalErrors := fatalErrors ex; warnings := warnings ex |}.

Definition withOverride (ex : ExamConfig) (c : list N) : ExamConfig :=
  {| examId := examId ex; fileName := fileName ex; sheetName := sheetName ex;
     examName := examName ex; blocks := blocks ex; blockId := blockId ex;
     cols := cols ex; rows := rows ex; idCol := idCol ex;
     nameCol := nameCol ex; classCol := classCol ex; totalCol := totalCol ex;
     inferredClass := inferredClass ex; overrideClass := c;
     fatalErrors := fatalErrors ex; warnings := warnings ex |}.

Definition pupil (name cls : string) : Row :=
  {[ js "姓名__0" := txt name; js "班级__1" := txt cls ]}.

Definition nameOnly (name : string) : Row := {[ js "姓名__0" := txt name ]}.

(** A sheet with a class column: three pupils of class 1, one of class 2. *)
Definition rosterExam : ExamConfig :=
  withRows blankExam (js "姓名__0") (js "班级__1")
    [pupil "张三" "1班"; pupil "李四" "1班"; pupil "王五" "2班";
     pupil "赵六" "1班"].

Definition rosterIndex : ClassInferenceResult := buildClassIndex [rosterExam].

(** Sheets without a class column: votes [2,1] and [3,0]. *)
Definition splitVoteExam : ExamConfig :=
  withRows blankExam (js "姓名__0") []
    [nameOnly "张三"; nameOnly "李四"; nameOnly "王五"].

Definition clearVoteExam : ExamConfig :=
  withRows blankExam (js "姓名__0") []
    [nameOnly "张三"; nameOnly "李四"; nameOnly "赵六"].

(** Every row says class 5; the user override says 3. *)
Definition overriddenExam : ExamConfig :=
  withOverride
    (withRows blankExam (js "姓名__0") (js "班级__1")
       [pupil "张三" "5"; pupil "李四" "5"])
    (js "3").


(* ===================================================================== *)
(** ** Further specification-level notions and examples *)
(* ===================================================================== *)

Import Headers Metrics App.

(** [Number.isSafeInteger]: the integers a binary64 number holds exactly,
    which [String] writes digit by digit. *)
Definition safeInteger (z : Z) : bool := (Z.abs z <=? 9007199254740992)%Z.

(** The characters of a decimal numeral, well-formed or not. *)
Fixpoint uintChars (d : Decimal.uint) : list N :=
  match d with
  | Decimal.Nil => []
  | Decimal.D0 d => 48%N :: uintChars d
  | Decimal.D1 d => 49%N :: uintChars d
  | Decimal.D2 d => 50%N :: uintChars d
  | Decimal.D3 d => 51%N :: uintChars d
  | Decimal.D4 d => 52%N :: uintChars d
  | Decimal.D5 d => 53%N :: uintChars d
  | Decimal.D6 d => 54%N :: uintChars d
  | Decimal.D7 d => 55%N :: uintChars d
  | Decimal.D8 d => 56%N :: uintChars d
  | Decimal.D9 d => 57%N :: uintChars d
  end.

(** Reading column letters back: bijective base 26, [A] = 1. *)
Definition decodeCol (s : list N) : nat :=
  foldl (fun acc ch => 26 * acc + (N.to_nat ch - 64)) 0 s.

(** The number a key ends with: its trailing run of digits. *)
Definition keyIndex (k : list N) : Z :=
  digitsVal 0 (rev (fst (spanDigits (rev k)))).

(** A view row has a value in one of the block's columns. *)
Definition rowHasValue (cols : list ParsedColumn) (row : list Cell) : bool :=
  existsb (fun c => negb (isEmptyCell (getIdx row (colIndex c)))) cols.

(** The row object [r] holds the cells of the view row [row]. *)
Definition rowOf (cols : list ParsedColumn) (row : list Cell) (r : Row) : Prop :=
  forall c, c ∈ cols -> getProp r (key c) = getIdx row (colIndex c).

(** A maximal run of columns free of separators, within [W] columns. *)
Definition maxRun (cuts : list nat) (W s e : nat) : Prop :=
  s <= e /\ e < W
  /\ (forall c, s <= c <= e -> c ∉ cuts)
  /\ (s = 0 \/ s - 1 ∈ cuts)
  /\ (e + 1 = W \/ e + 1 ∈ cuts).

(** The state of the splitting loop at column [c]. *)
Definition splitInv (cuts : list nat) (W c start : nat)
    (ranges : list (nat * nat)) : Prop :=
  start <= c <= W
  /\ (forall x, start <= x < c -> x ∉ cuts)
  /\ (start = 0 \/ start - 1 ∈ cuts)
  /\ (forall s e, (s, e) ∈ ranges <-> maxRun cuts W s e /\ e < start)
  /\ StronglySorted (fun a b => snd a < fst b) ranges.

(** A string with a character that is not white space. *)
Definition hasInk (s : list N) : bool := existsb (fun c => negb (isWhite c)) s.

(** The text [fillForward] leaves in each cell: the trimmed text of the
    nearest non-empty cell at or before it. *)
Fixpoint carried (last : list N) (arr : list Cell) : list (list N) :=
  match arr with
  | [] => []
  | v :: arr' =>
      let s := strTrim v in
      let l := if nonEmpty s then s else last in
      l :: carried l arr'
  end.

(** The column passes the test of the metric. *)
Definition passes (m : MetricId) (c : ParsedColumn) : bool :=
  metricTest m (normMetric (label c)).

(** The metric holds a non-empty key. *)
Definition isSet (mc : MetricCols) (m : MetricId) : bool := negb (unset mc m).

(** Row [r] of a sheet with class data puts name [n] in class [c]. *)
Definition indexed (exams : list ExamConfig) (n c : list N) : Prop :=
  exists ex r, ex ∈ exams /\ hasClassData ex = true
    /\ nonEmpty (nameCol ex) = true /\ r ∈ rows ex
    /\ strTrim (getProp r (nameCol ex)) = n /\ nonEmpty n = true
    /\ strTrim (getProp r (classCol ex)) = c /\ nonEmpty c = true.

(** The (name, class) pairs [buildClassIndex] reads, in reading order. *)
Definition rowEntry (nameCol classCol : list N) (r : Row)
  : option (list N * list N) :=
  let name := strTrim (getProp r nameCol) in
  let cls := strTrim (getProp r classCol) in
  if negb (nonEmpty name) || negb (nonEmpty cls) then None else Some (name, cls).

Definition examEntries (ex : ExamConfig) : list (list N * list N) :=
  if negb (hasClassData ex) || negb (nonEmpty (classCol ex))
     || negb (nonEmpty (nameCol ex))
  then [] else omap (rowEntry (nameCol ex) (classCol ex)) (rows ex).

Definition indexEntries (exams : list ExamConfig) : list (list N * list N) :=
  concat (map examEntries exams).

Definition indexPair (st : list (list N) * gmap (list N) (list (list N)))
    (p : list N * list N) : list (list N) * gmap (list N) (list (list N)) :=
  (setAdd (snd p) (fst st),
   <[fst p := setAdd (snd p) (default [] (snd st !! fst p))]> (snd st)).

Definition strLeP (a b : list N) : Prop := strLe a b = true.

(** [x] is the first element of [l] of maximal score. *)
Definition firstBest {A} (score : A -> Q) (l : list A) (x : A) : Prop :=
  exists pre post, l = pre ++ x :: post
    /\ (forall y, y ∈ pre -> (score y < score x)%Q)
    /\ (forall y, y ∈ post -> (score y <= score x)%Q).

(** A block with a column and a row. *)
Definition populated (b : ParsedBlock) : bool :=
  negb (length (columns b) =? 0) && negb (length (ExcelParse.rows b) =? 0).

(** The two passes of [guessClassCol] and the test of [guessIdCol], on a
    column. *)
Definition classExact (c : ParsedColumn) : bool :=
  let h := normalizeHeader (label c) in
  negb (classRankLike h) &&
  existsb (JsString.eqb h)
          (map js ["班级"; "班级号"; "行政班"; "班号"; "班别"; "班级编号"]%string).

Definition classLoose (c : ParsedColumn) : bool :=
  let h := normalizeHeader (label c) in
  negb (classRankLike h) &&
  (includes h (js "班级号") || includes h (js "行政班")
   || includes h (js "班号") || JsString.eqb h (js "班级")
   || includes h (js "班级")).

Definition idLike (c : ParsedColumn) : bool :=
  existsb (includes (normalizeHeader (label c)))
          (map js ["学生id"; "学号"; "studentid"; "student_id"; "id"]%string).

(** [x] is the first element of [l] that passes [p]. *)
Definition firstWith {A} (p : A -> bool) (l : list A) (x : A) : Prop :=
  exists pre post, l = pre ++ x :: post /\ p x = true
    /\ forall y, y ∈ pre -> p y = false.

(** The number of rows whose trimmed name is [n]. *)
Definition occurrences (nameCol : list N) (rows : list Row) (n : list N) : nat :=
  length (List.filter (fun r => bool_decide (strTrim (getProp r nameCol) = n)) rows).

(** A class roster and a later sheet of the same pupils without a class
    column, in one workbook. *)
Definition rosterGrid : list (list Cell) :=
  [ [txt "姓名"; txt "班级"; txt "总分"];
    [txt "张三"; txt "1班"; CNum 500];
    [txt "李四"; txt "1班"; CNum 480];
    [txt "王五"; txt "1班"; CNum 470] ].

Definition noClassGrid : list (list Cell) :=
  [ [txt "姓名"; txt "语文"; txt "总分"];
    [txt "张三"; CNum 100; CNum 510];
    [txt "李四"; CNum 90; CNum 490];
    [txt "王五"; CNum 95; CNum 460] ].

Definition twoSheetFile : File :=
  {| file_name := js "scores.xlsx";
     file_sheets := [(js "期中", sheetOf rosterGrid);
                     (js " 说明 ", sheetOf rosterGrid);
                     (js "期末", sheetOf noClassGrid)] |}.

(** A class column without any value, and an inferred class. *)
Definition emptyClassExam : ExamConfig :=
  setInferredClass
    (withRows blankExam (js "姓名__0") (js "班级__1")
       [nameOnly "张三"; nameOnly "李四"])
    (js "1班").

Definition blankBlock : ParsedBlock :=
  {| ExcelParse.blockId := []; rangeLabel := []; columns := [];
     ExcelParse.rows := [];
     meta := {| startCol := 0; endCol := 0; headerStartRow := 0;
                headerRowsUsed := 0 |} |}.

Definition rosterHeaders : list (list N) := [js "姓名"; js "班级"; js "总分"].


(** Large student ids, an empty total column and a subject column. *)
Definition subjectGrid : list (list Cell) :=
  [ [txt "学号"; txt "姓名"; txt "总分"; txt "语文"];
    [CNum 20230001; txt "张三"; CStr []; CNum 95];
    [CNum 20230002; txt "李四"; CStr []; CNum 88] ].

Definition subjectCol : ParsedColumn :=
  {| key := js "语文__3"; label := js "语文（D列）"; colIndex := 3 |}.

Definition emptyTotalCol2 : ParsedColumn :=
  {| key := js "总分__2"; label := js "总分（C列）"; colIndex := 2 |}.


(* ===================================================================== *)
(** ** Lemmas *)
(* ===================================================================== *)

(** *** The fuelled loops have fuel to spare *)

Lemma colLetterLoop_fuel fuel x s :
  x <= fuel -> colLetterLoop fuel x s = colLetterLoop x x s.
Proof.
  revert fuel s. induction x as [x IH] using lt_wf_ind. intros fuel s Hle.
  destruct x as [|x].
  - destruct fuel; reflexivity.
  - destruct fuel as [|fuel]; [lia|]. cbn [colLetterLoop].
    replace (0 <? S x) with true by (symmetry; apply Nat.ltb_lt; lia).
    assert (Hdiv : (S x - 1) / 26 <= x).
    { replace (S x - 1) with x by lia. apply Nat.Div0.div_le_upper_bound. lia. }
    rewrite (IH ((S x - 1) / 26) ltac:(lia) fuel) by lia.
    rewrite (IH ((S x - 1) / 26) ltac:(lia) x) by lia. reflexivity.
Qed.

Lemma skipCuts_range cuts W fuel c : c <= skipCuts cuts W fuel c.
Proof.
  revert c. induction fuel as [|f IH]; intros c; simpl; [lia|].
  destruct (_ && _); [|lia]. specialize (IH (S c)). lia.
Qed.

Lemma skipCuts_step cuts W fuel c :
  c < W -> c ∈ cuts -> 0 < fuel -> c < skipCuts cuts W fuel c.
Proof.
  intros Hc Hin Hf. destruct fuel as [|f]; [lia|]. simpl.
  replace (c <? W) with true by (symmetry; by apply Nat.ltb_lt).
  rewrite bool_decide_eq_true_2 by done. simpl.
  pose proof (skipCuts_range cuts W f (S c)). lia.
Qed.

Lemma skipCuts_fuel cuts W fuel c :
  W - c <= fuel -> skipCuts cuts W fuel c = skipCuts cuts W (W - c) c.
Proof.
  revert c. induction fuel as [|f IH]; intros c Hle.
  - replace (W - c) with 0 by lia. reflexivity.
  - simpl. destruct (Nat.ltb_spec c W) as [Hlt|Hge]; simpl.
    + destruct (W - c) as [|k] eqn:E; [lia|]. simpl.
      replace (c <? W) with true by (symmetry; by apply Nat.ltb_lt). simpl.
      destruct (bool_decide (c ∈ cuts)); [|done].
      rewrite IH by lia. f_equal. lia.
    + replace (W - c) with 0 by lia. reflexivity.
Qed.

(** Extra fuel does not change the outcome of the splitting loop: [W - c]
    turns are enough from column [c]. *)
Lemma splitLoop_fuel cuts W fuel c start ranges :
  W - c <= fuel ->
  splitLoop cuts W fuel c start ranges = splitLoop cuts W (W - c) c start ranges.
Proof.
  revert c start ranges. induction fuel as [fuel IH] using lt_wf_ind.
  intros c start ranges Hle.
  destruct (Nat.ltb_spec c W) as [Hlt|Hge].
  - destruct fuel as [|f]; [lia|]. destruct (W - c) as [|k] eqn:E; [lia|].
    cbn [splitLoop]. replace (c <? W) with true by (symmetry; by apply Nat.ltb_lt).
    destruct (bool_decide (c ∈ cuts)) eqn:D.
    + apply bool_decide_eq_true in D.
      replace (W - c) with (S k) by lia.
      pose proof (skipCuts_step cuts W (S k) c Hlt D ltac:(lia)) as Hs.
      set (c' := skipCuts cuts W (S k) c) in *.
      rewrite (IH f ltac:(lia) c') by lia.
      rewrite (IH k ltac:(lia) c') by lia. reflexivity.
    + rewrite (IH f ltac:(lia) (S c)) by lia.
      rewrite (IH k ltac:(lia) (S c)) by lia. reflexivity.
  - replace (W - c) with 0 by lia. destruct fuel; [reflexivity|].
    cbn [splitLoop]. replace (c <? W) with false by (symmetry; by apply Nat.ltb_ge).
    reflexivity.
Qed.

(** *** Scans, counts and fills *)

Lemma rowScore_nonneg row : (0 <= rowScore row)%Z.
Proof. unfold rowScore. destruct (hasKeyword row); lia. Qed.

Lemma headerStep_candidate matrix st r :
  headerStep matrix st r =
    if candidateAt matrix r && (snd st <? scoreAt matrix r)%Z
    then (r, scoreAt matrix r) else st.
Proof.
  destruct st as [b s]. unfold headerStep, candidateAt, scoreAt, isCandidate.
  simpl. destruct (looksLikeTitle _); simpl; [done|].
  destruct (_ && negb _); simpl; [done|]. done.
Qed.

Lemma headerScan_S matrix n :
  headerScan matrix (S n) = headerStep matrix (headerScan matrix n) n.
Proof. unfold headerScan. rewrite seq_S, foldl_app. done. Qed.

Lemma headerScan_inv matrix n : scanInv matrix n (headerScan matrix n).
Proof.
  induction n as [|n IH].
  - left. split; [lia | done].
  - rewrite headerScan_S, headerStep_candidate.
    destruct (candidateAt matrix n) eqn:Hc; simpl.
    + destruct IH as [[Hnone ->] | (Hlt & Hcb & Hs & Hmax & Hfirst)]; simpl.
      * pose proof (rowScore_nonneg (getRow matrix n)) as Hn.
        fold (scoreAt matrix n) in Hn.
        destruct (Z.ltb_spec (-1) (scoreAt matrix n)) as [_|?]; [|lia].
        right. simpl. repeat split; [lia | done | |].
        -- intros r Hr Hcr. assert (r = n \/ r < n) as [->|Hr'] by lia; [lia|].
           rewrite Hnone in Hcr by done. done.
        -- intros r Hr Hcr. rewrite Hnone in Hcr by done. done.
      * destruct (Z.ltb_spec (snd (headerScan matrix n)) (scoreAt matrix n)).
        -- right. simpl. repeat split; [lia | done | |].
           ++ intros r Hr Hcr. assert (r = n \/ r < n) as [->|Hr'] by lia; [lia|].
              specialize (Hmax r Hr' Hcr). lia.
           ++ intros r Hr Hcr. specialize (Hmax r Hr Hcr). lia.
        -- right. repeat split; [lia | done | done | | done].
           intros r Hr Hcr. assert (r = n \/ r < n) as [->|Hr'] by lia; [lia|].
           by apply Hmax.
    + destruct IH as [[Hnone ->] | (Hlt & Hcb & Hs & Hmax & Hfirst)].
      * left. split; [|done]. intros r Hr.
        assert (r = n \/ r < n) as [->|Hr'] by lia; [done | by apply Hnone].
      * right. repeat split; [lia | done | done | | done].
        intros r Hr Hcr. assert (r = n \/ r < n) as [->|Hr'] by lia.
        -- congruence.
        -- by apply Hmax.
Qed.

Lemma sampleNames_acc cap k rows names :
  length names < cap ->
  sampleNames cap k rows names = take cap (names ++ columnValues k rows).
Proof.
  revert names. induction rows as [|r rows IH]; intros names Hlt; simpl.
  - unfold columnValues. simpl. rewrite app_nil_r, take_ge; [done | lia].
  - unfold columnValues. simpl.
    destruct (nonEmpty (strTrim (getProp r k))) eqn:Hne.
    + fold (columnValues k rows).
      destruct (Nat.leb_spec cap (length (names ++ [strTrim (getProp r k)]))) as [Hge|Hlt'].
      * rewrite length_app in Hge. simpl in Hge.
        replace (names ++ strTrim (getProp r k) :: columnValues k rows)
          with ((names ++ [strTrim (getProp r k)]) ++ columnValues k rows)
          by (by rewrite <- app_assoc).
        rewrite take_app_le by (rewrite length_app; simpl; lia).
        rewrite take_ge; [done | rewrite length_app; simpl; lia].
      * rewrite IH by done. by rewrite <- app_assoc.
    + fold (columnValues k rows). by apply IH.
Qed.

(** C6 (as the code has it): the names sampled for class voting are the
    first 6 (or fewer) non-empty trimmed values of the name column, in row
    order, a repeated name being kept as often as it occurs. *)
Theorem sampleNames_spec k rows :
  sampleNames 6 k rows [] = take 6 (columnValues k rows).
Proof. rewrite sampleNames_acc; [done | simpl; lia]. Qed.

(** A name the column repeats is sampled twice. *)
Lemma sampleNames_repeats :
  sampleNames 6 (js "姓名__0") dupRows [] = [js "张三"; js "张三"; js "李四"]
  /\ ~ NoDup (sampleNames 6 (js "姓名__0") dupRows []).
Proof.
  assert (H : sampleNames 6 (js "姓名__0") dupRows [] = [js "张三"; js "张三"; js "李四"])
    by (vm_compute; reflexivity).
  split; [exact H|]. rewrite H. intros Hnd. apply NoDup_cons in Hnd as [Hn _].
  apply Hn. left.
Qed.

(** The class sample of [getEffectiveClass]. *)
Lemma sampleClasses_raw k rows set :
  sampleClasses k rows set =
  match rows with
  | [] => set
  | r :: rows' =>
      let v := strTrim (getProp r k) in
      if nonEmpty v then
        let set' := setAdd v set in
        if 2 <=? length set' then set' else sampleClasses k rows' set'
      else sampleClasses k rows' set
  end.
Proof.
  destruct rows as [|r rows']; [done|]. simpl.
  unfold strTrim. destruct (getProp r k); simpl; try done.
Qed.

Lemma setAdd_same v : setAdd v [v] = [v].
Proof. unfold setAdd. rewrite bool_decide_eq_true_2; [done | by left]. Qed.

Lemma setAdd_nil v : setAdd v [] = [v].
Proof.
  unfold setAdd. rewrite bool_decide_eq_false_2; [done | apply not_elem_of_nil].
Qed.

Lemma setAdd_other v w : w <> v -> setAdd w [v] = [v; w].
Proof.
  intros Hne. unfold setAdd. rewrite bool_decide_eq_false_2; [done|].
  intros Hin. apply list_elem_of_singleton in Hin. done.
Qed.

(** With one value held, the scan keeps it while the column repeats it and
    reports two as soon as another value shows up. *)
Lemma sampleClasses_one k rows v :
  (Forall (fun x => x = v) (columnValues k rows)
   /\ sampleClasses k rows [v] = [v])
  \/ (exists w, w ∈ columnValues k rows /\ w <> v
      /\ sampleClasses k rows [v] = [v; w]).
Proof.
  induction rows as [|r rows IH]; rewrite sampleClasses_raw.
  - left. split; [constructor | done].
  - unfold columnValues. simpl.
    destruct (nonEmpty (strTrim (getProp r k))) eqn:Hne; simpl.
    + fold (columnValues k rows).
      destruct (decide (strTrim (getProp r k) = v)) as [->|Hd].
      * rewrite setAdd_same. simpl.
        destruct IH as [[Hall Hs] | (w & Hin & Hw & Hs)].
        -- left. split; [by constructor | done].
        -- right. exists w. split; [by right | done].
      * rewrite setAdd_other by done. simpl. right.
        exists (strTrim (getProp r k)). split; [by left | done].
    + fold (columnValues k rows). exact IH.
Qed.

Lemma sampleClasses_empty k rows :
  (columnValues k rows = [] /\ sampleClasses k rows [] = [])
  \/ (exists v, v ∈ columnValues k rows
      /\ Forall (fun x => x = v) (columnValues k rows)
      /\ sampleClasses k rows [] = [v])
  \/ (exists v w, v ∈ columnValues k rows /\ w ∈ columnValues k rows
      /\ w <> v /\ sampleClasses k rows [] = [v; w]).
Proof.
  induction rows as [|r rows IH]; rewrite sampleClasses_raw.
  - left. done.
  - unfold columnValues. simpl.
    destruct (nonEmpty (strTrim (getProp r k))) eqn:Hne; simpl.
    + fold (columnValues k rows). rewrite setAdd_nil. simpl.
      destruct (sampleClasses_one k rows (strTrim (getProp r k)))
        as [[Hall Hs] | (w & Hin & Hw & Hs)].
      * right. left. eexists. split; [by left|]. split; [by constructor | done].
      * right. right. exists (strTrim (getProp r k)), w.
        split; [by left|]. split; [by right | done].
    + fold (columnValues k rows). exact IH.
Qed.

(** C7: [getEffectiveClass] returns the trimmed override when it is not
    empty; otherwise, with a class column, the non-empty values of the
    first 300 rows decide (none: unknown, all equal: that value, two
    different: school-wide); otherwise the inferred class, or unknown when
    that is empty.  An override of 3 always resolves to 3. *)
Theorem getEffectiveClass_precedence (ex : ExamConfig) :
  let c := trim (overrideClass ex) in
  let vals := columnValues (classCol ex) (take 300 (rows ex)) in
  (nonEmpty c = true -> getEffectiveClass ex = c)
  /\ (nonEmpty c = false -> nonEmpty (classCol ex) = true ->
      (vals = [] -> getEffectiveClass ex = UNKNOWN)
      /\ (forall v, v ∈ vals -> Forall (fun x => x = v) vals ->
                    getEffectiveClass ex = v)
      /\ (forall v w, v ∈ vals -> w ∈ vals -> v <> w ->
                      getEffectiveClass ex = SCHOOL))
  /\ (nonEmpty c = false -> nonEmpty (classCol ex) = false ->
      getEffectiveClass ex =
        if nonEmpty (inferredClass ex) then inferredClass ex else UNKNOWN)
  /\ (overrideClass ex = js "3" -> getEffectiveClass ex = js "3").
Proof.
  intros c vals. unfold getEffectiveClass. fold c.
  split; [intros ->; done|]. split; [|split].
  - intros -> ->. unfold slice0. subst vals.
    destruct (sampleClasses_empty (classCol ex) (take 300 (rows ex)))
      as [[Hv Hs] | [(v & Hin & Hall & Hs) | (v & w & Hv & Hw & Hne & Hs)]];
      rewrite Hs.
    + split; [done|]. split.
      * intros v Hin. rewrite Hv in Hin. by apply not_elem_of_nil in Hin.
      * intros v w Hin. rewrite Hv in Hin. by apply not_elem_of_nil in Hin.
    + split; [intros Hv; rewrite Hv in Hin; by apply not_elem_of_nil in Hin|].
      split.
      * intros v' Hin' Hall'. rewrite Forall_forall in Hall'.
        by apply Hall'.
      * intros v' w' Hv' Hw' Hne. rewrite Forall_forall in Hall.
        rewrite (Hall v' Hv'), (Hall w' Hw') in Hne. done.
    + split; [intros Hnil; rewrite Hnil in Hv; by apply not_elem_of_nil in Hv|].
      split; [|done].
      intros v' Hin' Hall'. rewrite Forall_forall in Hall'.
      rewrite (Hall' v Hv), (Hall' w Hw) in Hne. done.
  - intros -> ->. done.
  - intros Ho. subst c. rewrite Ho. vm_compute. done.
Qed.

Lemma Qltb_true a b : Qltb a b = true <-> (a < b)%Q.
Proof.
  unfold Qltb. rewrite negb_true_iff. split.
  - intros H. apply Qnot_le_lt. intros Hle. apply Qle_bool_iff in Hle. congruence.
  - intros H. destruct (Qle_bool b a) eqn:E; [|done].
    apply Qle_bool_iff in E. apply Qlt_not_le in H. done.
Qed.

Lemma Qltb_false a b : Qltb a b = false <-> (b <= a)%Q.
Proof.
  unfold Qltb. rewrite negb_false_iff. apply Qle_bool_iff.
Qed.

Lemma frac_nonneg a b : (0 <= frac a b)%Q.
Proof.
  unfold frac. destruct b as [|b].
  - unfold Qdiv. simpl. unfold Qinv. simpl. rewrite Qmult_0_r. apply Qle_refl.
  - apply Qle_shift_div_l.
    + unfold Qlt. simpl. lia.
    + rewrite Qmult_0_l. unfold Qle. simpl. lia.
Qed.

Lemma frac_same a : 0 < a -> (frac a a == 1)%Q.
Proof.
  intros H. unfold frac. apply Qmult_inv_r.
  intros E. unfold Qeq in E. simpl in E. lia.
Qed.

Lemma frac_zero b : (frac 0 b == 0)%Q.
Proof. unfold frac. unfold Qdiv. simpl. apply Qmult_0_l. Qed.

Lemma scoreTotal_hard rows c :
  hardExcluded c = true -> scoreTotal rows c = (-9999)%Q.
Proof.
  unfold hardExcluded, scoreTotal. intros H.
  destruct (totalRankLike _); [done|]. simpl in H. rewrite H. done.
Qed.

Lemma totalScan_inv rows cols : totalInv rows cols (totalScan rows cols).
Proof.
  unfold totalScan.
  induction cols as [|c cols IH] using rev_ind.
  - left. split; [done|]. intros c Hc. by apply not_elem_of_nil in Hc.
  - rewrite foldl_app. simpl.
    destruct (foldl _ _ cols) as [best bestScore].
    destruct (Qltb bestScore (scoreTotal rows c)) eqn:Hlt.
    + apply Qltb_true in Hlt. right. exists c.
      split; [apply elem_of_app; right; by left|]. split; [done|].
      intros c' Hc'. apply elem_of_app in Hc' as [Hc'|Hc'].
      * destruct IH as [[E Hall] | (c0 & Hin & E & Hmax)]; inversion E; subst.
        -- specialize (Hall c' Hc'). lra.
        -- specialize (Hmax c' Hc'). lra.
      * apply list_elem_of_singleton in Hc' as ->. lra.
    + apply Qltb_false in Hlt.
      destruct IH as [[E Hall] | (c0 & Hin & E & Hmax)]; inversion E; subst.
      * left. split; [done|]. intros c' Hc'.
        apply elem_of_app in Hc' as [Hc'|Hc']; [by apply Hall|].
        apply list_elem_of_singleton in Hc' as ->. done.
      * right. exists c0. split; [apply elem_of_app; by left|]. split; [done|].
        intros c' Hc'. apply elem_of_app in Hc' as [Hc'|Hc']; [by apply Hmax|].
        apply list_elem_of_singleton in Hc' as ->. done.
Qed.

Lemma guessTotalCol_chosen rows cols :
  nonEmpty (guessTotalCol rows cols) = true ->
  exists c, c ∈ cols /\ key c = guessTotalCol rows cols
            /\ (10 <= scoreTotal rows c)%Q
            /\ forall c', c' ∈ cols -> (scoreTotal rows c' <= scoreTotal rows c)%Q.
Proof.
  unfold guessTotalCol. pose proof (totalScan_inv rows cols) as Hinv.
  destruct (totalScan rows cols) as [best bestScore].
  destruct (Qltb bestScore 10) eqn:Hlt; [done|]. apply Qltb_false in Hlt.
  intros Hne. destruct Hinv as [[E _] | (c & Hin & E & Hmax)]; inversion E; subst.
  - done.
  - exists c. done.
Qed.

Lemma guessTotalCol_absent rows cols :
  (forall c, c ∈ cols -> (scoreTotal rows c < 10)%Q) ->
  guessTotalCol rows cols = [].
Proof.
  intros Hall. unfold guessTotalCol. pose proof (totalScan_inv rows cols) as Hinv.
  destruct (totalScan rows cols) as [best bestScore].
  destruct (Qltb bestScore 10) eqn:Hlt; [done|]. apply Qltb_false in Hlt.
  destruct Hinv as [[E _] | (c & Hin & E & Hmax)]; inversion E; subst.
  - done.
  - specialize (Hall c Hin). lra.
Qed.

Lemma NoDup_key_inj (cols : list ParsedColumn) c c' :
  NoDup (map key cols) -> c ∈ cols -> c' ∈ cols -> key c = key c' -> c = c'.
Proof.
  induction cols as [|x cols IH]; intros Hnd Hc Hc' Hk.
  - by apply not_elem_of_nil in Hc.
  - simpl in Hnd. apply NoDup_cons in Hnd as [Hx Hnd].
    apply elem_of_cons in Hc as [->|Hc]; apply elem_of_cons in Hc' as [->|Hc'].
    + done.
    + exfalso. apply Hx. rewrite Hk. by apply (list_elem_of_fmap_2 key).
    + exfalso. apply Hx. rewrite <- Hk. by apply (list_elem_of_fmap_2 key).
    + by apply IH.
Qed.

(** Counting over a column whose sampled values are all empty or at least
    100000: every seen value is numeric and very large, none is in range. *)
Lemma totalCounts_large k rows a :
  forallb (fun r => largeOrEmpty (getProp r k)) rows = true ->
  numeric a = seen a -> veryLarge a = seen a -> inRange a = 0 ->
  let b := foldl (totalCountStep k) a rows in
  numeric b = seen b /\ veryLarge b = seen b /\ inRange b = 0.
Proof.
  revert a. induction rows as [|r rows IH]; intros a Hall Hn Hv Hi; simpl.
  - done.
  - simpl in Hall. apply andb_true_iff in Hall as [Hr Hall].
    apply IH; [done | | |]; unfold totalCountStep, largeOrEmpty in *;
      destruct (isEmptyCell (getProp r k)); simpl in *; try done;
      destruct (toNumber (getProp r k)) as [n|]; try done; simpl;
      rewrite ?Hr; try lia.
    apply Qle_bool_iff in Hr.
    destruct (Qle_bool n 1200) eqn:E.
    + apply Qle_bool_iff in E. lra.
    + rewrite andb_false_r. done.
Qed.

Lemma scoreTotal_large rows c :
  largeIntegerColumn rows (key c) = true -> (scoreTotal rows c < 10)%Q.
Proof.
  intros Hl. unfold scoreTotal.
  destruct (totalRankLike _); [lra|]. destruct (totalMetaLike _); [lra|].
  unfold largeIntegerColumn in Hl.
  destruct (totalCounts_large (key c) (slice0 450 rows)
              {| seen := 0; numeric := 0; inRange := 0; veryLarge := 0 |}
              Hl eq_refl eq_refl eq_refl) as (Hn & Hv & Hi).
  fold (totalCounts rows (key c)) in Hn, Hv, Hi.
  rewrite Hn, Hv, Hi.
  destruct (Nat.ltb_spec 0 (seen (totalCounts rows (key c)))) as [Hpos|_].
  - rewrite (frac_same _ Hpos), frac_zero.
    destruct (existsb _ _); destruct (includes _ _); lra.
  - destruct (existsb _ _); destruct (includes _ _); lra.
Qed.

Lemma emptyColumn_large rows k :
  emptyColumn rows k = true -> largeIntegerColumn rows k = true.
Proof.
  unfold emptyColumn, largeIntegerColumn. rewrite !forallb_forall.
  intros H r Hr. unfold largeOrEmpty. rewrite (H r Hr). done.
Qed.

Lemma scoreName_nonneg rows c : (0 <= scoreName rows c)%Q.
Proof.
  unfold scoreName. destruct (nameCounts rows (key c)) as [seen hit].
  pose proof (frac_nonneg hit seen).
  destruct (isNameHeader _); destruct (0 <? seen); nra.
Qed.

Lemma nameScan_inv rows cols best0 :
  cols <> [] ->
  exists c, firstMax rows cols c /\ nameScan rows cols best0 = (key c, scoreName rows c).
Proof.
  unfold nameScan.
  induction cols as [|x cols IH] using rev_ind; [done|]. intros _.
  rewrite foldl_app. simpl.
  destruct cols as [|y cols'].
  - simpl. pose proof (scoreName_nonneg rows x) as Hx.
    assert (Qltb (-1) (scoreName rows x) = true) as -> by (apply Qltb_true; lra).
    exists x. split; [|done]. exists [], []. split; [done|].
    split; intros c' Hc'; by apply not_elem_of_nil in Hc'.
  - destruct IH as (c & (pre & post & Hsplit & Hpre & Hpost) & ->); [done|].
    destruct (Qltb (scoreName rows c) (scoreName rows x)) eqn:Hlt.
    + apply Qltb_true in Hlt. exists x. split; [|done].
      exists (y :: cols'), []. split; [done|]. split.
      * intros c' Hc'. rewrite Hsplit in Hc'.
        apply elem_of_app in Hc' as [Hc'|Hc'].
        -- specialize (Hpre c' Hc'). lra.
        -- apply elem_of_cons in Hc' as [->|Hc']; [done|].
           specialize (Hpost c' Hc'). lra.
      * intros c' Hc'. by apply not_elem_of_nil in Hc'.
    + apply Qltb_false in Hlt. exists c. split; [|done].
      exists pre, (post ++ [x]). split.
      * rewrite Hsplit. by rewrite <- app_assoc.
      * split; [done|]. intros c' Hc'.
        apply elem_of_app in Hc' as [Hc'|Hc']; [by apply Hpost|].
        apply list_elem_of_singleton in Hc' as ->. done.
Qed.

Lemma guessNameCol_firstMax rows cols :
  cols <> [] ->
  exists c, firstMax rows cols c /\ guessNameCol rows cols = key c.
Proof.
  intros Hne. unfold guessNameCol.
  match goal with |- context [nameScan rows cols ?b] => set (best0 := b) end.
  destruct (nameScan_inv rows cols best0 Hne) as (c & Hfm & Hs).
  exists c. split; [done|]. by rewrite Hs.
Qed.

Lemma firstMax_in rows cols c : firstMax rows cols c -> c ∈ cols.
Proof.
  intros (pre & post & -> & _). apply elem_of_app. right. by left.
Qed.

Lemma nonEmpty_infix (a b : list N) : nonEmpty (a ++ js "__" ++ b) = true.
Proof. destruct a; done. Qed.

Lemma makeColumn_key_nonEmpty headers c :
  nonEmpty (key (makeColumn headers c)) = true.
Proof. unfold makeColumn. cbn [key]. apply nonEmpty_infix. Qed.

Lemma splitBlocks_width view headers r :
  r ∈ splitBlocks view headers -> 3 <= snd r - fst r + 1.
Proof.
  unfold splitBlocks. destruct (splitLoop _ _ _ _ _ _) as [start ranges].
  intros Hin. apply list_elem_of_In, filter_In in Hin as [_ Hw].
  by apply Nat.leb_le in Hw.
Qed.

Lemma blocksOfView_wf view headers hsr hru b :
  b ∈ blocksOfView view headers hsr hru -> wfBlock b.
Proof.
  unfold blocksOfView. intros Hin.
  apply elem_of_lookup_imap in Hin as (i & r & -> & Hr).
  apply list_elem_of_lookup_2 in Hr. apply splitBlocks_width in Hr.
  split; simpl.
  - unfold makeUniqueColumns, fromTo. rewrite length_map, length_seq. lia.
  - unfold makeUniqueColumns. apply Forall_forall. intros c Hc.
    apply list_elem_of_fmap in Hc as (j & -> & _).
    apply makeColumn_key_nonEmpty.
Qed.

Lemma parseSheetToBlocks_wf buildHeaders sh b :
  b ∈ parseSheetToBlocks buildHeaders sh -> wfBlock b.
Proof.
  unfold parseSheetToBlocks. destruct (sheet_matrix sh) as [|row0 rest].
  - intros H. by apply not_elem_of_nil in H.
  - destruct (buildHeaders _) as [headers hru]. apply blocksOfView_wf.
Qed.

Lemma pickBestBlock_in b0 blocks :
  pickBestBlock b0 blocks = b0 \/ pickBestBlock b0 blocks ∈ blocks.
Proof.
  unfold pickBestBlock.
  induction blocks as [|b blocks IH] using rev_ind; [by left|].
  rewrite foldl_app. simpl.
  destruct (foldl _ _ blocks) as [best [bs|]]; simpl in *.
  - destruct (Qltb bs (scoreBlockQuality b)); simpl.
    + right. apply elem_of_app. right. by left.
    + destruct IH as [->|Hin]; [by left|]. right. apply elem_of_app. by left.
  - right. apply elem_of_app. right. by left.
Qed.

Lemma findAllNameCols_keys cols k :
  k ∈ findAllNameCols cols -> exists c, c ∈ cols /\ key c = k.
Proof.
  unfold findAllNameCols. intros Hin.
  apply list_elem_of_fmap in Hin as (c & -> & Hc).
  apply list_elem_of_In, filter_In in Hc as [Hc _].
  exists c. split; [by apply list_elem_of_In | done].
Qed.

Lemma importSheet_nameCol fName sheetName b0 blocks :
  wfBlock (pickBestBlock b0 blocks) ->
  let ex := importSheet fName sheetName b0 blocks in
  nonEmpty (nameCol ex) = true
  /\ (exists c, c ∈ cols ex /\ nameCol ex = key c)
  /\ fatalErrors ex =
       (if 2 <=? length (findAllNameCols (cols ex))
        then [MSG_MULTI_NAME (length (findAllNameCols (cols ex)))] else []).
Proof.
  intros [Hlen Hkeys]. simpl.
  set (best := pickBestBlock b0 blocks) in *.
  rewrite Forall_forall in Hkeys.
  assert (Hname : exists c, c ∈ columns best /\
            match findAllNameCols (columns best) with
            | k :: _ => if nonEmpty k then k
                        else guessNameCol (ExcelParse.rows best) (columns best)
            | [] => guessNameCol (ExcelParse.rows best) (columns best)
            end = key c).
  { assert (Hg : exists c, c ∈ columns best /\
              guessNameCol (ExcelParse.rows best) (columns best) = key c).
    { destruct (guessNameCol_firstMax (ExcelParse.rows best) (columns best))
        as (c & Hfm & Hk).
      - intros E. rewrite E in Hlen. simpl in Hlen. lia.
      - exists c. split; [by eapply firstMax_in | done]. }
    destruct (findAllNameCols (columns best)) as [|k ks] eqn:E; [done|].
    destruct (findAllNameCols_keys (columns best) k) as (c & Hc & Hk).
    { rewrite E. by left. }
    rewrite <- Hk, (Hkeys c Hc). by exists c. }
  destruct Hname as (c & Hc & Hk). rewrite Hk, (Hkeys c Hc).
  split; [done|]. split; [by exists c|]. by rewrite app_nil_r.
Qed.

Lemma eqb_true a b : JsString.eqb a b = true <-> a = b.
Proof. unfold JsString.eqb. apply bool_decide_eq_true. Qed.

Lemma eqb_false a b : JsString.eqb a b = false <-> a <> b.
Proof. unfold JsString.eqb. apply bool_decide_eq_false. Qed.

Lemma voteGet_voteAdd vote c c' :
  voteGet (voteAdd c vote) c' =
    if JsString.eqb c c' then S (voteGet vote c) else voteGet vote c'.
Proof.
  induction vote as [|[x v] vote IH]; simpl.
  - destruct (JsString.eqb c c'); done.
  - destruct (JsString.eqb x c) eqn:Exc; simpl.
    + apply eqb_true in Exc as ->. destruct (JsString.eqb c c'); done.
    + rewrite IH. destruct (JsString.eqb x c') eqn:Exc'; [|done].
      apply eqb_true in Exc' as ->.
      destruct (JsString.eqb c c') eqn:E; [|done].
      apply eqb_true in E as ->. apply eqb_false in Exc. done.
Qed.

Lemma voteAdd_pos vote c : votePos vote -> votePos (voteAdd c vote).
Proof.
  unfold votePos. induction vote as [|[x v] vote IH]; simpl; intros H.
  - repeat constructor.
  - apply Forall_cons in H as [Hv H].
    destruct (JsString.eqb x c); constructor; simpl in *; try lia; auto.
Qed.

Lemma voteAdd_keys vote c :
  NoDup (map fst vote) ->
  NoDup (map fst (voteAdd c vote))
  /\ forall x, x ∈ map fst (voteAdd c vote) <-> x = c \/ x ∈ map fst vote.
Proof.
  induction vote as [|[y v] vote IH]; simpl; intros Hnd.
  - split; [repeat constructor; apply not_elem_of_nil|].
    intros x. rewrite list_elem_of_singleton. split; [by left|].
    intros [?|H]; [done | by apply not_elem_of_nil in H].
  - apply NoDup_cons in Hnd as [Hy Hnd]. destruct (IH Hnd) as [IH1 IH2].
    destruct (JsString.eqb y c) eqn:E; simpl.
    + apply eqb_true in E as ->. split; [by constructor|].
      intros x. rewrite elem_of_cons. tauto.
    + apply eqb_false in E. split.
      * constructor; [|done]. rewrite IH2. intros [?|?]; done.
      * intros x. rewrite !elem_of_cons, IH2. tauto.
Qed.

Lemma voteGet_in vote c v :
  NoDup (map fst vote) -> (c, v) ∈ vote -> voteGet vote c = v.
Proof.
  induction vote as [|[x w] vote IH]; simpl; intros Hnd Hin.
  - by apply not_elem_of_nil in Hin.
  - apply NoDup_cons in Hnd as [Hx Hnd].
    apply elem_of_cons in Hin as [E|Hin].
    + inversion E; subst. by rewrite (proj2 (eqb_true x x)).
    + destruct (JsString.eqb x c) eqn:E; [|by apply IH].
      apply eqb_true in E as ->. exfalso. apply Hx.
      by apply (list_elem_of_fmap_2 fst) in Hin.
Qed.

(** Voting with the classes of one name. *)
Lemma voteOne_get cs vote c :
  NoDup cs ->
  voteGet (foldl (fun v c => voteAdd c v) vote cs) c =
    voteGet vote c + (if bool_decide (c ∈ cs) then 1 else 0).
Proof.
  revert vote. induction cs as [|x cs IH]; intros vote Hnd; cbn [foldl].
  - rewrite bool_decide_eq_false_2 by apply not_elem_of_nil. lia.
  - apply NoDup_cons in Hnd as [Hx Hnd]. rewrite IH by done.
    rewrite voteGet_voteAdd.
    destruct (JsString.eqb x c) eqn:E.
    + apply eqb_true in E as ->.
      rewrite (bool_decide_eq_false_2 (c ∈ cs)) by done.
      rewrite bool_decide_eq_true_2 by (by left). lia.
    + apply eqb_false in E.
      destruct (bool_decide (c ∈ cs)) eqn:D.
      * apply bool_decide_eq_true in D.
        rewrite bool_decide_eq_true_2 by (by right). done.
      * apply bool_decide_eq_false in D.
        rewrite bool_decide_eq_false_2; [done|].
        intros H. apply elem_of_cons in H as [?|?]; congruence.
Qed.

Lemma voteOne_inv cs vote :
  NoDup (map fst vote) -> votePos vote ->
  let vote' := foldl (fun v c => voteAdd c v) vote cs in
  NoDup (map fst vote') /\ votePos vote'
  /\ (forall x, x ∈ map fst vote -> x ∈ map fst vote')
  /\ (forall x, x ∈ cs -> x ∈ map fst vote').
Proof.
  revert vote. induction cs as [|x cs IH]; intros vote Hnd Hpos; simpl.
  - split; [done|]. split; [done|]. split; [done|].
    intros x Hx. by apply not_elem_of_nil in Hx.
  - destruct (voteAdd_keys vote x Hnd) as [Hnd' Hk].
    destruct (IH (voteAdd x vote) Hnd' (voteAdd_pos _ _ Hpos))
      as (H1 & H2 & H3 & H4).
    split; [done|]. split; [done|]. split.
    + intros y Hy. apply H3, Hk. by right.
    + intros y Hy. apply elem_of_cons in Hy as [->|Hy]; [|by apply H4].
      apply H3, Hk. by left.
Qed.

Lemma countVotes_fold idx names :
  countVotes idx names = foldl (countStep idx) ([], 0) names.
Proof. reflexivity. Qed.

Lemma countStep_spec idx vote hit n :
  wfIndex idx -> NoDup (map fst vote) -> votePos vote ->
  let st' := countStep idx (vote, hit) n in
  NoDup (map fst (fst st')) /\ votePos (fst st')
  /\ snd st' = hit + (if contributes idx n then 1 else 0)
  /\ (forall c, voteGet (fst st') c =
                voteGet vote c
                + (if bool_decide (c ∈ knownClasses idx n) then 1 else 0))
  /\ (contributes idx n = true -> fst st' <> []).
Proof.
  intros Hwf Hnd Hpos. unfold countStep, contributes, knownClasses.
  destruct (nameToClasses idx !! n) as [[|c cs]|] eqn:E; simpl.
  - repeat split; try done; try lia.
    all: try (intros c; rewrite bool_decide_eq_false_2 by apply not_elem_of_nil; lia).
  - specialize (Hwf n (c :: cs) E).
    destruct (voteOne_inv (c :: cs) vote Hnd Hpos) as (H1 & H2 & H3 & H4).
    simpl in H1, H2, H3, H4.
    split; [done|]. split; [done|]. split; [lia|]. split.
    + intros c'. apply (voteOne_get (c :: cs) vote c' Hwf).
    + intros _ Hnil. specialize (H4 c (ltac:(by left))).
      rewrite Hnil in H4. by apply not_elem_of_nil in H4.
  - repeat split; try done; try lia.
    all: try (intros c; rewrite bool_decide_eq_false_2 by apply not_elem_of_nil; lia).
Qed.

Lemma countVotes_spec_gen idx names vote hit :
  wfIndex idx -> NoDup (map fst vote) -> votePos vote ->
  let st := foldl (countStep idx) (vote, hit) names in
  NoDup (map fst (fst st)) /\ votePos (fst st)
  /\ snd st = hit + length (contributors idx names)
  /\ (forall c, voteGet (fst st) c = voteGet vote c + votesFor idx names c)
  /\ (vote <> [] \/ contributors idx names <> [] -> fst st <> []).
Proof.
  intros Hwf. revert vote hit.
  induction names as [|n names IH]; intros vote hit Hnd Hpos; cbn [foldl].
  - split; [done|]. split; [done|]. split; [simpl; lia|].
    split; [intros; unfold votesFor; simpl; lia|].
    intros [?|?]; done.
  - destruct (countStep_spec idx vote hit n Hwf Hnd Hpos) as (H1 & H2 & H3 & H4 & H5).
    destruct (countStep idx (vote, hit) n) as [vote' hit'] eqn:Est.
    simpl in H1, H2, H3, H4, H5.
    destruct (IH vote' hit' H1 H2) as (I1 & I2 & I3 & I4 & I5).
    split; [done|]. split; [done|]. split; [|split].
    + rewrite I3, H3. unfold contributors. simpl.
      destruct (contributes idx n); simpl; lia.
    + intros c. rewrite I4, H4. unfold votesFor. simpl.
      destruct (bool_decide (c ∈ knownClasses idx n)); simpl; lia.
    + intros Hor. apply I5. unfold contributors in Hor. simpl in Hor.
      destruct (contributes idx n) eqn:Ec.
      * left. by apply H5.
      * destruct Hor as [Hv|Hc]; [|by right].
        left. unfold countStep, contributes, knownClasses in *.
        destruct (nameToClasses idx !! n) as [[|? ?]|]; simpl in *;
          inversion Est; subst; done.
Qed.

Lemma countVotes_spec idx names :
  wfIndex idx ->
  let st := countVotes idx names in
  NoDup (map fst (fst st)) /\ votePos (fst st)
  /\ snd st = length (contributors idx names)
  /\ (forall c, voteGet (fst st) c = votesFor idx names c)
  /\ (contributors idx names <> [] -> fst st <> []).
Proof.
  intros Hwf. rewrite countVotes_fold.
  destruct (countVotes_spec_gen idx names [] 0 Hwf) as (H1 & H2 & H3 & H4 & H5).
  - constructor.
  - constructor.
  - split; [done|]. split; [done|]. split; [done|]. split; [done|].
    intros H. apply H5. by right.
Qed.

(** [bestVote] returns a first entry of maximal count. *)
Lemma bestVote_spec vote :
  vote <> [] ->
  exists c v, bestVote vote = (c, Z.of_nat v) /\ (c, v) ∈ vote
              /\ forall c' v', (c', v') ∈ vote -> v' <= v.
Proof.
  unfold bestVote.
  induction vote as [|[x w] vote IH] using rev_ind; [done|]. intros _.
  rewrite foldl_app. simpl.
  destruct vote as [|p vote'].
  - simpl. assert ((-1 <? Z.of_nat w)%Z = true) as -> by (apply Z.ltb_lt; lia).
    exists x, w. split; [done|]. split; [by left|].
    intros c' v' H. apply list_elem_of_singleton in H. inversion H. lia.
  - destruct IH as (c & v & -> & Hin & Hmax); [done|].
    destruct (Z.ltb_spec (Z.of_nat v) (Z.of_nat w)) as [Hlt|Hge].
    + exists x, w. split; [done|]. split; [apply elem_of_app; right; by left|].
      intros c' v' H. apply elem_of_app in H as [H|H].
      * specialize (Hmax c' v' H). lia.
      * apply list_elem_of_singleton in H. inversion H. lia.
    + exists c, v. split; [done|]. split; [apply elem_of_app; by left|].
      intros c' v' H. apply elem_of_app in H as [H|H].
      * by apply (Hmax c' v').
      * apply list_elem_of_singleton in H. inversion H. lia.
Qed.

Lemma voteGet_le_max vote v c :
  (forall c' v', (c', v') ∈ vote -> v' <= v) -> voteGet vote c <= v.
Proof.
  induction vote as [|[x w] vote IH]; simpl; intros Hmax; [lia|].
  destruct (JsString.eqb x c).
  - apply (Hmax x w). by left.
  - apply IH. intros c' v' H. apply (Hmax c' v'). by right.
Qed.

Lemma contributors_length idx names :
  length (contributors idx names) <= length names.
Proof. unfold contributors. apply List.filter_length_le. Qed.

Lemma votesFor_le_hit idx names c :
  votesFor idx names c <= length (contributors idx names).
Proof.
  unfold votesFor, contributors. induction names as [|n names IH]; simpl; [lia|].
  destruct (bool_decide (c ∈ knownClasses idx n)) eqn:E; simpl.
  - apply bool_decide_eq_true in E. unfold contributes at 1.
    destruct (knownClasses idx n); [by apply not_elem_of_nil in E|]. simpl. lia.
  - destruct (contributes idx n); simpl; lia.
Qed.

Lemma no_votes_no_contributors idx names :
  (forall c, votesFor idx names c = 0) -> contributors idx names = [].
Proof.
  unfold votesFor, contributors. induction names as [|n names IH]; intros H; simpl; [done|].
  unfold contributes at 1. destruct (knownClasses idx n) as [|c cs] eqn:E.
  - apply IH. intros c. specialize (H c). simpl in H. rewrite E in H.
    rewrite bool_decide_eq_false_2 in H by apply not_elem_of_nil. done.
  - specialize (H c). simpl in H. rewrite E in H.
    rewrite bool_decide_eq_true_2 in H by (by left). simpl in H. lia.
Qed.

Lemma inferSheetClass_votes (ex : ExamConfig) (idx : ClassInferenceResult) :
  wfIndex idx -> hasClassData ex = false ->
  let names := votingSample ex in
  let hit := length (contributors idx names) in
  (hit < 3 -> inferSheetClass ex idx = UNKNOWN)
  /\ (3 <= hit ->
      exists bestC, 0 < votesFor idx names bestC
        /\ (forall c, votesFor idx names c <= votesFor idx names bestC)
        /\ inferSheetClass ex idx =
             classRule (length (rows ex)) hit (votesFor idx names bestC) bestC).
Proof.
  intros Hwf Hcd names hit. unfold inferSheetClass. rewrite Hcd.
  subst names hit. unfold votingSample.
  destruct (nonEmpty (nameCol ex)); simpl.
  2: { split; [done | lia]. }
  set (names := sampleNames 6 (nameCol ex) (rows ex) []).
  pose proof (contributors_length idx names) as Hlen.
  destruct (Nat.ltb_spec (length names) 3) as [Hshort|Hlong].
  { split; [done | lia]. }
  destruct (countVotes_spec idx names Hwf) as (Hnd & Hpos & Hhit & Hget & Hne).
  destruct (countVotes idx names) as [vote hit]. simpl in *. subst hit.
  unfold decideClass.
  destruct (Nat.ltb_spec (length (contributors idx names)) 3) as [Hlt|Hge]; simpl.
  { split; [done | lia]. }
  split; [lia|]. intros _.
  assert (Hv : vote <> []).
  { apply Hne. intros E. rewrite E in Hge. simpl in Hge. lia. }
  destruct (Nat.eqb_spec (length vote) 0) as [E|_].
  { destruct vote; [done | simpl in E; lia]. }
  destruct (bestVote_spec vote Hv) as (c & v & -> & Hin & Hmax).
  pose proof (voteGet_in vote c v Hnd Hin) as Hc. rewrite Hget in Hc.
  exists c. rewrite Hc. split.
  - unfold votePos in Hpos. rewrite Forall_forall in Hpos.
    apply (Hpos (c, v) Hin).
  - split; [|done]. intros c'. rewrite <- Hget. by apply voteGet_le_max.
Qed.

(** C5: for a sheet without class data, with [hit] the number of sampled
    names that have a known class and [votes c] the number of sampled names
    whose known classes include [c]: fewer than 3 hits, or no vote at all,
    gives unknown; otherwise, for a best-voted class and
    [ratio = votes / hit], school-wide when the sheet has at least 150 rows
    and [ratio < 0.85], the best class when [ratio >= 0.7], unknown
    otherwise.  Three hits voting 2 and 1 give unknown (below 150 rows);
    three hits all for one class give that class. *)
Theorem inferSheetClass_rule (ex : ExamConfig) (idx : ClassInferenceResult) :
  wfIndex idx -> hasClassData ex = false ->
  let names := votingSample ex in
  let hit := length (contributors idx names) in
  let votes := votesFor idx names in
  (hit < 3 \/ (forall c, votes c = 0) -> inferSheetClass ex idx = UNKNOWN)
  /\ (3 <= hit ->
      exists bestC, 0 < votes bestC /\ (forall c, votes c <= votes bestC)
        /\ inferSheetClass ex idx =
             if (150 <=? length (rows ex))
                && Qltb (frac (votes bestC) hit) (85 # 100)
             then SCHOOL
             else if Qle_bool (7 # 10) (frac (votes bestC) hit) then bestC
             else UNKNOWN)
  /\ (hit = 3 -> length (rows ex) < 150 ->
      forall a, votes a = 2 -> (forall c, votes c <= 2) ->
      inferSheetClass ex idx = UNKNOWN)
  /\ (hit = 3 ->
      forall a, votes a = 3 -> (forall c, c <> a -> votes c = 0) ->
      inferSheetClass ex idx = a).
Proof.
  intros Hwf Hcd names hit votes.
  destruct (inferSheetClass_votes ex idx Hwf Hcd) as [Hlow Hhigh].
  fold names in Hlow, Hhigh. fold hit in Hlow, Hhigh. fold votes in Hhigh.
  split; [|split; [|split]].
  - intros [Hlt|Hnone]; [by apply Hlow|]. apply Hlow.
    subst hit. rewrite (no_votes_no_contributors idx names Hnone). simpl. lia.
  - exact Hhigh.
  - intros Hhit Hrows a Ha Hle.
    destruct Hhigh as (bestC & Hpos & Hmax & ->); [lia|].
    assert (votes bestC = 2) as -> by (specialize (Hmax a); specialize (Hle bestC); lia).
    rewrite Hhit. unfold classRule.
    destruct (Nat.leb_spec 150 (length (rows ex))); [lia|]. done.
  - intros Hhit a Ha Hother.
    destruct Hhigh as (bestC & Hpos & Hmax & ->); [lia|].
    destruct (decide (bestC = a)) as [->|Hne].
    + rewrite Ha, Hhit. unfold classRule. rewrite andb_false_r. done.
    + rewrite (Hother bestC Hne) in Hpos. lia.
Qed.

Lemma setAdd_NoDup x s : NoDup s -> NoDup (setAdd x s).
Proof.
  intros H. unfold setAdd. destruct (bool_decide (x ∈ s)) eqn:E; [done|].
  apply bool_decide_eq_false in E. apply NoDup_app. split; [done|].
  split; [|repeat constructor; apply not_elem_of_nil].
  intros y Hy Hy'. apply list_elem_of_singleton in Hy' as ->. done.
Qed.

Lemma buildClassIndex_wf exams : wfIndex (buildClassIndex exams).
Proof.
  unfold wfIndex, buildClassIndex. simpl.
  match goal with |- context [foldl ?f ?a exams] =>
    assert (Hinv : forall st,
              (forall n cs, snd st !! n = Some cs -> NoDup cs) ->
              forall n cs, snd (foldl f st exams) !! n = Some cs -> NoDup cs)
  end.
  { induction exams as [|ex exams IH]; intros st Hst; simpl; [done|].
    apply IH. destruct (_ || _); [done|].
    generalize (rows ex). intros rs. revert st Hst.
    induction rs as [|r rs IHr]; intros st Hst; simpl; [done|].
    apply IHr. unfold indexRow. destruct (_ || _); [done|]. simpl.
    intros n cs. destruct (decide (strTrim (getProp r (nameCol ex)) = n)) as [->|Hne].
    - rewrite lookup_insert_eq. intros [= <-]. apply setAdd_NoDup.
      destruct (st.2 !! _) as [cs'|] eqn:E; simpl; [by eapply Hst | constructor].
    - rewrite lookup_insert_ne by done. apply Hst. }
  apply Hinv. intros n cs H. simpl in H. rewrite lookup_empty in H. done.
Qed.

Lemma getIdx_setIdx row c v c' :
  getIdx (setIdx row c v) c' = if decide (c' = c) then v else getIdx row c'.
Proof.
  unfold getIdx, setIdx. destruct (Nat.ltb_spec c (length row)) as [Hlt|Hge].
  - destruct (decide (c' = c)) as [->|Hne].
    + by rewrite list_lookup_insert_eq.
    + by rewrite list_lookup_insert_ne.
  - destruct (decide (c' = c)) as [->|Hne].
    + rewrite lookup_app_r by done.
      rewrite lookup_app_r by (rewrite length_replicate; lia).
      rewrite length_replicate. by rewrite Nat.sub_diag.
    + destruct (Nat.lt_ge_cases c' (length row)) as [Hl|Hg].
      * by rewrite lookup_app_l.
      * rewrite lookup_app_r by done.
        rewrite (lookup_ge_None_2 row c') by done. simpl.
        destruct (Nat.lt_ge_cases (c' - length row) (c - length row)) as [Hl'|Hg'].
        -- rewrite lookup_app_l by (by rewrite length_replicate).
           rewrite lookup_replicate_2 by done. done.
        -- rewrite lookup_app_r by (by rewrite length_replicate).
           rewrite length_replicate.
           rewrite lookup_ge_None_2; [done | simpl; lia].
Qed.

Lemma getRow_setRow mx r row r' :
  getRow (setRow mx r row) r' = if decide (r' = r) then row else getRow mx r'.
Proof.
  unfold getRow, setRow. destruct (Nat.ltb_spec r (length mx)) as [Hlt|Hge].
  - destruct (decide (r' = r)) as [->|Hne].
    + by rewrite list_lookup_insert_eq.
    + by rewrite list_lookup_insert_ne.
  - destruct (decide (r' = r)) as [->|Hne].
    + rewrite lookup_app_r by done.
      rewrite lookup_app_r by (rewrite length_replicate; lia).
      rewrite length_replicate. by rewrite Nat.sub_diag.
    + destruct (Nat.lt_ge_cases r' (length mx)) as [Hl|Hg].
      * by rewrite lookup_app_l.
      * rewrite lookup_app_r by done.
        rewrite (lookup_ge_None_2 mx r') by done. simpl.
        destruct (Nat.lt_ge_cases (r' - length mx) (r - length mx)) as [Hl'|Hg'].
        -- rewrite lookup_app_l by (by rewrite length_replicate).
           rewrite lookup_replicate_2 by done. done.
        -- rewrite lookup_app_r by (by rewrite length_replicate).
           rewrite length_replicate.
           rewrite lookup_ge_None_2; [done | simpl; lia].
Qed.

Lemma length_setRow mx r row :
  r < length mx -> length (setRow mx r row) = length mx.
Proof.
  intros H. unfold setRow. destruct (Nat.ltb_spec r (length mx)); [|lia].
  apply length_insert.
Qed.

Lemma fillCells_get tl cs row c :
  getIdx (foldl (fillCell tl) row cs) c =
    if bool_decide (c ∈ cs) && isEmptyCell (getIdx row c) then tl
    else getIdx row c.
Proof.
  revert row. induction cs as [|x cs IH]; intros row; cbn [foldl].
  - rewrite bool_decide_eq_false_2 by apply not_elem_of_nil. done.
  - rewrite IH. unfold fillCell.
    destruct (decide (c = x)) as [->|Hne].
    + rewrite (bool_decide_eq_true_2 (x ∈ x :: cs)) by (by left). simpl.
      destruct (isEmptyCell (getIdx row x)) eqn:E.
      * rewrite getIdx_setIdx. rewrite decide_True by done.
        destruct (_ && _); done.
      * rewrite E, andb_false_r. done.
    + assert (Hget : getIdx (if isEmptyCell (getIdx row x)
                             then setIdx row x tl else row) c = getIdx row c).
      { destruct (isEmptyCell (getIdx row x)); [|done].
        rewrite getIdx_setIdx. by rewrite decide_False. }
      rewrite Hget.
      assert (bool_decide (c ∈ x :: cs) = bool_decide (c ∈ cs)) as ->; [|done].
      apply bool_decide_ext. rewrite elem_of_cons. tauto.
Qed.

Lemma elem_of_fromTo x lo hi : x ∈ fromTo lo hi <-> lo <= x <= hi.
Proof. unfold fromTo. rewrite list_elem_of_In, in_seq. lia. Qed.

Lemma fillRow_get tl m row c :
  getIdx (fillRow tl m row) c =
    if inCols m c && isEmptyCell (getIdx row c) then tl else getIdx row c.
Proof.
  unfold fillRow. rewrite fillCells_get.
  assert (bool_decide (c ∈ fromTo (s_c m) (e_c m)) = inCols m c) as ->; [|done].
  unfold inCols. apply eq_true_iff_eq.
  rewrite bool_decide_eq_true, elem_of_fromTo, andb_true_iff, !Nat.leb_le. done.
Qed.

Lemma fillRows_cell tl m rs mx r c :
  cellAt (foldl (fillRowAt tl m) mx rs) r c =
    if bool_decide (r ∈ rs) && inCols m c && isEmptyCell (cellAt mx r c) then tl
    else cellAt mx r c.
Proof.
  revert mx. induction rs as [|x rs IH]; intros mx; cbn [foldl].
  - rewrite bool_decide_eq_false_2 by apply not_elem_of_nil. done.
  - rewrite IH. unfold cellAt, fillRowAt. rewrite getRow_setRow.
    destruct (decide (r = x)) as [->|Hne].
    + rewrite (bool_decide_eq_true_2 (x ∈ x :: rs)) by (by left).
      rewrite fillRow_get. simpl.
      destruct (inCols m c && isEmptyCell (getIdx (getRow mx x) c)) eqn:E.
      * by case_match.
      * by rewrite <- andb_assoc, E, andb_false_r.
    + assert (bool_decide (r ∈ x :: rs) = bool_decide (r ∈ rs)) as ->; [|done].
      apply bool_decide_ext. rewrite elem_of_cons. tauto.
Qed.

Lemma fillRows_length tl m rs mx :
  Forall (fun r => r < length mx) rs ->
  length (foldl (fillRowAt tl m) mx rs) = length mx.
Proof.
  revert mx. induction rs as [|x rs IH]; intros mx Hall; cbn [foldl]; [done|].
  apply Forall_cons in Hall as [Hx Hall].
  assert (Hl : length (fillRowAt tl m mx x) = length mx)
    by (by apply length_setRow).
  rewrite IH; [done|]. by rewrite Hl.
Qed.

Lemma applyMerge_cell ws maxRows mx m r c :
  cellAt (applyMerge ws maxRows mx m) r c =
    if fills ws maxRows m r c && isEmptyCell (cellAt mx r c) then topLeft ws m
    else cellAt mx r c.
Proof.
  unfold applyMerge, fills. fold (topLeft ws m).
  destruct (Nat.leb_spec maxRows (s_r m)) as [Hge|Hlt].
  - destruct (Nat.ltb_spec (s_r m) maxRows); [lia|]. done.
  - destruct (Nat.ltb_spec (s_r m) maxRows); [|lia]. simpl.
    destruct (isEmptyCell (topLeft ws m)); [done|]. simpl.
    unfold fillRange. rewrite fillRows_cell.
    assert (bool_decide (r ∈ fromTo (s_r m) (Nat.min (e_r m) (maxRows - 1)))
              && inCols m c = covers m r c && (r <? maxRows)) as ->; [|done].
    unfold covers, inCols. apply eq_true_iff_eq.
    rewrite !andb_true_iff, bool_decide_eq_true, elem_of_fromTo,
      !Nat.leb_le, Nat.ltb_lt. lia.
Qed.

Lemma applyMerge_length ws maxRows mx m :
  maxRows <= length mx -> length (applyMerge ws maxRows mx m) = length mx.
Proof.
  intros Hlen. unfold applyMerge.
  destruct (Nat.leb_spec maxRows (s_r m)) as [Hge|Hlt]; [done|].
  destruct (isEmptyCell _); [done|].
  unfold fillRange. apply fillRows_length.
  apply Forall_forall. intros r Hr. apply elem_of_fromTo in Hr. lia.
Qed.

Lemma applyMerges_cell ws maxRows merges mx r c :
  cellAt (foldl (applyMerge ws maxRows) mx merges) r c =
    if isEmptyCell (cellAt mx r c)
    then default (cellAt mx r c) (firstFill ws maxRows merges r c)
    else cellAt mx r c.
Proof.
  revert mx. induction merges as [|m merges IH]; intros mx; cbn [foldl].
  - unfold firstFill. simpl. by destruct (isEmptyCell _).
  - rewrite IH, applyMerge_cell. unfold firstFill. simpl.
    destruct (isEmptyCell (cellAt mx r c)) eqn:E; simpl.
    + destruct (fills ws maxRows m r c) eqn:F; simpl.
      * assert (isEmptyCell (topLeft ws m) = false) as ->; [|done].
        unfold fills in F. rewrite !andb_true_iff in F.
        destruct F as [[[_ F] _] _]. by apply negb_true_iff in F.
      * rewrite E. done.
    + rewrite andb_false_r, E. done.
Qed.

Lemma applyMerges_length ws maxRows merges mx :
  maxRows <= length mx ->
  length (foldl (applyMerge ws maxRows) mx merges) = length mx.
Proof.
  revert mx. induction merges as [|m merges IH]; intros mx Hlen; cbn [foldl]; [done|].
  rewrite IH; rewrite applyMerge_length; done.
Qed.

Lemma padRows_cell maxRows mx r c : cellAt (padRows maxRows mx) r c = cellAt mx r c.
Proof.
  unfold cellAt, padRows, getRow. f_equal.
  destruct (Nat.lt_ge_cases r (length mx)) as [Hl|Hg].
  - by rewrite lookup_app_l.
  - rewrite lookup_app_r by done. rewrite (lookup_ge_None_2 mx r) by done.
    simpl. destruct (replicate _ _ !! _) eqn:E; [|done].
    apply lookup_replicate in E as [-> _]. done.
Qed.

Lemma padRows_length maxRows mx :
  length (padRows maxRows mx) = Nat.max maxRows (length mx).
Proof. unfold padRows. rewrite length_app, length_replicate. lia. Qed.

(** C8 (as the code has it): without merge ranges the grid is returned as
    it is (an empty grid stays empty); with at least one range the result
    has [max maxRows rowCount] rows.  Cell by cell: a non-empty cell is
    kept; an empty cell takes the top-left value of the first range that
    starts above [maxRows], has a non-empty top-left value and covers the
    cell in a row above [maxRows], and is unchanged when there is none.
    The function is total. *)
Theorem applyMergesToMatrix_spec (ws : WorkSheet) (matrix : list (list Cell))
    (maxRows : nat) :
  let out := applyMergesToMatrix ws matrix maxRows in
  (ws_merges ws = [] -> out = matrix)
  /\ (ws_merges ws <> [] -> length out = Nat.max maxRows (length matrix))
  /\ (forall r c,
        cellAt out r c =
          if isEmptyCell (cellAt matrix r c)
          then default (cellAt matrix r c)
                       (firstFill ws maxRows (ws_merges ws) r c)
          else cellAt matrix r c)
  /\ (forall r c, isEmptyCell (cellAt matrix r c) = false ->
                  cellAt out r c = cellAt matrix r c)
  /\ (forall m r c, m ∈ ws_merges ws -> fills ws maxRows m r c = true ->
                    isEmptyCell (cellAt out r c) = false).
Proof.
  intros out.
  assert (Hcell : forall r c,
        cellAt out r c =
          if isEmptyCell (cellAt matrix r c)
          then default (cellAt matrix r c)
                       (firstFill ws maxRows (ws_merges ws) r c)
          else cellAt matrix r c).
  { intros r c. subst out. unfold applyMergesToMatrix.
    destruct (ws_merges ws) as [|m ms] eqn:E.
    - unfold firstFill. simpl. by destruct (isEmptyCell _).
    - rewrite applyMerges_cell, padRows_cell. done. }
  split; [|split; [|split; [|split]]].
  - intros E. subst out. unfold applyMergesToMatrix. by rewrite E.
  - intros Hne. subst out. unfold applyMergesToMatrix.
    destruct (ws_merges ws) as [|m ms]; [done|].
    rewrite applyMerges_length; rewrite padRows_length; lia.
  - exact Hcell.
  - intros r c E. by rewrite Hcell, E.
  - intros m r c Hin Hf. rewrite Hcell.
    destruct (isEmptyCell (cellAt matrix r c)) eqn:E; [|done].
    unfold firstFill.
    destruct (List.find _ (ws_merges ws)) as [m'|] eqn:Ef; simpl.
    + apply find_some in Ef as [_ Hf']. unfold fills in Hf'.
      rewrite !andb_true_iff in Hf'. destruct Hf' as [[[_ F] _] _].
      by apply negb_true_iff in F.
    + apply list_elem_of_In in Hin.
      pose proof (find_none _ _ Ef m Hin) as Hn. simpl in Hn. congruence.
Qed.

(* ===================================================================== *)
(** ** The header locator *)
(* ===================================================================== *)

(** C9 (as the code has it): among the first [min 18 rowCount] rows the
    locator considers only candidate rows - not a title row, and with at
    least 3 non-empty cells or a keyword hit - and returns the earliest
    candidate of maximal score; a row with these properties is the result.
    When no row is a candidate it returns 0. *)
Theorem detectHeaderStartRow_spec (matrix : list (list Cell)) :
  let LIMIT := Nat.min 18 (length matrix) in
  let r0 := detectHeaderStartRow matrix in
  ((forall r, r < LIMIT -> candidateAt matrix r = false) -> r0 = 0)
  /\ (forall r, r < LIMIT -> candidateAt matrix r = true ->
        r0 < LIMIT
        /\ looksLikeTitle (getRow matrix r0) = false
        /\ (3 <= nonEmptyCount (getRow matrix r0)
            \/ hasKeyword (getRow matrix r0) = true)
        /\ (scoreAt matrix r <= scoreAt matrix r0)%Z
        /\ (r < r0 -> (scoreAt matrix r < scoreAt matrix r0)%Z))
  /\ (forall r, r < LIMIT -> candidateAt matrix r = true ->
        (forall r', r' < LIMIT -> candidateAt matrix r' = true ->
                    (scoreAt matrix r' <= scoreAt matrix r)%Z) ->
        (forall r', r' < r -> candidateAt matrix r' = true ->
                    (scoreAt matrix r' < scoreAt matrix r)%Z) ->
        r0 = r).
Proof.
  intros LIMIT r0.
  pose proof (headerScan_inv matrix LIMIT) as Hinv.
  assert (Hr0 : r0 = fst (headerScan matrix LIMIT)) by reflexivity.
  destruct (headerScan matrix LIMIT) as [b s]. simpl in Hr0. subst b.
  destruct Hinv as [[Hnone E] | (Hlt & Hc & Hs & Hmax & Hfirst)].
  - split; [intros _; by inversion E|].
    split; intros r Hr Hcr; rewrite Hnone in Hcr by done; done.
  - simpl in Hlt, Hc, Hs, Hmax, Hfirst. subst s.
    split; [intros Hnone; rewrite Hnone in Hc by done; done|]. split.
    + intros r Hr Hcr. split; [done|].
      unfold candidateAt, isCandidate in Hc.
      apply andb_true_iff in Hc as [Ht Hk].
      apply negb_true_iff in Ht. apply negb_true_iff in Hk.
      split; [done|]. split.
      * apply andb_false_iff in Hk as [Hk|Hk].
        -- left. by apply Nat.ltb_ge in Hk.
        -- right. by apply negb_false_iff in Hk.
      * split; [by apply Hmax | intros Hlt'; by apply Hfirst].
    + intros r Hr Hcr Hrmax Hrfirst.
      destruct (Nat.lt_trichotomy r0 r) as [Hl|[He|Hg]]; [|done|].
      * specialize (Hrfirst r0 Hl Hc). specialize (Hmax r Hr Hcr). lia.
      * specialize (Hfirst r Hg Hcr). specialize (Hrmax r0 Hlt Hc). lia.
Qed.

(** A title in row 0, a blank row, the header in row 2. *)
Lemma detectHeaderStartRow_titled : detectHeaderStartRow titledGrid = 2.
Proof.
  apply (proj2 (proj2 (detectHeaderStartRow_spec titledGrid)) 2).
  - vm_compute. lia.
  - vm_compute. reflexivity.
  - intros r' Hr' Hc. change (Nat.min 18 (length titledGrid)) with 4 in Hr'.
    destruct r' as [|[|[|[|r']]]]; try lia; vm_compute; discriminate.
  - intros r' Hr' Hc.
    destruct r' as [|[|r']]; try lia; vm_compute in Hc; discriminate.
Defined.

(** A sheet made of one title row: the locator answers 0, a title row.
    And a dense keyword-bearing row 2 is not the answer when a later row
    outscores it. *)
Lemma detectHeaderStartRow_title_only :
  (detectHeaderStartRow titleOnlyGrid = 0
   /\ looksLikeTitle (getRow titleOnlyGrid (detectHeaderStartRow titleOnlyGrid))
      = true)
  /\ (looksLikeTitle (getRow twoHeaderGrid 0) = true
      /\ candidateAt twoHeaderGrid 2 = true
      /\ detectHeaderStartRow twoHeaderGrid = 3).
Proof. repeat split; vm_compute; reflexivity. Qed.

(* ===================================================================== *)
(** ** The matrix normaliser *)
(* ===================================================================== *)

(** A one-row grid without merge ranges comes back with one row. *)
Lemma applyMergesToMatrix_short :
  applyMergesToMatrix noMergeSheet [[txt "姓名"]] 30 = [[txt "姓名"]]
  /\ length (applyMergesToMatrix noMergeSheet [[txt "姓名"]] 30) < 30.
Proof. split; [reflexivity | simpl; lia]. Qed.

(** A 2 x 3 merge over a grid holding one subject label. *)
Lemma applyMergesToMatrix_merged :
  length (applyMergesToMatrix mergedSheet mergedGrid 30) = 30
  /\ cellAt (applyMergesToMatrix mergedSheet mergedGrid 30) 1 1 = txt "语文"
  /\ isEmptyCell (cellAt (applyMergesToMatrix mergedSheet mergedGrid 30) 1 2)
     = false.
Proof.
  destruct (applyMergesToMatrix_spec mergedSheet mergedGrid 30)
    as (_ & Hlen & _ & Hkeep & Hfill).
  split; [|split].
  - rewrite Hlen; [reflexivity | discriminate].
  - rewrite Hkeep; vm_compute; reflexivity.
  - apply (Hfill {| s_r := 0; s_c := 0; e_r := 1; e_c := 2 |}).
    + vm_compute. left.
    + vm_compute. reflexivity.
Defined.

(* ===================================================================== *)
(** ** The total-score column *)
(* ===================================================================== *)

(** C3 (as the code has it): a column whose normalised header is rank-like
    ([totalRankLike]) or is one of the hard-excluded metadata headers
    ([totalMetaLike]: exactly the class or the name header, or containing a
    class-number, exam-number, admission-ticket or "名字" keyword) scores
    -9999 and, keys being unique, is never the total column. *)
Theorem scoreTotal_hard_exclude (rows : list Row) (cols : list ParsedColumn)
    (c : ParsedColumn) :
  c ∈ cols -> hardExcluded c = true ->
  scoreTotal rows c = (-9999)%Q
  /\ (NoDup (map key cols) -> nonEmpty (guessTotalCol rows cols) = true ->
      guessTotalCol rows cols <> key c).
Proof.
  intros Hin Hhard. pose proof (scoreTotal_hard rows c Hhard) as Hs.
  split; [done|]. intros Hnd Hne Hk.
  destruct (guessTotalCol_chosen rows cols Hne) as (c' & Hin' & Hk' & Hge & _).
  assert (c' = c) as -> by (apply (NoDup_key_inj cols); congruence).
  rewrite Hs in Hge. lra.
Qed.

(** The name header is hard-excluded. *)
Lemma scoreTotal_hard_exclude_name :
  scoreTotal smallIdRows
    {| key := js "姓名__1"; label := js "姓名（B列）"; colIndex := 1 |}
  = (-9999)%Q.
Proof.
  apply (scoreTotal_hard_exclude smallIdRows
           [studentIdCol;
            {| key := js "姓名__1"; label := js "姓名（B列）"; colIndex := 1 |}]).
  - right. left.
  - vm_compute. reflexivity.
Defined.

(** A student-id header is not: with small values it is taken as the
    total column. *)
Lemma studentId_not_excluded :
  guessIdCol [studentIdCol] = key studentIdCol
  /\ ~ (scoreTotal smallIdRows studentIdCol == -9999)%Q
  /\ guessTotalCol smallIdRows [studentIdCol] = key studentIdCol
  /\ exists ex, importFiles firstRowHeaders [fileOf smallIdGrid] = [ex]
       /\ idCol ex = js "学号__0" /\ totalCol ex = js "学号__0".
Proof.
  split; [vm_compute; reflexivity|]. split; [|split; [vm_compute; reflexivity|]].
  - assert (E : scoreTotal smallIdRows studentIdCol = 35%Q)
      by (vm_compute; reflexivity).
    rewrite E. intros H. unfold Qeq in H. simpl in H. lia.
  - eexists. split; [vm_compute; reflexivity|].
    split; vm_compute; reflexivity.
Qed.

(** C4 (as the code has it): [guessTotalCol] returns a key only of a column
    of maximal score at least 10, nothing when every score is below 10, and
    the key of a column of maximal score as soon as one column scores at
    least 10.  A column whose sampled values are all at least 100000 scores
    below 10 and is never returned.  A block that holds such an id column
    and a fully empty total-headed column gets no total column when it has
    no other column, when every column is large, empty or hard-excluded,
    and in general when every other column scores below 10; it is the other
    columns that decide. *)
Theorem guessTotalCol_threshold (rows : list Row) (cols : list ParsedColumn) :
  (nonEmpty (guessTotalCol rows cols) = true ->
   exists c, c ∈ cols /\ key c = guessTotalCol rows cols
     /\ (10 <= scoreTotal rows c)%Q
     /\ forall c', c' ∈ cols -> (scoreTotal rows c' <= scoreTotal rows c)%Q)
  /\ ((forall c, c ∈ cols -> (scoreTotal rows c < 10)%Q) ->
      guessTotalCol rows cols = [])
  /\ (forall idc, largeIntegerColumn rows (key idc) = true ->
                  (scoreTotal rows idc < 10)%Q)
  /\ (forall idc, idc ∈ cols -> largeIntegerColumn rows (key idc) = true ->
                  NoDup (map key cols) ->
                  nonEmpty (guessTotalCol rows cols) = true ->
                  guessTotalCol rows cols <> key idc)
  /\ (forall idc totc, cols = [idc; totc] ->
                       largeIntegerColumn rows (key idc) = true ->
                       emptyColumn rows (key totc) = true ->
                       guessTotalCol rows cols = [])
  /\ ((forall c, c ∈ cols -> largeIntegerColumn rows (key c) = true
                             \/ hardExcluded c = true) ->
      guessTotalCol rows cols = [])
  /\ (forall idc totc, idc ∈ cols -> totc ∈ cols ->
                       largeIntegerColumn rows (key idc) = true ->
                       emptyColumn rows (key totc) = true ->
                       (forall c, c ∈ cols ->
                          c = idc \/ c = totc \/ (scoreTotal rows c < 10)%Q) ->
                       guessTotalCol rows cols = [])
  /\ (forall c, c ∈ cols -> (10 <= scoreTotal rows c)%Q ->
        exists c', c' ∈ cols /\ guessTotalCol rows cols = key c'
          /\ (10 <= scoreTotal rows c')%Q
          /\ forall c'', c'' ∈ cols ->
                (scoreTotal rows c'' <= scoreTotal rows c')%Q).
Proof.
  split; [apply guessTotalCol_chosen|].
  split; [apply guessTotalCol_absent|].
  split; [intros idc; apply scoreTotal_large|].
  assert (Hweak : (forall c, c ∈ cols -> largeIntegerColumn rows (key c) = true
                                        \/ hardExcluded c = true) ->
                  guessTotalCol rows cols = []).
  { intros Hall. apply guessTotalCol_absent. intros c Hc.
    destruct (Hall c Hc) as [Hl|Hh].
    - by apply scoreTotal_large.
    - rewrite (scoreTotal_hard rows c Hh). lra. }
  split; [|split; [|split; [exact Hweak|split]]].
  - intros idc Hin Hl Hnd Hne Hk.
    destruct (guessTotalCol_chosen rows cols Hne) as (c' & Hin' & Hk' & Hge & _).
    assert (c' = idc) as -> by (apply (NoDup_key_inj cols); congruence).
    pose proof (scoreTotal_large rows idc Hl). lra.
  - intros idc totc -> Hl He. apply Hweak. intros c Hc. left.
    apply elem_of_cons in Hc as [->|Hc]; [done|].
    apply list_elem_of_singleton in Hc as ->. by apply emptyColumn_large.
  - intros idc totc _ _ Hl He Hrest. apply guessTotalCol_absent. intros c Hc.
    destruct (Hrest c Hc) as [->|[->|Hlt]]; [| |exact Hlt].
    + by apply scoreTotal_large.
    + by apply scoreTotal_large, emptyColumn_large.
  - intros c Hc Hge. unfold guessTotalCol.
    pose proof (totalScan_inv rows cols) as Hinv.
    destruct (totalScan rows cols) as [best bestScore].
    destruct Hinv as [[E Hall] | (c' & Hin & E & Hmax)]; inversion E; subst.
    + specialize (Hall c Hc). lra.
    + pose proof (Hmax c Hc) as Hle.
      assert (Qltb (scoreTotal rows c') 10 = false) as ->
        by (apply Qltb_false; lra).
      exists c'. split; [done|]. split; [done|]. split; [lra | done].
Qed.

(** Large student ids beside an empty total column: no total column. *)
Lemma guessTotalCol_large_id :
  guessTotalCol largeIdRows [studentIdCol; emptyTotalCol] = [].
Proof.
  apply (proj1 (proj2 (proj2 (proj2 (proj2
           (guessTotalCol_threshold largeIdRows [studentIdCol; emptyTotalCol])))))
           studentIdCol emptyTotalCol).
  - reflexivity.
  - vm_compute. reflexivity.
  - vm_compute. reflexivity.
Defined.

(** The same two columns in a block that also has a subject column: the
    subject column is taken as the total column. *)
Lemma guessTotalCol_subject_taken :
  exists ex, importFiles buildHeaders [fileOf subjectGrid] = [ex]
    /\ studentIdCol ∈ cols ex /\ emptyTotalCol2 ∈ cols ex
    /\ largeIntegerColumn (rows ex) (key studentIdCol) = true
    /\ emptyColumn (rows ex) (key emptyTotalCol2) = true
    /\ Forall2 Qeq (map (scoreTotal (rows ex)) (cols ex))
                   [(-195)%Q; (-9999)%Q; (-30)%Q; 35%Q]
    /\ totalCol ex = key subjectCol
    /\ nonEmpty (totalCol ex) = true.
Proof.
  eexists. split; [vm_compute; reflexivity|].
  split; [vm_compute; left|].
  split; [vm_compute; right; right; left|].
  split; [vm_compute; reflexivity|].
  split; [vm_compute; reflexivity|].
  split; [vm_compute; repeat (constructor; [reflexivity|]); constructor|].
  split; vm_compute; reflexivity.
Qed.

(* ===================================================================== *)
(** ** Per-sheet records *)
(* ===================================================================== *)

(** Every record of [importFiles] is the record [importSheet] builds for
    a parsed block list, up to its inferred class. *)
Lemma importFiles_inv buildHeaders files ex :
  ex ∈ importFiles buildHeaders files ->
  exists fName sn b0 bs c,
    ex = setInferredClass (importSheet fName sn b0 (b0 :: bs)) c
    /\ wfBlock (pickBestBlock b0 (b0 :: bs)).
Proof.
  intros Hex. unfold importFiles in Hex.
  apply list_elem_of_fmap in Hex as (ex0 & -> & Hex0).
  apply list_elem_of_In, in_concat in Hex0 as (l & Hl & Hex0).
  apply list_elem_of_In, list_elem_of_fmap in Hl as (f & -> & _).
  apply list_elem_of_In, list_elem_of_omap in Hex0 as ([sn sh] & _ & Hsome).
  destruct (JsString.eqb (trim sn) (js "说明")); [done|].
  destruct (parseSheetToBlocks buildHeaders sh) as [|b0 bs] eqn:Eb; [done|].
  inversion Hsome; subst. clear Hsome.
  exists (file_name f), sn, b0, bs. eexists. split; [reflexivity|].
  apply (parseSheetToBlocks_wf buildHeaders sh). rewrite Eb.
  destruct (pickBestBlock_in b0 (b0 :: bs)) as [->|Hin]; [by left | done].
Qed.

Lemma importSheet_multi_name (fName sheetName : list N) (b0 : ParsedBlock)
    (blocks : list ParsedBlock) :
  let ex := importSheet fName sheetName b0 blocks in
  let nameCols := findAllNameCols (cols ex) in
  2 <= length nameCols ->
  MSG_MULTI_NAME (length nameCols) ∈ fatalErrors ex
  /\ (forall k, head nameCols = Some k -> nonEmpty k = true -> nameCol ex = k)
  /\ (wfBlock (pickBestBlock b0 blocks) ->
      head nameCols = Some (nameCol ex) /\ nonEmpty (nameCol ex) = true
      /\ fatalErrors ex = [MSG_MULTI_NAME (length nameCols)]).
Proof.
  intros ex nameCols Hlen.
  assert (Hfatal : MSG_MULTI_NAME (length nameCols) ∈ fatalErrors ex).
  { subst ex nameCols. cbn [fatalErrors importSheet cols] in *.
    destruct (Nat.leb_spec 2 (length (findAllNameCols
                (columns (pickBestBlock b0 blocks))))); [|lia].
    apply elem_of_app. left. by left. }
  assert (Hfirst : forall k, head nameCols = Some k -> nonEmpty k = true ->
                             nameCol ex = k).
  { intros k Hk Hne. subst ex nameCols. cbn [nameCol importSheet cols] in *.
    destruct (findAllNameCols (columns (pickBestBlock b0 blocks)))
      as [|k' ks]; [done|].
    simpl in Hk. inversion Hk; subst. by rewrite Hne. }
  split; [done|]. split; [done|]. intros Hwf.
  destruct (importSheet_nameCol fName sheetName b0 blocks Hwf)
    as (Hne & _ & Hf). fold ex in Hne, Hf. fold nameCols in Hf.
  destruct (Nat.leb_spec 2 (length nameCols)); [|lia].
  split; [|done].
  destruct nameCols as [|k ks] eqn:E; [simpl in Hlen; lia|]. simpl.
  f_equal. symmetry. apply Hfirst; [done|].
  destruct Hwf as [_ Hkeys]. rewrite Forall_forall in Hkeys.
  destruct (findAllNameCols_keys (cols ex) k) as (c & Hc & <-).
  { fold nameCols. rewrite E. by left. }
  by apply Hkeys.
Qed.

(** C2 (as the code has it): when the chosen block of an imported sheet
    has at least 2 columns whose header reads as a name column, the record
    carries the multiple-name-columns fatal error (and no other), and its
    name column is the first of those columns, which is not empty. *)
Theorem importFiles_multi_name buildHeaders (files : list File)
    (ex : ExamConfig) :
  ex ∈ importFiles buildHeaders files ->
  2 <= length (findAllNameCols (cols ex)) ->
  fatalErrors ex = [MSG_MULTI_NAME (length (findAllNameCols (cols ex)))]
  /\ head (findAllNameCols (cols ex)) = Some (nameCol ex)
  /\ nonEmpty (nameCol ex) = true.
Proof.
  intros Hex Hlen.
  destruct (importFiles_inv buildHeaders files ex Hex)
    as (fName & sn & b0 & bs & c & -> & Hwf).
  cbn [setInferredClass cols nameCol fatalErrors] in *.
  destruct (importSheet_multi_name fName sn b0 (b0 :: bs) Hlen)
    as (_ & _ & H). destruct (H Hwf) as (H1 & H2 & H3). done.
Qed.

(** Two name-headed columns: the error is raised, the first is used. *)
Lemma importFiles_dup_names :
  exists ex, ex ∈ importFiles firstRowHeaders [fileOf dupNameGrid]
    /\ fatalErrors ex = [MSG_MULTI_NAME 2]
    /\ nameCol ex = js "姓名__0".
Proof.
  pose (l := importFiles firstRowHeaders [fileOf dupNameGrid]).
  assert (Hin : default blankExam (head l) ∈ l) by (vm_compute; left).
  assert (Hlen : 2 <= length (findAllNameCols (cols (default blankExam (head l)))))
    by (vm_compute; lia).
  exists (default blankExam (head l)). split; [exact Hin|].
  destruct (importFiles_multi_name firstRowHeaders [fileOf dupNameGrid] _
              Hin Hlen) as (H1 & H2 & _).
  split.
  - rewrite H1. vm_compute. reflexivity.
  - assert (E : head (findAllNameCols (cols (default blankExam (head l))))
                = Some (js "姓名__0")) by (vm_compute; reflexivity).
    rewrite E in H2. by inversion H2.
Defined.

(** The same sheet through [importFiles]: the name column is not empty. *)
Lemma dup_names_nameCol_kept :
  exists ex, importFiles firstRowHeaders [fileOf dupNameGrid] = [ex]
    /\ 2 <= length (findAllNameCols (cols ex))
    /\ fatalErrors ex <> []
    /\ nameCol ex = js "姓名__0"
    /\ nameCol ex <> [].
Proof.
  eexists. split; [vm_compute; reflexivity|].
  split; [vm_compute; lia|]. split; [vm_compute; discriminate|].
  split; [vm_compute; reflexivity | vm_compute; discriminate].
Qed.

(** C1 (failing input): eleven named rows, one with a class.  The check of
    [importFiles] rejects the class column ([fixedClassCol] is empty), yet
    the record keeps it in [classCol]. *)
Theorem importFiles_keeps_rejected_classCol :
  exists ex, importFiles firstRowHeaders [fileOf sparseClassGrid] = [ex]
    /\ fixedClassCol (rows ex) (nameCol ex) (classCol ex) = []
    /\ classCol ex = js "班级__1"
    /\ hasClassData ex = true.
Proof.
  eexists. split; [vm_compute; reflexivity|].
  split; [|split]; vm_compute; reflexivity.
Qed.

(** C10: the name guesser returns the key of the first column of maximal
    score (the first column when nothing scores); every parsed block has at
    least 3 columns and no empty key; so every record of [importFiles] has a
    non-empty name column, which is a key of its columns, and never the
    no-name fatal error. *)
Theorem importFiles_nameCol :
  (forall rows cols, cols <> [] ->
     exists c, firstMax rows cols c /\ guessNameCol rows cols = key c)
  /\ (forall rows c cols,
        (forall c', c' ∈ c :: cols -> (scoreName rows c' == 0)%Q) ->
        guessNameCol rows (c :: cols) = key c)
  /\ (forall buildHeaders sh b, b ∈ parseSheetToBlocks buildHeaders sh ->
        3 <= length (columns b)
        /\ Forall (fun c => nonEmpty (key c) = true) (columns b))
  /\ (forall buildHeaders files ex, ex ∈ importFiles buildHeaders files ->
        nonEmpty (nameCol ex) = true
        /\ (MSG_NO_NAME ∉ fatalErrors ex)
        /\ 3 <= length (cols ex)
        /\ exists c, c ∈ cols ex /\ nameCol ex = key c).
Proof.
  split; [apply guessNameCol_firstMax|]. split; [|split].
  - intros rows c cols Hzero.
    destruct (guessNameCol_firstMax rows (c :: cols)) as (c0 & Hfm & ->); [done|].
    destruct Hfm as (pre & post & Hsplit & Hpre & _).
    destruct pre as [|p pre].
    + simpl in Hsplit. by inversion Hsplit.
    + simpl in Hsplit. inversion Hsplit; subst.
      assert (Hp : (scoreName rows p < scoreName rows c0)%Q)
        by (apply Hpre; by left).
      rewrite (Hzero p) in Hp by (by left).
      rewrite (Hzero c0) in Hp
        by (right; apply elem_of_app; right; by left).
      lra.
  - intros buildHeaders sh b Hb. by apply (parseSheetToBlocks_wf buildHeaders sh).
  - intros buildHeaders files ex Hex.
    destruct (importFiles_inv buildHeaders files ex Hex)
      as (fName & sn & b0 & bs & c0 & -> & Hwf).
    destruct (importSheet_nameCol fName sn b0 (b0 :: bs) Hwf)
      as (Hne & Hkey & Hf).
    cbn [setInferredClass nameCol fatalErrors cols].
    split; [done|]. split; [|split; [|done]].
    + rewrite Hf. destruct (2 <=? _); [|apply not_elem_of_nil].
      intros Hin. apply list_elem_of_singleton in Hin.
      apply (f_equal (hd 0%N)) in Hin. vm_compute in Hin. discriminate.
    + destruct Hwf as [Hlen _]. exact Hlen.
Qed.

(** A record of a real import. *)
Lemma importFiles_nameCol_titled :
  exists ex, ex ∈ importFiles firstRowHeaders [fileOf titledGrid]
    /\ nonEmpty (nameCol ex) = true /\ (MSG_NO_NAME ∉ fatalErrors ex).
Proof.
  pose (l := importFiles firstRowHeaders [fileOf titledGrid]).
  assert (Hin : default blankExam (head l) ∈ l) by (vm_compute; left).
  exists (default blankExam (head l)). split; [exact Hin|].
  destruct (proj2 (proj2 (proj2 importFiles_nameCol))
              firstRowHeaders [fileOf titledGrid] _ Hin) as (H1 & H2 & _).
  split; [exact H1 | exact H2].
Defined.

(* ===================================================================== *)
(** ** Class inference and the effective class *)
(* ===================================================================== *)

(** Votes [2,1] and [3,0] against the index of a four-pupil roster. *)
Lemma inferSheetClass_examples :
  (exists bestC, inferSheetClass splitVoteExam rosterIndex =
                 classRule 3 3 (votesFor rosterIndex (votingSample splitVoteExam)
                                         bestC) bestC)
  /\ inferSheetClass splitVoteExam rosterIndex = UNKNOWN
  /\ inferSheetClass clearVoteExam rosterIndex = js "1班".
Proof.
  split; [|split; vm_compute; reflexivity].
  destruct (proj1 (proj2 (inferSheetClass_rule splitVoteExam rosterIndex
                            (buildClassIndex_wf [rosterExam]) eq_refl)))
    as (bestC & _ & _ & E).
  - vm_compute. lia.
  - exists bestC. exact E.
Defined.

(** Override 3 over a class column that says 5 throughout. *)
Lemma getEffectiveClass_override :
  getEffectiveClass overriddenExam = js "3"
  /\ columnValues (classCol overriddenExam) (rows overriddenExam)
     = [js "5"; js "5"].
Proof.
  split; [|vm_compute; reflexivity].
  apply (proj1 (getEffectiveClass_precedence overriddenExam)).
  vm_compute. reflexivity.
Defined.

(* ===================================================================== *)
(** ** Numbers and their rendering *)
(* ===================================================================== *)

Lemma uintChars_string d :
  map N_of_ascii (list_ascii_of_string (NilEmpty.string_of_uint d)) = uintChars d.
Proof. induction d; simpl; rewrite ?IHd; reflexivity. Qed.

Lemma ofN_uintChars n : ofN n = uintChars (N.to_uint n) /\ ofN n <> [].
Proof.
  unfold ofN, NilZero.string_of_uint.
  destruct (N.to_uint n) eqn:E;
    try (rewrite uintChars_string; split; [reflexivity | discriminate]).
  destruct n as [|p]; [discriminate|].
  unfold N.to_uint in E. pose proof (DecimalPos.Unsigned.to_uint_nonnil p). done.
Qed.

Lemma uintChars_digits d : forallb isDigit (uintChars d) = true.
Proof. induction d; simpl; rewrite ?IHd; reflexivity. Qed.

Lemma digitsVal_pos d p :
  digitsVal (Zpos p) (uintChars d) = Zpos (Pos.of_uint_acc d p).
Proof.
  revert p. induction d; intros p; cbn [uintChars digitsVal Pos.of_uint_acc];
    try reflexivity; rewrite <- IHd; f_equal; lia.
Qed.

Lemma digitsVal_uint d : digitsVal 0 (uintChars d) = Z.of_N (Pos.of_uint d).
Proof.
  induction d; cbn [uintChars digitsVal Pos.of_uint]; try reflexivity;
    try exact IHd; cbn [Z.of_N]; rewrite <- digitsVal_pos; f_equal.
Qed.

Lemma digitsVal_ofN n : digitsVal 0 (ofN n) = Z.of_N n.
Proof.
  rewrite (proj1 (ofN_uintChars n)), digitsVal_uint.
  change (Pos.of_uint (N.to_uint n)) with (N.of_uint (N.to_uint n)).
  by rewrite DecimalN.Unsigned.of_to.
Qed.

Lemma ofN_digits n : forallb isDigit (ofN n) = true.
Proof. rewrite (proj1 (ofN_uintChars n)). apply uintChars_digits. Qed.

Lemma isDigit_not_white c : isDigit c = true -> isWhite c = false.
Proof.
  unfold isDigit, isWhite. rewrite andb_true_iff, !N.leb_le. intros [H1 H2].
  repeat (apply orb_false_iff; split);
    rewrite ?andb_false_iff, ?N.leb_gt, ?N.eqb_neq; lia.
Qed.

Lemma trimStart_head c s : isWhite c = false -> trimStart (c :: s) = c :: s.
Proof. intros H. simpl. by rewrite H. Qed.

(** [trim] leaves a string alone whose first and last characters are not
    white space. *)
Lemma trim_ends c s d :
  isWhite c = false -> isWhite d = false ->
  trim (c :: s ++ [d]) = c :: s ++ [d].
Proof.
  intros Hc Hd. unfold trim, trimEnd. rewrite trimStart_head by done.
  replace (rev (c :: s ++ [d])) with (d :: rev (c :: s))
    by (simpl; rewrite rev_app_distr; reflexivity).
  rewrite trimStart_head by done.
  change (rev (d :: rev (c :: s))) with (rev (rev (c :: s)) ++ [d]).
  by rewrite rev_involutive.
Qed.

Lemma trim_nowhite s : forallb (fun c => negb (isWhite c)) s = true -> trim s = s.
Proof.
  intros H. destruct s as [|c s]; [reflexivity|].
  destruct (exists_last (l := c :: s) ltac:(discriminate)) as (s' & d & E).
  destruct s' as [|c' s'].
  - simpl in E. inversion E; subst. simpl in H. rewrite andb_true_r in H.
    apply negb_true_iff in H. unfold trim, trimEnd. simpl. rewrite H. simpl.
    by rewrite H.
  - simpl in E. inversion E; subst. rewrite forallb_forall in H.
    apply trim_ends.
    + apply negb_true_iff, H. by left.
    + apply negb_true_iff, H. right. apply in_or_app. right. by left.
Qed.

Lemma filter_all {A} (f : A -> bool) l :
  forallb f l = true -> List.filter f l = l.
Proof.
  induction l as [|x l IH]; simpl; [done|]. intros H.
  apply andb_true_iff in H as [-> H]. by rewrite IH.
Qed.

Lemma spanDigits_all s : forallb isDigit s = true -> spanDigits s = (s, []).
Proof.
  induction s as [|c s IH]; simpl; [done|]. intros H.
  apply andb_true_iff in H as [-> H]. by rewrite IH.
Qed.

Lemma spanDigits_split s :
  s = fst (spanDigits s) ++ snd (spanDigits s)
  /\ forallb isDigit (fst (spanDigits s)) = true.
Proof.
  induction s as [|c s [IH1 IH2]]; simpl; [done|].
  destruct (isDigit c) eqn:E; [|done].
  destruct (spanDigits s) as [a b]. simpl in *. rewrite E, IH2.
  split; [by f_equal | done].
Qed.

Lemma forallb_weaken {A} (f g : A -> bool) l :
  (forall x, f x = true -> g x = true) -> forallb f l = true -> forallb g l = true.
Proof.
  intros Hfg. rewrite !forallb_forall. intros H x Hx. by apply Hfg, H.
Qed.

Lemma forallb_rev {A} (f : A -> bool) l : forallb f (rev l) = forallb f l.
Proof.
  apply eq_true_iff_eq. rewrite !forallb_forall.
  split; intros H x Hx; apply H; [by apply in_rev in Hx | by apply in_rev].
Qed.

Lemma toNumber_digits (ds : list N) :
  ds <> [] -> forallb isDigit ds = true ->
  toNumber (CStr ds) = Some (inject_Z (digitsVal 0 ds)).
Proof.
  intros Hne Hd. unfold toNumber.
  rewrite trim_nowhite
    by (eapply forallb_weaken; [|exact Hd]; intros x Hx;
        by rewrite isDigit_not_white).
  destruct ds as [|c ds']; [done|]. cbn [nonEmpty].
  rewrite filter_all
    by (eapply forallb_weaken; [|exact Hd]; intros x ->; done).
  cbn [nonEmpty]. unfold parseDecimal.
  assert (Hc : isDigit c = true) by (simpl in Hd; by apply andb_true_iff in Hd as [? _]).
  assert (c <> 45%N) by (intros ->; discriminate).
  destruct c as [|p]; [discriminate|].
  assert (Hspan := spanDigits_all (Npos p :: ds') Hd).
  do 6 (destruct p as [p|p|]; try discriminate; try (rewrite Hspan; reflexivity)).
Qed.

Lemma ofN_nonwhite n : forallb (fun c => negb (isWhite c)) (ofN n) = true.
Proof.
  eapply forallb_weaken; [|apply ofN_digits].
  intros x Hx. by rewrite isDigit_not_white.
Qed.

Lemma ofZ_nonwhite z :
  forallb (fun c => negb (isWhite c)) (ofZ z) = true /\ ofZ z <> [].
Proof.
  destruct z as [|p|p]; cbn [ofZ].
  - split; [apply ofN_nonwhite | apply ofN_uintChars].
  - split; [apply ofN_nonwhite | apply ofN_uintChars].
  - split; [|discriminate]. cbn [forallb].
    change (negb (isWhite 45)) with true. apply (ofN_nonwhite (Npos p)).
Qed.

Lemma isEmptyCell_num z : isEmptyCell (CNum z) = false.
Proof.
  unfold isEmptyCell, strTrim. cbn [str].
  rewrite trim_nowhite by apply ofZ_nonwhite.
  destruct (ofZ z) eqn:E; [by apply ofZ_nonwhite in E | done].
Qed.

(** X1: a numeric cell that holds a safe integer (at most 2^53 in absolute
    value, so that [String] writes its digits) and the text [String] makes
    of it parse to the same number, and neither is an empty cell. *)
Theorem toNumber_of_rendering (z : Z) :
  safeInteger z = true ->
  toNumber (CStr (str (CNum z))) = Some (inject_Z z)
  /\ toNumber (CNum z) = Some (inject_Z z)
  /\ isEmptyCell (CNum z) = false
  /\ isEmptyCell (CStr (str (CNum z))) = false.
Proof.
  intros _.
  assert (Hs : toNumber (CStr (str (CNum z))) = Some (inject_Z z)).
  { cbn [str]. destruct z as [|p|p]; cbn [ofZ].
    - rewrite toNumber_digits; [|apply ofN_uintChars | apply ofN_digits].
      by rewrite digitsVal_ofN.
    - rewrite toNumber_digits; [|apply ofN_uintChars | apply ofN_digits].
      by rewrite digitsVal_ofN.
    - unfold toNumber.
      rewrite trim_nowhite by apply (ofZ_nonwhite (Zneg p)).
      cbn [nonEmpty List.filter]. change (isDigit 45 || (45 =? 46)%N || (45 =? 45)%N) with true.
      cbn iota. rewrite filter_all
        by (eapply forallb_weaken; [|apply ofN_digits]; intros x ->; done).
      cbn [nonEmpty]. unfold parseDecimal.
      rewrite (spanDigits_all _ (ofN_digits (Npos p))).
      destruct (ofN (Npos p)) as [|c ds] eqn:E;
        [by apply (proj2 (ofN_uintChars (Npos p))) in E|].
      cbn [nonEmpty]. rewrite <- E, digitsVal_ofN. reflexivity. }
  split; [done|]. split; [done|]. split; apply isEmptyCell_num.
Qed.

(** A negative score reads back from its text. *)
Lemma toNumber_of_rendering_neg :
  toNumber (CStr (str (CNum (-17)))) = Some (inject_Z (-17)).
Proof.
  apply (toNumber_of_rendering (-17)). reflexivity.
Defined.

Lemma elem_of_trimStart x s : x ∈ trimStart s -> x ∈ s.
Proof.
  induction s as [|c s IH]; simpl; [done|].
  destruct (isWhite c); [|done]. intros H. right. by apply IH.
Qed.

Lemma elem_of_trim x s : x ∈ trim s -> x ∈ s.
Proof.
  unfold trim, trimEnd. intros H. apply elem_of_trimStart.
  apply list_elem_of_In, in_rev, list_elem_of_In, elem_of_trimStart in H.
  by apply list_elem_of_In, in_rev, list_elem_of_In in H.
Qed.

Lemma parseDecimal_digit s q :
  parseDecimal s = Some q -> exists d, d ∈ s /\ isDigit d = true.
Proof.
  unfold parseDecimal.
  set (body := match s with 45%N :: t => t | _ => s end).
  assert (Hb : forall d, d ∈ body -> d ∈ s).
  { subst body. intros d Hd. destruct s as [|c t]; [done|].
    destruct c as [|p]; [done|].
    do 6 (destruct p as [p|p|]; try done). by right. }
  replace (let '(neg, body0) := match s with
                                | 45%N :: t => (true, t)
                                | _ => (false, s)
                                end in _)
    with (let '(ip, rest) := spanDigits body in
          let sign (q : Q) : Q :=
            if (match s with 45%N :: _ => true | _ => false end)
            then Qopp q else q in
          match rest with
          | [] => if nonEmpty ip then Some (sign (inject_Z (digitsVal 0 ip)))
                  else None
          | 46%N :: fp =>
              if forallb isDigit fp && (nonEmpty ip || nonEmpty fp)
              then Some (sign (Qmake (digitsVal (digitsVal 0 ip) fp)
                                     (Z.to_pos (10 ^ Z.of_nat (length fp)))))
              else None
          | _ => None
          end).
  2: { subst body. destruct s as [|c t]; [done|]. destruct c as [|p]; [done|].
       do 6 (destruct p as [p|p|]; try done). }
  destruct (spanDigits_split body) as [Hsplit Hdig].
  destruct (spanDigits body) as [ip rest]. simpl in Hsplit, Hdig.
  assert (Hip : nonEmpty ip = true -> exists d, d ∈ s /\ isDigit d = true).
  { destruct ip as [|d ip']; [done|]. intros _. exists d. split.
    - apply Hb. rewrite Hsplit. by left.
    - simpl in Hdig. by apply andb_true_iff in Hdig as [? _]. }
  destruct rest as [|c fp].
  - destruct (nonEmpty ip); [intros _; by apply Hip | done].
  - destruct c as [|p]; [done|].
    do 6 (destruct p as [p|p|]; try done).
    destruct (forallb isDigit fp) eqn:Hfp; [|done]. simpl.
    destruct (nonEmpty ip) eqn:Ei; [intros _; by apply Hip|]. simpl.
    destruct fp as [|d fp']; [done|]. intros _. exists d. split.
    + apply Hb. rewrite Hsplit. apply elem_of_app. right. right. by left.
    + simpl in Hfp. by apply andb_true_iff in Hfp as [? _].
Qed.

(** X2: text parses as a number only if it holds a digit, and whatever
    parses as a number is not an empty cell. *)
Theorem toNumber_needs_digit (v : Cell) (q : Q) :
  toNumber v = Some q ->
  isEmptyCell v = false
  /\ (forall s, v = CStr s -> exists d, d ∈ s /\ isDigit d = true).
Proof.
  intros H. split.
  - destruct v as [| |z|s]; try done.
    + apply isEmptyCell_num.
    + unfold toNumber in H. unfold isEmptyCell, strTrim. cbn [str].
      destruct (nonEmpty (trim s)); done.
  - intros s ->. unfold toNumber in H.
    destruct (nonEmpty (trim s)); [|done].
    destruct (nonEmpty (List.filter _ _)); [|done].
    apply parseDecimal_digit in H as (d & Hd & Hdig).
    exists d. split; [|done].
    apply list_elem_of_In, filter_In in Hd as [Hd _].
    by apply elem_of_trim, list_elem_of_In.
Qed.

(** A score written with its unit parses, and holds a digit. *)
Lemma toNumber_with_unit :
  isEmptyCell (txt "85分") = false
  /\ (forall s, txt "85分" = CStr s -> exists d, d ∈ s /\ isDigit d = true).
Proof.
  apply (toNumber_needs_digit (txt "85分") (inject_Z 85)).
  vm_compute. reflexivity.
Defined.

(* ===================================================================== *)
(** ** Column letters *)
(* ===================================================================== *)

Lemma colLetterLoop_app fuel x s :
  colLetterLoop fuel x s = colLetterLoop fuel x [] ++ s.
Proof.
  revert x s. induction fuel as [|f IH]; intros x s; simpl; [done|].
  destruct (0 <? x); [|done].
  rewrite IH. rewrite (IH _ [_]). by rewrite <- app_assoc.
Qed.

Lemma colLetter_unfold x :
  0 < x ->
  colLetterLoop x x [] =
    colLetterLoop ((x - 1) / 26) ((x - 1) / 26) []
      ++ [N.of_nat (65 + (x - 1) mod 26)].
Proof.
  intros Hx. destruct x as [|x]; [lia|]. cbn [colLetterLoop].
  replace (0 <? S x) with true by (symmetry; apply Nat.ltb_lt; lia).
  rewrite colLetterLoop_app. f_equal.
  apply colLetterLoop_fuel.
  replace (S x - 1) with x by lia. apply Nat.Div0.div_le_upper_bound. lia.
Qed.

Lemma colLetterLoop_zero : colLetterLoop 0 0 [] = [].
Proof. reflexivity. Qed.

Lemma decodeCol_snoc s ch : decodeCol (s ++ [ch]) = 26 * decodeCol s + (N.to_nat ch - 64).
Proof. unfold decodeCol. by rewrite foldl_app. Qed.

Lemma colLetterLoop_spec x :
  decodeCol (colLetterLoop x x []) = x
  /\ Forall (fun ch => (65 <= ch <= 90)%N) (colLetterLoop x x [])
  /\ (0 < x -> colLetterLoop x x [] <> []).
Proof.
  induction x as [x IH] using lt_wf_ind.
  destruct (Nat.eq_dec x 0) as [->|Hx].
  - split; [reflexivity|]. split; [constructor | lia].
  - rewrite colLetter_unfold by lia.
    assert (Hq : (x - 1) / 26 < x).
    { apply Nat.le_lt_trans with (x - 1); [|lia].
      apply Nat.Div0.div_le_upper_bound. lia. }
    destruct (IH _ Hq) as (Hd & Hl & _).
    pose proof (Nat.mod_upper_bound (x - 1) 26 ltac:(lia)) as Hm.
    split; [|split].
    + rewrite decodeCol_snoc, Hd, Nat2N.id.
      pose proof (Nat.div_mod_eq (x - 1) 26). lia.
    + apply Forall_app. split; [done|]. constructor; [lia | constructor].
    + intros _ E. by apply app_eq_nil in E as [_ ?].
Qed.

(** X3: the column letters of [colLetter] are upper-case letters that read
    back, in bijective base 26, as the column index plus one; so different
    columns get different letters. *)
Theorem colLetter_roundtrip :
  (forall n, decodeCol (colLetter n) = n + 1)
  /\ (forall n, colLetter n <> []
                /\ Forall (fun ch => (65 <= ch <= 90)%N) (colLetter n))
  /\ (forall n m, colLetter n = colLetter m -> n = m).
Proof.
  assert (H : forall n, decodeCol (colLetter n) = n + 1)
    by (intros n; apply colLetterLoop_spec).
  split; [exact H|]. split.
  - intros n. unfold colLetter.
    destruct (colLetterLoop_spec (n + 1)) as (_ & Hl & Hne).
    split; [apply Hne; lia | done].
  - intros n m E. apply (f_equal decodeCol) in E. rewrite !H in E. lia.
Qed.

(* ===================================================================== *)
(** ** Columns and rows of a block *)
(* ===================================================================== *)

Lemma spanDigits_app a x r :
  forallb isDigit a = true -> isDigit x = false ->
  spanDigits (a ++ x :: r) = (a, x :: r).
Proof.
  intros Ha Hx. induction a as [|c a IH]; simpl.
  - by rewrite Hx.
  - simpl in Ha. apply andb_true_iff in Ha as [-> Ha]. by rewrite IH.
Qed.

Lemma keyIndex_key kb c :
  keyIndex (kb ++ js "__" ++ ofNat c) = Z.of_nat c.
Proof.
  unfold keyIndex. change (js "__") with [95%N; 95%N].
  replace (rev (kb ++ [95%N; 95%N] ++ ofNat c))
    with (rev (ofNat c) ++ 95%N :: (95%N :: rev kb))
    by (rewrite !rev_app_distr; simpl; by rewrite <- app_assoc).
  rewrite spanDigits_app; [| by rewrite forallb_rev; apply ofN_digits | done].
  cbn [fst]. rewrite rev_involutive. unfold ofNat.
  rewrite digitsVal_ofN. lia.
Qed.

Lemma makeColumn_keyIndex headers c :
  keyIndex (key (makeColumn headers c)) = Z.of_nat c
  /\ colIndex (makeColumn headers c) = c.
Proof. split; [apply keyIndex_key | reflexivity]. Qed.

Lemma makeUniqueColumns_props (headers : list (list N)) (start end_ : nat) :
  let cols := makeUniqueColumns headers start end_ in
  NoDup (map key cols)
  /\ map colIndex cols = seq start (S end_ - start)
  /\ Forall (fun c => keyIndex (key c) = Z.of_nat (colIndex c)) cols.
Proof.
  unfold makeUniqueColumns, fromTo. split; [|split].
  - rewrite map_map. apply NoDup_fmap_2_strong; [|apply NoDup_seq].
    intros x y _ _ E. apply (f_equal keyIndex) in E.
    rewrite !(proj1 (makeColumn_keyIndex _ _)) in E. lia.
  - rewrite map_map. simpl. apply map_id.
  - apply Forall_forall. intros c Hc.
    apply list_elem_of_fmap in Hc as (i & -> & _).
    by rewrite (proj1 (makeColumn_keyIndex _ _)).
Qed.

(** Building one row object. *)
Lemma buildRow_spec (cols : list ParsedColumn) (row : list Cell) :
  NoDup (map key cols) ->
  let '(anyVal, obj) := buildRow cols row in
  anyVal = existsb (fun c => negb (isEmptyCell (getIdx row (colIndex c)))) cols
  /\ (forall c, c ∈ cols -> obj !! key c = Some (getIdx row (colIndex c)))
  /\ (forall k, k ∉ map key cols -> obj !! k = None).
Proof.
  unfold buildRow. induction cols as [|c cols IH] using rev_ind; intros Hnd.
  - simpl. split; [done|]. split; [|done].
    intros c Hc. by apply not_elem_of_nil in Hc.
  - rewrite foldl_app. cbn [foldl].
    rewrite map_app in Hnd. apply NoDup_app in Hnd as (Hnd & Hdis & _).
    specialize (IH Hnd). destruct (foldl _ _ cols) as [anyVal obj].
    destruct IH as (Ha & Hget & Hnone). split; [|split].
    + rewrite existsb_app. simpl. rewrite orb_false_r. by rewrite Ha.
    + intros c' Hc'. apply elem_of_app in Hc' as [Hc'|Hc'].
      * rewrite lookup_insert_ne; [by apply Hget|].
        intros E. apply (Hdis (key c')).
        -- by apply (list_elem_of_fmap_2 key).
        -- rewrite <- E. by left.
      * apply list_elem_of_singleton in Hc' as ->. by rewrite lookup_insert_eq.
    + intros k Hk. rewrite map_app in Hk.
      rewrite lookup_insert_ne.
      * apply Hnone. intros Hin. apply Hk, elem_of_app. by left.
      * intros <-. apply Hk, elem_of_app. right. by left.
Qed.

Lemma omap_length_le {A B} (f : A -> option B) (l : list A) :
  length (omap f l) <= length l.
Proof.
  induction l as [|x l IH]; [done|]. cbn [omap list_omap].
  fold (omap f l). destruct (f x); cbn [length]; lia.
Qed.

Lemma buildRows_props (cols : list ParsedColumn) (view : list (list Cell))
    (dataStartRow : nat) :
  NoDup (map key cols) ->
  (forall r, r ∈ buildRows cols view dataStartRow ->
     exists i, dataStartRow <= i < length view
       /\ rowOf cols (getRow view i) r
       /\ rowHasValue cols (getRow view i) = true
       /\ exists c, c ∈ cols /\ isEmptyCell (getProp r (key c)) = false)
  /\ (forall i, dataStartRow <= i < length view ->
        rowHasValue cols (getRow view i) = true ->
        exists r, r ∈ buildRows cols view dataStartRow
                  /\ rowOf cols (getRow view i) r)
  /\ length (buildRows cols view dataStartRow) <= length view - dataStartRow.
Proof.
  intros Hnd. unfold buildRows. split; [|split].
  - intros r Hr. apply list_elem_of_omap in Hr as (i & Hi & Hsome).
    apply list_elem_of_In, in_seq in Hi.
    pose proof (buildRow_spec cols (getRow view i) Hnd) as Hspec.
    destruct (buildRow cols (getRow view i)) as [anyVal obj].
    destruct Hspec as (Ha & Hget & _).
    destruct anyVal; [|done]. inversion Hsome; subst. clear Hsome.
    exists i. split; [lia|].
    assert (Hrow : rowOf cols (getRow view i) r).
    { intros c Hc. unfold getProp. by rewrite (Hget c Hc). }
    split; [done|]. split; [done|].
    symmetry in Ha. apply existsb_exists in Ha as (c & Hc & Hv).
    exists c. apply list_elem_of_In in Hc. split; [done|].
    rewrite (Hrow c Hc). by apply negb_true_iff.
  - intros i Hi Hv.
    pose proof (buildRow_spec cols (getRow view i) Hnd) as Hspec.
    destruct (buildRow cols (getRow view i)) as [anyVal obj] eqn:E.
    destruct Hspec as (Ha & Hget & _).
    exists obj. split.
    + apply list_elem_of_omap. exists i. split.
      * apply list_elem_of_In, in_seq. lia.
      * rewrite E. unfold rowHasValue in Hv. rewrite Ha, Hv. done.
    + intros c Hc. unfold getProp. by rewrite (Hget c Hc).
  - etransitivity; [apply omap_length_le|]. by rewrite length_seq.
Qed.

(** X4: the keys [makeUniqueColumns] builds end with the column index, which
    reads back from them; so the keys of a block are pairwise distinct,
    whatever the header texts, and there is one column per index of the
    range, in order. *)
Theorem makeUniqueColumns_keys (headers : list (list N)) (start end_ : nat) :
  let cols := makeUniqueColumns headers start end_ in
  NoDup (map key cols)
  /\ map colIndex cols = seq start (S end_ - start)
  /\ Forall (fun c => keyIndex (key c) = Z.of_nat (colIndex c)) cols.
Proof. exact (makeUniqueColumns_props headers start end_). Qed.

(** X5: the rows of a block are exactly the data rows of the view that have
    a non-empty cell in one of the block's columns: each row object holds,
    under every column key, the cell of that column; fully empty rows are
    left out, no other row is. *)
Theorem buildRows_spec (cols : list ParsedColumn) (view : list (list Cell))
    (dataStartRow : nat) :
  NoDup (map key cols) ->
  (forall r, r ∈ buildRows cols view dataStartRow ->
     exists i, dataStartRow <= i < length view
       /\ rowOf cols (getRow view i) r
       /\ rowHasValue cols (getRow view i) = true
       /\ exists c, c ∈ cols /\ isEmptyCell (getProp r (key c)) = false)
  /\ (forall i, dataStartRow <= i < length view ->
        rowHasValue cols (getRow view i) = true ->
        exists r, r ∈ buildRows cols view dataStartRow
                  /\ rowOf cols (getRow view i) r)
  /\ length (buildRows cols view dataStartRow) <= length view - dataStartRow.
Proof. exact (buildRows_props cols view dataStartRow). Qed.

(** The three data rows of the roster. *)
Lemma buildRows_roster :
  length (buildRows (makeUniqueColumns rosterHeaders 0 2) rosterGrid 1) <= 3.
Proof.
  apply (buildRows_spec (makeUniqueColumns rosterHeaders 0 2) rosterGrid 1).
  apply (bool_decide_unpack _). vm_compute. exact I.
Defined.

(* ===================================================================== *)
(** ** Block ranges *)
(* ===================================================================== *)

Lemma skipCuts_spec cuts W fuel c :
  c <= W -> W - c <= fuel ->
  let c' := skipCuts cuts W fuel c in
  c <= c' <= W /\ (forall x, c <= x < c' -> x ∈ cuts) /\ (c' = W \/ c' ∉ cuts).
Proof.
  revert c. induction fuel as [|f IH]; intros c Hc Hf; simpl.
  - split; [lia|]. split; [intros; lia | left; lia].
  - destruct (Nat.ltb_spec c W) as [Hlt|Hge]; simpl.
    + destruct (bool_decide (c ∈ cuts)) eqn:D.
      * apply bool_decide_eq_true in D.
        destruct (IH (S c) ltac:(lia) ltac:(lia)) as (H1 & H2 & H3).
        split; [lia|]. split; [|done].
        intros x Hx. destruct (decide (x = c)) as [->|]; [done|].
        apply H2. lia.
      * apply bool_decide_eq_false in D.
        split; [lia|]. split; [intros; lia | by right].
    + split; [lia|]. split; [intros; lia | left; lia].
Qed.

Lemma StronglySorted_snoc {A} (R : A -> A -> Prop) l x :
  StronglySorted R l -> Forall (fun y => R y x) l -> StronglySorted R (l ++ [x]).
Proof.
  induction 1 as [|y l Hs IH Hy]; intros Hall; simpl.
  - repeat constructor.
  - apply Forall_cons in Hall as [Hyx Hall]. constructor; [by apply IH|].
    apply Forall_app. split; [done | by constructor].
Qed.

Lemma splitInv_push cuts W c start ranges :
  c < W -> c ∈ cuts -> splitInv cuts W c start ranges ->
  forall c', c < c' <= W -> (forall x, c <= x < c' -> x ∈ cuts) ->
  splitInv cuts W c' c'
    (if start <? c then ranges ++ [(start, c - 1)] else ranges).
Proof.
  intros Hc Hcut (Hb & Hfree & Hstart & Hiff & Hsort) c' Hc' Hrun.
  assert (Hnew : start < c -> maxRun cuts W start (c - 1)).
  { intros Hlt. split; [lia|]. split; [lia|]. split.
    - intros x Hx. apply Hfree. lia.
    - split; [done|]. right. by replace (c - 1 + 1) with c by lia. }
  assert (Hbetween : forall s e, maxRun cuts W s e -> start <= e -> e < c' ->
                                 s = start /\ e = c - 1 /\ start < c).
  { intros s e (H1 & H2 & H3 & H4 & H5) Hse Hec.
    assert (e < c).
    { destruct (Nat.lt_ge_cases e c) as [|Hge]; [done|].
      exfalso. apply (H3 e); [lia | apply Hrun; lia]. }
    assert (e + 1 = c).
    { destruct (Nat.eq_dec (e + 1) c) as [|Hne]; [done|]. exfalso.
      destruct H5 as [H5|H5]; [lia|]. apply (Hfree (e + 1)); [lia | done]. }
    assert (s = start).
    { destruct (Nat.lt_trichotomy s start) as [Hl|[|Hg]]; [|done|].
      - exfalso. destruct Hstart as [|Hs]; [lia|].
        apply (H3 (start - 1)); [lia | done].
      - exfalso. destruct H4 as [|H4]; [lia|].
        apply (Hfree (s - 1)); [lia | done]. }
    lia. }
  split; [lia|]. split; [intros; lia|]. split.
  { right. apply Hrun. lia. }
  split.
  - intros s e. destruct (Nat.ltb_spec start c) as [Hlt|Hge].
    + rewrite elem_of_app, list_elem_of_singleton, Hiff. split.
      * intros [[Hm He]|E]; [split; [done | lia]|].
        inversion E; subst. split; [by apply Hnew | lia].
      * intros [Hm He]. destruct (Nat.lt_ge_cases e start) as [|Hse]; [by left|].
        right. destruct (Hbetween s e Hm Hse He) as (-> & -> & _). done.
    + rewrite Hiff. split.
      * intros [Hm He]. split; [done | lia].
      * intros [Hm He]. split; [done|].
        destruct (Nat.lt_ge_cases e start) as [|Hse]; [done|].
        destruct (Hbetween s e Hm Hse He) as (_ & _ & ?). lia.
  - destruct (Nat.ltb_spec start c) as [Hlt|Hge]; [|done].
    apply StronglySorted_snoc; [done|]. apply Forall_forall. intros [s e] Hin.
    apply Hiff in Hin as [_ He]. simpl. lia.
Qed.

Lemma splitLoop_inv cuts W fuel c start ranges :
  W - c <= fuel -> splitInv cuts W c start ranges ->
  let '(start', ranges') := splitLoop cuts W fuel c start ranges in
  splitInv cuts W W start' ranges'.
Proof.
  revert c start ranges. induction fuel as [fuel IH] using lt_wf_ind.
  intros c start ranges Hf Hinv.
  assert (Hc : c <= W) by (destruct Hinv as [? _]; lia).
  destruct fuel as [|f].
  - simpl. assert (c = W) as -> by lia. exact Hinv.
  - cbn [splitLoop]. destruct (Nat.ltb_spec c W) as [Hlt|Hge].
    + destruct (bool_decide (c ∈ cuts)) eqn:D.
      * apply bool_decide_eq_true in D.
        destruct (skipCuts_spec cuts W (W - c) c Hc ltac:(lia)) as (H1 & H2 & _).
        pose proof (skipCuts_step cuts W (W - c) c Hlt D ltac:(lia)) as Hs.
        apply (IH f); [lia | lia|].
        apply (splitInv_push cuts W c start ranges Hlt D Hinv); [lia | done].
      * apply bool_decide_eq_false in D.
        apply (IH f); [lia | lia|].
        destruct Hinv as (Hb & Hfree & Hstart & Hiff & Hsort).
        split; [lia|]. split; [|done].
        intros x Hx. destruct (decide (x = c)) as [->|]; [done|].
        apply Hfree. lia.
    + assert (c = W) as -> by lia. exact Hinv.
Qed.

Lemma StronglySorted_filter {A} (R : A -> A -> Prop) (f : A -> bool) l :
  StronglySorted R l -> StronglySorted R (List.filter f l).
Proof.
  induction 1 as [|x l Hs IH Hx]; simpl; [constructor|].
  destruct (f x); [|done]. constructor; [done|].
  apply Forall_forall. intros y Hy.
  apply list_elem_of_In, filter_In in Hy as [Hy _].
  rewrite Forall_forall in Hx. by apply Hx, list_elem_of_In.
Qed.

Lemma splitBlocks_props (view : list (list Cell)) (headers : list (list N)) :
  let W := length headers in
  let sep c := isSeparatorCol view c 2 in
  (forall s e, (s, e) ∈ splitBlocks view headers <->
     3 <= e - s + 1 /\ s <= e /\ e < W
     /\ (forall c, s <= c <= e -> sep c = false)
     /\ (s = 0 \/ sep (s - 1) = true)
     /\ (e + 1 = W \/ sep (e + 1) = true))
  /\ StronglySorted (fun a b => snd a < fst b) (splitBlocks view headers).
Proof.
  intros W sep. unfold splitBlocks. fold W.
  set (cuts := List.filter (fun c => isSeparatorCol view c 2) (seq 0 W)).
  assert (Hcuts : forall c, c ∈ cuts <-> c < W /\ sep c = true).
  { intros c. subst cuts. rewrite list_elem_of_In, filter_In, in_seq. subst sep.
    simpl. split; intros [? ?]; split; try done; lia. }
  assert (Hinit : splitInv cuts W 0 0 []).
  { split; [lia|]. split; [intros; lia|]. split; [by left|]. split.
    - intros s e. split; [intros H; by apply not_elem_of_nil in H | lia].
    - constructor. }
  pose proof (splitLoop_inv cuts W W 0 0 [] ltac:(lia) Hinit) as Hfin.
  destruct (splitLoop cuts W W 0 0 []) as [start ranges].
  destruct Hfin as (Hb & Hfree & Hstart & Hiff & Hsort).
  set (all := if start <? W then ranges ++ [(start, W - 1)] else ranges).
  assert (Hall : forall s e, (s, e) ∈ all <-> maxRun cuts W s e).
  { intros s e. subst all. destruct (Nat.ltb_spec start W) as [Hlt|Hge].
    - rewrite elem_of_app, list_elem_of_singleton, Hiff. split.
      + intros [[Hm _]|E]; [done|]. inversion E; subst.
        split; [lia|]. split; [lia|]. split; [intros x Hx; apply Hfree; lia|].
        split; [done | left; lia].
      + intros Hm. destruct (Nat.lt_ge_cases e start) as [|Hse]; [by left|].
        right. destruct Hm as (H1 & H2 & H3 & H4 & H5).
        assert (e + 1 = W).
        { destruct H5 as [|H5]; [done|]. exfalso.
          destruct (proj1 (Hcuts _) H5) as [? _].
          apply (Hfree (e + 1)); [lia | exact H5]. }
        assert (s = start).
        { destruct (Nat.lt_trichotomy s start) as [Hl|[|Hg]]; [|done|].
          - exfalso. destruct Hstart as [|Hs]; [lia|].
            apply (H3 (start - 1)); [lia | done].
          - exfalso. destruct H4 as [|H4]; [lia|].
            apply (Hfree (s - 1)); [lia | done]. }
        subst. f_equal. lia.
    - rewrite Hiff. split; [by intros [? _]|]. intros Hm. split; [done|].
      destruct Hm as (_ & ? & _). lia. }
  assert (Hsall : StronglySorted (fun a b => snd a < fst b) all).
  { subst all. destruct (Nat.ltb_spec start W) as [Hlt|Hge]; [|done].
    apply StronglySorted_snoc; [done|]. apply Forall_forall. intros [s e] Hin.
    apply Hiff in Hin as [_ He]. simpl. lia. }
  split; [|by apply StronglySorted_filter].
  intros s e. rewrite list_elem_of_In, filter_In, <- list_elem_of_In, Hall.
  cbn [fst snd]. rewrite Nat.leb_le. unfold maxRun. split.
  - intros [(H1 & H2 & H3 & H4 & H5) Hw]. split; [done|]. split; [done|].
    split; [done|]. split; [|split].
    + intros c Hc. destruct (sep c) eqn:E; [|done]. exfalso.
      apply (H3 c Hc). apply Hcuts. split; [lia | done].
    + destruct H4 as [|H4]; [by left|]. right. by apply Hcuts in H4 as [_ ?].
    + destruct H5 as [|H5]; [by left|]. right. by apply Hcuts in H5 as [_ ?].
  - intros (Hw & H1 & H2 & H3 & H4 & H5). split; [|done].
    split; [done|]. split; [done|]. split; [|split].
    + intros c Hc Hin. apply Hcuts in Hin as [_ Hin].
      rewrite (H3 c Hc) in Hin. done.
    + destruct H4 as [|H4]; [by left|]. right. apply Hcuts. split; [lia | done].
    + destruct H5 as [|H5]; [by left|].
      destruct (Nat.eq_dec (e + 1) W) as [|Hne]; [by left|].
      right. apply Hcuts. split; [lia | done].
Qed.

(** X6: [splitBlocks] returns exactly the maximal runs of non-separator
    columns that are at least 3 wide, from left to right. *)
Theorem splitBlocks_spec (view : list (list Cell)) (headers : list (list N)) :
  let W := length headers in
  let sep c := isSeparatorCol view c 2 in
  (forall s e, (s, e) ∈ splitBlocks view headers <->
     3 <= e - s + 1 /\ s <= e /\ e < W
     /\ (forall c, s <= c <= e -> sep c = false)
     /\ (s = 0 \/ sep (s - 1) = true)
     /\ (e + 1 = W \/ sep (e + 1) = true))
  /\ StronglySorted (fun a b => snd a < fst b) (splitBlocks view headers).
Proof. exact (splitBlocks_props view headers). Qed.

(* ===================================================================== *)
(** ** Headers and labels *)
(* ===================================================================== *)

Lemma trimStart_app c h t :
  isWhite c = false -> trimStart (h ++ c :: t) = trimStart h ++ c :: t.
Proof.
  intros Hc. induction h as [|x h IH]; simpl.
  - by rewrite Hc.
  - destruct (isWhite x); [exact IH | done].
Qed.

Lemma trimEnd_snoc x d : isWhite d = false -> trimEnd (x ++ [d]) = x ++ [d].
Proof.
  intros Hd. unfold trimEnd. rewrite rev_app_distr. simpl.
  rewrite Hd. simpl. by rewrite rev_involutive.
Qed.

Lemma removeSpaces_trimStart s : removeSpaces (trimStart s) = removeSpaces s.
Proof.
  unfold removeSpaces. induction s as [|x s IH]; simpl; [done|].
  destruct (isWhite x) eqn:E; simpl; [exact IH | by rewrite E].
Qed.

Lemma filter_rev' {A} (f : A -> bool) l :
  List.filter f (rev l) = rev (List.filter f l).
Proof.
  induction l as [|x l IH]; simpl; [done|].
  rewrite List.filter_app, IH. simpl. destruct (f x); simpl; [done|].
  by rewrite app_nil_r.
Qed.

Lemma removeSpaces_trim s : removeSpaces (trim s) = removeSpaces s.
Proof.
  unfold trim, trimEnd.
  transitivity (rev (removeSpaces (trimStart (rev (trimStart s))))).
  { unfold removeSpaces. by rewrite filter_rev'. }
  rewrite removeSpaces_trimStart. unfold removeSpaces at 1.
  rewrite filter_rev', rev_involutive. apply removeSpaces_trimStart.
Qed.

Lemma spanLetters_app a x r :
  forallb isLetter a = true -> isLetter x = false ->
  spanLetters (a ++ x :: r) = (a, x :: r).
Proof.
  intros Ha Hx. induction a as [|c a IH]; simpl.
  - by rewrite Hx.
  - simpl in Ha. apply andb_true_iff in Ha as [-> Ha]. by rewrite IH.
Qed.

(** The column-letter suffix is what the first regular expression of
    [normalizeHeader] removes. *)
Lemma stripColSuffix_label y L :
  L <> [] -> forallb isLetter L = true ->
  stripColSuffix 65288 65289 (y ++ 65288%N :: L ++ [21015%N; 65289%N]) = y.
Proof.
  intros Hne Hl. unfold stripColSuffix.
  replace (rev (y ++ 65288%N :: L ++ [21015%N; 65289%N]))
    with (65289%N :: 21015%N :: (rev L ++ 65288%N :: rev y)).
  2: { rewrite rev_app_distr. simpl. rewrite rev_app_distr. simpl.
       by rewrite <- !app_assoc. }
  cbn [N.eqb Pos.eqb andb].
  rewrite spanLetters_app; [| by rewrite forallb_rev | done].
  assert (nonEmpty (rev L) = true) as ->.
  { destruct L as [|l L]; [done|]. simpl. by destruct (rev L). }
  cbn [N.eqb Pos.eqb andb]. apply rev_involutive.
Qed.

Lemma trimStart_suffix h : exists pre, h = pre ++ trimStart h.
Proof.
  induction h as [|x h [pre IH]]; simpl; [by exists []|].
  destruct (isWhite x); [|by exists []].
  exists (x :: pre). simpl. by f_equal.
Qed.

Lemma stripColSuffix_not_paren s :
  last s <> Some 41%N -> stripColSuffix 40 41 s = s.
Proof.
  intros Hl. unfold stripColSuffix.
  destruct (rev s) as [|c1 [|c2 r]] eqn:E; try done.
  assert (Hs : s = rev (c2 :: r) ++ [c1]).
  { rewrite <- (rev_involutive s), E. reflexivity. }
  rewrite Hs, last_snoc in Hl.
  destruct (N.eqb_spec c1 41) as [->|]; [done|]. done.
Qed.

Lemma colLetter_letters n :
  colLetter n <> [] /\ forallb isLetter (colLetter n) = true.
Proof.
  unfold colLetter. destruct (colLetterLoop_spec (n + 1)) as (_ & Hall & Hne).
  split; [apply Hne; lia|]. apply forallb_forall. intros x Hx.
  rewrite Forall_forall in Hall. apply list_elem_of_In, Hall in Hx.
  unfold isLetter. apply orb_true_iff. left.
  apply andb_true_iff. rewrite !N.leb_le. lia.
Qed.

(** X7: [normalizeHeader] removes again the column-letter suffix that
    [makeUniqueColumns] adds to a label: for a header that does not end
    with a closing parenthesis, the normalised label is the [norm] of the
    header, which is also what the column key starts with. *)
Theorem normalizeHeader_label (headers : list (list N)) (c : nat) (h : list N) :
  headers !! c = Some h -> last h <> Some 41%N ->
  normalizeHeader (label (makeColumn headers c)) = norm h
  /\ (nonEmpty (norm h) = true ->
      key (makeColumn headers c)
      = normalizeHeader (label (makeColumn headers c)) ++ js "__" ++ ofNat c).
Proof.
  intros Hh Hlast.
  assert (E : normalizeHeader (label (makeColumn headers c)) = norm h).
  { unfold makeColumn. cbn [label]. rewrite Hh. cbn [default]. unfold id.
    change (js "（") with [65288%N]. change (js "列）") with [21015%N; 65289%N].
    unfold normalizeHeader, norm.
    assert (Ht : trim (h ++ [65288%N] ++ colLetter c ++ [21015%N; 65289%N])
                 = trimStart h ++ 65288%N :: colLetter c ++ [21015%N; 65289%N]).
    { unfold trim. cbn [app]. rewrite trimStart_app by done.
      replace (trimStart h ++ 65288%N :: colLetter c ++ [21015%N; 65289%N])
        with ((trimStart h ++ 65288%N :: colLetter c ++ [21015%N]) ++ [65289%N])
        by (rewrite <- !app_assoc; cbn [app]; by rewrite <- !app_assoc).
      by apply trimEnd_snoc. }
    rewrite Ht.
    rewrite stripColSuffix_label by apply colLetter_letters.
    rewrite stripColSuffix_not_paren.
    - by rewrite removeSpaces_trimStart, removeSpaces_trim.
    - destruct (trimStart_suffix h) as [pre Hpre].
      destruct (trimStart h) as [|x t] eqn:Et; [done|].
      rewrite Hpre in Hlast.
      intros Hl. apply Hlast. rewrite last_app. by rewrite Hl. }
  split; [exact E|]. intros Hne. rewrite E.
  unfold makeColumn. cbn [key]. rewrite Hh. cbn [default]. unfold id.
  by rewrite Hne.
Qed.

(** The label of a column normalises back to its header text. *)
Lemma normalizeHeader_label_name :
  normalizeHeader (label (makeColumn rosterHeaders 0)) = norm (js "姓名").
Proof.
  apply (normalizeHeader_label rosterHeaders 0 (js "姓名")).
  - reflexivity.
  - vm_compute. discriminate.
Defined.

(* ===================================================================== *)
(** ** Forward filling *)
(* ===================================================================== *)

Lemma trimStart_head_ink s :
  match trimStart s with [] => True | c :: _ => isWhite c = false end.
Proof.
  induction s as [|x s IH]; simpl; [done|].
  destruct (isWhite x) eqn:E; [exact IH | exact E].
Qed.

Lemma trimStart_nil_ink s : trimStart s = [] -> hasInk s = false.
Proof.
  induction s as [|x s IH]; simpl; [done|].
  destruct (isWhite x) eqn:E; [|done]. intros H. simpl. by apply IH.
Qed.

Lemma trimStart_fix c s : isWhite c = false -> trimStart (c :: s) = c :: s.
Proof. intros H. simpl. by rewrite H. Qed.

Lemma trimEnd_prefix y : exists suf, y = trimEnd y ++ suf.
Proof.
  unfold trimEnd. destruct (trimStart_suffix (rev y)) as [pre Hpre].
  exists (rev pre). rewrite <- rev_app_distr, <- Hpre. by rewrite rev_involutive.
Qed.

(** The shape of a trimmed string: empty, or with ink at both ends. *)
Lemma trim_shape s :
  trim s = []
  \/ exists c mid d, isWhite c = false /\ isWhite d = false
       /\ (trim s = [c] /\ mid = [] /\ d = c \/ trim s = c :: mid ++ [d]).
Proof.
  unfold trim. set (y := trimStart s).
  pose proof (trimStart_head_ink s) as Hy. fold y in Hy.
  destruct (trimEnd_prefix y) as [suf Hsuf].
  pose proof (trimStart_head_ink (rev y)) as Hr.
  destruct (trimEnd y) as [|c r] eqn:E; [by left|]. right.
  assert (Hc : isWhite c = false).
  { rewrite Hsuf in Hy. exact Hy. }
  unfold trimEnd in E.
  destruct (exists_last (l := c :: r) ltac:(discriminate)) as (r' & d & Er).
  assert (Hd : isWhite d = false).
  { assert (Hrev : trimStart (rev y) = rev (c :: r))
      by (rewrite <- E; by rewrite rev_involutive).
    rewrite Hrev, Er, rev_app_distr in Hr. exact Hr. }
  destruct r' as [|c' r''].
  - simpl in Er. injection Er as -> ->. exists d, [], d. split; [done|].
    split; [done|]. by left.
  - simpl in Er. injection Er as -> ->. exists c', r'', d.
    split; [done|]. split; [done|]. by right.
Qed.

Lemma trim_idem s : trim (trim s) = trim s.
Proof.
  destruct (trim_shape s) as [->|(c & mid & d & Hc & Hd & [(-> & _ & _)| ->])].
  - reflexivity.
  - unfold trim, trimEnd. simpl. rewrite Hc. simpl. by rewrite Hc.
  - by apply trim_ends.
Qed.

Lemma hasInk_trimStart s : hasInk (trimStart s) = hasInk s.
Proof.
  unfold hasInk. induction s as [|x s IH]; simpl; [done|].
  destruct (isWhite x) eqn:E; simpl; [exact IH | by rewrite E].
Qed.

Lemma hasInk_rev s : hasInk (rev s) = hasInk s.
Proof.
  unfold hasInk. apply eq_true_iff_eq. rewrite !existsb_exists.
  split; intros (x & Hx & Hw); exists x; split; try done;
    [by apply in_rev in Hx | by apply -> in_rev].
Qed.

Lemma hasInk_trim s : hasInk (trim s) = hasInk s.
Proof.
  unfold trim, trimEnd.
  by rewrite hasInk_rev, hasInk_trimStart, hasInk_rev, hasInk_trimStart.
Qed.

Lemma trim_nonEmpty_ink s : nonEmpty (trim s) = hasInk s.
Proof.
  rewrite <- hasInk_trim.
  destruct (trim_shape s) as [->|(c & mid & d & Hc & _ & [(-> & _)| ->])].
  - reflexivity.
  - unfold hasInk. simpl. by rewrite Hc.
  - unfold hasInk. simpl. by rewrite Hc.
Qed.

Lemma fillForward_fold arr out last :
  trim last = last ->
  let st := foldl fillStep (out, last) arr in
  length (fst st) = length out + length arr
  /\ map strTrim (fst st) = map strTrim out ++ carried last arr
  /\ (forall i v, arr !! i = Some v -> nonEmpty (strTrim v) = true ->
                  fst st !! (length out + i) = Some v)
  /\ (forall i, i < length out -> fst st !! i = out !! i).
Proof.
  revert out last. induction arr as [|v arr IH]; intros out last Hl; cbn [foldl].
  - simpl. split; [lia|]. split; [by rewrite app_nil_r|]. split; [done|]. done.
  - change (fillStep (out, last) v)
      with (if nonEmpty (strTrim v) then (out ++ [v], strTrim v)
            else (out ++ [CStr last], last)).
    destruct (nonEmpty (strTrim v)) eqn:E.
    + destruct (IH (out ++ [v]) (strTrim v) (trim_idem _)) as (H1 & H2 & H3 & H4).
      rewrite length_app in H1, H3, H4. simpl in H1, H3, H4.
      split; [simpl; lia|]. split; [|split].
      * rewrite H2, map_app. simpl. rewrite E. by rewrite <- app_assoc.
      * intros [|i] w Hw Hne.
        -- simpl in Hw. inversion Hw; subst. rewrite H4 by lia.
           rewrite Nat.add_0_r. by rewrite lookup_app_r, Nat.sub_diag.
        -- simpl in Hw. replace (length out + S i) with (length out + 1 + i) by lia.
           by apply H3.
      * intros i Hi. rewrite H4 by lia. by rewrite lookup_app_l.
    + destruct (IH (out ++ [CStr last]) last Hl) as (H1 & H2 & H3 & H4).
      rewrite length_app in H1, H3, H4. simpl in H1, H3, H4.
      split; [simpl; lia|]. split; [|split].
      * rewrite H2, map_app. simpl. rewrite E.
        unfold strTrim at 2. cbn [str]. rewrite Hl. by rewrite <- app_assoc.
      * intros [|i] w Hw Hne.
        -- simpl in Hw. inversion Hw; subst. congruence.
        -- simpl in Hw. replace (length out + S i) with (length out + 1 + i) by lia.
           by apply H3.
      * intros i Hi. rewrite H4 by lia. by rewrite lookup_app_l.
Qed.

Lemma carried_lookup last arr i :
  i < length arr ->
  (forall k v, k <= i -> arr !! k = Some v -> nonEmpty (strTrim v) = false) ->
  carried last arr !! i = Some last.
Proof.
  revert last i. induction arr as [|v arr IH]; intros last i Hi Hall; [simpl in Hi; lia|].
  simpl. rewrite (Hall 0 v ltac:(lia) eq_refl).
  destruct i as [|i]; [done|]. simpl. apply IH; [simpl in Hi; lia|].
  intros k w Hk Hw. apply (Hall (S k) w); [lia | done].
Qed.

Lemma carried_nearest last arr i j v :
  j <= i -> i < length arr -> arr !! j = Some v ->
  nonEmpty (strTrim v) = true ->
  (forall k w, j < k <= i -> arr !! k = Some w -> nonEmpty (strTrim w) = false) ->
  carried last arr !! i = Some (strTrim v).
Proof.
  revert last i j. induction arr as [|x arr IH]; intros last i j Hji Hi Hj Hv Hgap;
    [simpl in Hi; lia|].
  destruct j as [|j].
  - simpl in Hj. inversion Hj; subst. simpl. rewrite Hv.
    destruct i as [|i]; [done|]. simpl.
    apply carried_lookup; [simpl in Hi; lia|].
    intros k w Hk Hw. apply (Hgap (S k) w); [lia | done].
  - destruct i as [|i]; [lia|]. simpl.
    apply (IH _ i j); [lia | simpl in Hi; lia | done | done|].
    intros k w Hk Hw. apply (Hgap (S k) w); [lia | done].
Qed.

Lemma fillForward_props (arr : list Cell) :
  length (fillForward arr) = length arr
  /\ (forall i v, arr !! i = Some v -> nonEmpty (strTrim v) = true ->
                  fillForward arr !! i = Some v)
  /\ (forall i j v, j <= i -> i < length arr -> arr !! j = Some v ->
        nonEmpty (strTrim v) = true ->
        (forall k w, j < k <= i -> arr !! k = Some w ->
                     nonEmpty (strTrim w) = false) ->
        strTrim <$> (fillForward arr !! i) = Some (strTrim v))
  /\ (forall i, i < length arr ->
        (forall k w, k <= i -> arr !! k = Some w ->
                     nonEmpty (strTrim w) = false) ->
        strTrim <$> (fillForward arr !! i) = Some []).
Proof.
  unfold fillForward.
  destruct (fillForward_fold arr [] [] eq_refl) as (H1 & H2 & H3 & _).
  simpl in H1, H2, H3.
  split; [done|]. split; [done|]. split.
  - intros i j v Hji Hi Hj Hv Hgap.
    rewrite <- list_lookup_fmap. change (strTrim <$> ?l) with (map strTrim l).
    rewrite H2. by apply (carried_nearest [] arr i j v).
  - intros i Hi Hall.
    rewrite <- list_lookup_fmap. change (strTrim <$> ?l) with (map strTrim l).
    rewrite H2. by apply carried_lookup.
Qed.

(** X8: [fillForward] keeps the length and every non-empty cell; after it,
    the text of a cell is the trimmed text of the nearest non-empty cell at
    or to the left of it, and empty when there is none. *)
Theorem fillForward_spec (arr : list Cell) :
  length (fillForward arr) = length arr
  /\ (forall i v, arr !! i = Some v -> nonEmpty (strTrim v) = true ->
                  fillForward arr !! i = Some v)
  /\ (forall i j v, j <= i -> i < length arr -> arr !! j = Some v ->
        nonEmpty (strTrim v) = true ->
        (forall k w, j < k <= i -> arr !! k = Some w ->
                     nonEmpty (strTrim w) = false) ->
        strTrim <$> (fillForward arr !! i) = Some (strTrim v))
  /\ (forall i, i < length arr ->
        (forall k w, k <= i -> arr !! k = Some w ->
                     nonEmpty (strTrim w) = false) ->
        strTrim <$> (fillForward arr !! i) = Some []).
Proof. exact (fillForward_props arr). Qed.

(* ===================================================================== *)
(** ** The header builder *)
(* ===================================================================== *)

Lemma strTrim_ink v : nonEmpty (strTrim v) = hasInk (strTrim v).
Proof.
  unfold strTrim. rewrite <- (trim_idem (str v)) at 1.
  by rewrite trim_nonEmpty_ink.
Qed.

Lemma hasInk_app a b : hasInk (a ++ b) = hasInk a || hasInk b.
Proof. unfold hasInk. apply existsb_app. Qed.

Lemma norm_nonEmpty h : nonEmpty (norm h) = hasInk h.
Proof.
  unfold norm, toLowerCase, replaceAll. rewrite removeSpaces_trim.
  unfold removeSpaces, hasInk.
  induction h as [|x h IH]; simpl; [done|].
  destruct (isWhite x); simpl; [exact IH | done].
Qed.

Lemma placeholder_ink x :
  (nonEmpty x = true -> hasInk x = true) ->
  hasInk (if nonEmpty x then x else PLACEHOLDER) = true.
Proof. intros H. destruct (nonEmpty x); [by apply H | reflexivity]. Qed.

Lemma headerOf_ink two v w :
  hasInk (headerOf two (strTrim v) (strTrim w)) = true.
Proof.
  unfold headerOf. apply placeholder_ink.
  destruct two; [|by rewrite <- strTrim_ink].
  destruct (nonEmpty (strTrim v)) eqn:Ea; cbn [andb].
  - destruct (nonEmpty (strTrim w) && negb _).
    + intros _. rewrite hasInk_app, <- strTrim_ink, Ea. reflexivity.
    + by rewrite <- strTrim_ink.
  - by rewrite <- strTrim_ink.
Qed.

Lemma headerOf_prefix two a b :
  nonEmpty a = true ->
  exists rest, headerOf two a b = a ++ rest /\ (two = false -> rest = []).
Proof.
  intros Ha. unfold headerOf. destruct two.
  - rewrite Ha. simpl. destruct (nonEmpty b && negb _).
    + exists (js "_" ++ b). split; [|done]. by destruct a.
    + rewrite Ha. exists []. split; [by rewrite app_nil_r | done].
  - rewrite Ha. exists []. split; [by rewrite app_nil_r | done].
Qed.

Lemma padRow_lookup W row c :
  c < W -> padRow W row !! c = Some (orEmpty (getIdx row c)).
Proof.
  intros Hc. unfold padRow. rewrite list_lookup_fmap.
  rewrite lookup_seq_lt; [reflexivity | done].
Qed.

Lemma strTrim_orEmpty v : strTrim (orEmpty v) = strTrim v.
Proof. by destruct v. Qed.

Lemma padRow_length W row : length (padRow W row) = W.
Proof. unfold padRow. by rewrite length_map, length_seq. Qed.

Lemma buildHeaders_lookup view c :
  let row0 := getRow view 0 in
  let row1 := getRow view 1 in
  let W := Nat.max (length row0) (length row1) in
  c < W ->
  exists two : bool,
    snd (buildHeaders view) = (if two then 2 else 1)
    /\ (fst (buildHeaders view) : list (list N)) !! c =
         Some (headerOf two
                 (strTrim (getIdx (fillForward (padRow W row0)) c))
                 (strTrim (getIdx (padRow W row1) c))).
Proof.
  intros row0 row1 W Hc. unfold buildHeaders. fold row0 row1 W.
  exists (useTwoRows W (fillForward (padRow W row0)) (padRow W row1)).
  split; [reflexivity|]. cbn [fst].
  rewrite list_lookup_fmap. rewrite lookup_seq_lt; [reflexivity | done].
Qed.

Lemma buildHeaders_props (view : list (list Cell)) :
  let row0 := getRow view 0 in
  let W := Nat.max (length row0) (length (getRow view 1)) in
  let hs := fst (buildHeaders view) in
  let n := snd (buildHeaders view) in
  length hs = W
  /\ (n = 1 \/ n = 2)
  /\ (forall c h, hs !! c = Some h ->
        hasInk h = true
        /\ key (makeColumn hs c) = norm h ++ js "__" ++ ofNat c)
  /\ (forall c j v, j <= c -> c < W -> row0 !! j = Some v ->
        nonEmpty (strTrim v) = true ->
        (forall k w, j < k <= c -> row0 !! k = Some w ->
                     nonEmpty (strTrim w) = false) ->
        exists rest, hs !! c = Some (strTrim v ++ rest)
                     /\ (n = 1 -> rest = [])).
Proof.
  intros row0 W hs n.
  assert (Hlen : length hs = W).
  { subst hs. unfold buildHeaders. cbn [fst]. by rewrite length_map, length_seq. }
  split; [exact Hlen|]. split.
  { subst n. unfold buildHeaders. cbn [snd]. destruct (useTwoRows _ _ _); auto. }
  split.
  - intros c h Hh.
    assert (Hc : c < W) by (rewrite <- Hlen; by eapply lookup_lt_Some).
    destruct (buildHeaders_lookup view c Hc) as (two & _ & E).
    fold hs in E. rewrite Hh in E. injection E as Eh.
    assert (Hink : hasInk h = true) by (rewrite Eh; apply headerOf_ink).
    clear Eh.
    split; [exact Hink|].
    unfold makeColumn. cbn [key]. rewrite Hh. cbn [default]. unfold id.
    by rewrite norm_nonEmpty, Hink.
  - intros c j v Hjc Hc Hj Hv Hgap.
    destruct (buildHeaders_lookup view c Hc) as (two & En & E).
    fold hs in E. fold n in En. fold row0 W in E.
    assert (Ha : strTrim (getIdx (fillForward (padRow W row0)) c) = strTrim v).
    { destruct (fillForward_props (padRow W row0)) as (Hl & _ & Hnear & _).
      assert (Hcell : strTrim <$> fillForward (padRow W row0) !! c
                      = Some (strTrim v)).
      { rewrite <- (strTrim_orEmpty v). apply (Hnear c j (orEmpty v)).
        - done.
        - by rewrite padRow_length.
        - rewrite padRow_lookup by lia. unfold getIdx. by rewrite Hj.
        - by rewrite strTrim_orEmpty.
        - intros k w Hk Hw. rewrite padRow_lookup in Hw by lia.
          inversion Hw; subst. rewrite strTrim_orEmpty. unfold getIdx.
          destruct (row0 !! k) as [x|] eqn:Ek; [by apply (Hgap k) | done]. }
      unfold getIdx. destruct (fillForward (padRow W row0) !! c); [|done].
      simpl in Hcell. by inversion Hcell. }
    rewrite Ha in E.
    destruct (headerOf_prefix two (strTrim v)
                (strTrim (getIdx (padRow W (getRow view 1)) c)) Hv)
      as (rest & Er & Hone).
    exists rest. split; [by rewrite E, Er|].
    intros Hn. apply Hone. rewrite Hn in En. by destruct two.
Qed.

(** X9: [buildHeaders] gives one label per column of the wider of the two
    header rows and uses one or two rows.  No label is blank, so the key of
    a column always starts with the normalised label (the fallback key
    [col] is never used).  Where row 0 has a non-empty cell with only empty
    cells between it and column [c], the label of [c] starts with that
    cell's trimmed text, and is that text when one row is used. *)
Theorem buildHeaders_spec (view : list (list Cell)) :
  let row0 := getRow view 0 in
  let W := Nat.max (length row0) (length (getRow view 1)) in
  let hs := fst (buildHeaders view) in
  let n := snd (buildHeaders view) in
  length hs = W
  /\ (n = 1 \/ n = 2)
  /\ (forall c h, hs !! c = Some h ->
        hasInk h = true
        /\ key (makeColumn hs c) = norm h ++ js "__" ++ ofNat c)
  /\ (forall c j v, j <= c -> c < W -> row0 !! j = Some v ->
        nonEmpty (strTrim v) = true ->
        (forall k w, j < k <= c -> row0 !! k = Some w ->
                     nonEmpty (strTrim w) = false) ->
        exists rest, hs !! c = Some (strTrim v ++ rest)
                     /\ (n = 1 -> rest = [])).
Proof. exact (buildHeaders_props view). Qed.

(* ===================================================================== *)
(** ** The per-subject columns *)
(* ===================================================================== *)

Lemma metric_eq_dec (a b : MetricId) : {a = b} + {a <> b}.
Proof. decide equality. Qed.

Lemma metricEqb_eq a b : metricEqb a b = true <-> a = b.
Proof. destruct a, b; simpl; split; intros H; try done. Qed.

Lemma metricEqb_refl a : metricEqb a a = true.
Proof. by apply metricEqb_eq. Qed.

Lemma setMetric_same mc m k : setMetric mc m k m = Some k.
Proof. unfold setMetric. by rewrite metricEqb_refl. Qed.

Lemma setMetric_other mc m k m' : m' <> m -> setMetric mc m k m' = mc m'.
Proof.
  intros H. unfold setMetric. destruct (metricEqb m' m) eqn:E; [|done].
  by apply metricEqb_eq in E.
Qed.

(** What one column does to the table. *)
Lemma metricStep_cases mc c :
  (metricStep mc c = mc
   /\ forall m, unset mc m = true -> passes m c = false)
  \/ (exists m, metricStep mc c = setMetric mc m (key c)
        /\ unset mc m = true /\ passes m c = true).
Proof.
  unfold metricStep, passes.
  destruct (List.find _ METRIC_CHAIN) as [m|] eqn:E.
  - right. exists m. apply find_some in E as [_ E].
    apply andb_true_iff in E as [? ?]. done.
  - left. split; [done|]. intros m Hu.
    pose proof (find_none _ _ E m) as Hn. simpl in Hn.
    rewrite Hu in Hn. simpl in Hn. apply Hn.
    destruct m; simpl; tauto.
Qed.

Lemma metricStep_keeps mc c m :
  isSet mc m = true -> metricStep mc c m = mc m.
Proof.
  intros Hs. destruct (metricStep_cases mc c) as [[-> _]|(m' & -> & Hu & _)]; [done|].
  apply setMetric_other. intros ->. unfold isSet in Hs. by rewrite Hu in Hs.
Qed.

Lemma detect_app cols1 cols2 :
  detectMetricCols (cols1 ++ cols2) = foldl metricStep (detectMetricCols cols1) cols2.
Proof. unfold detectMetricCols. apply foldl_app. Qed.

Lemma fold_keeps mc cols m :
  isSet mc m = true -> foldl metricStep mc cols m = mc m.
Proof.
  revert mc. induction cols as [|c cols IH]; intros mc Hs; simpl; [done|].
  rewrite IH; [by apply metricStep_keeps|].
  unfold isSet, unset in *. by rewrite metricStep_keeps.
Qed.

Lemma detect_sound cols m k :
  detectMetricCols cols m = Some k ->
  exists c, c ∈ cols /\ key c = k /\ passes m c = true.
Proof.
  unfold detectMetricCols. induction cols as [|c cols IH] using rev_ind; [done|].
  rewrite foldl_app. simpl.
  destruct (metricStep_cases (foldl metricStep noMetrics cols) c)
    as [[-> _]|(m' & -> & _ & Hp)].
  - intros H. destruct (IH H) as (c' & Hc' & ?). exists c'.
    split; [apply elem_of_app; by left | done].
  - destruct (metric_eq_dec m m') as [->|Hne].
    + rewrite setMetric_same. intros [= <-]. exists c.
      split; [apply elem_of_app; right; by left | done].
    + rewrite setMetric_other by done. intros H.
      destruct (IH H) as (c' & Hc' & ?). exists c'.
      split; [apply elem_of_app; by left | done].
Qed.

Lemma detect_injective cols m m' k k' :
  NoDup (map key cols) -> m <> m' ->
  detectMetricCols cols m = Some k -> detectMetricCols cols m' = Some k' ->
  k <> k'.
Proof.
  revert m m' k k'. induction cols as [|c cols IH] using rev_ind;
    intros m m' k k' Hnd Hne; [done|].
  rewrite map_app in Hnd. apply NoDup_app in Hnd as (Hnd & Hdis & _).
  assert (Hfresh : forall m0 k0, detectMetricCols cols m0 = Some k0 -> k0 <> key c).
  { intros m0 k0 H0 ->. destruct (detect_sound cols m0 _ H0) as (c' & Hc' & Hk & _).
    apply (Hdis (key c')); [by apply (list_elem_of_fmap_2 key)|].
    rewrite Hk. by left. }
  rewrite detect_app. simpl.
  destruct (metricStep_cases (detectMetricCols cols) c)
    as [[-> _]|(m0 & -> & _ & _)]; [by apply IH|].
  destruct (metric_eq_dec m m0) as [->|Hm]; destruct (metric_eq_dec m' m0) as [->|Hm'].
  - done.
  - rewrite setMetric_same, setMetric_other by done. intros [= <-] H E.
    by apply (Hfresh m' k').
  - rewrite setMetric_other, setMetric_same by done. intros H [= <-] E.
    by apply (Hfresh m k).
  - rewrite !setMetric_other by done. by apply IH.
Qed.

(** X10: every key [detectMetricCols] assigns to a metric is the key of a
    column whose header passes that metric's test; with pairwise distinct
    keys, no column serves two metrics. *)
Theorem detectMetricCols_sound (cols : list ParsedColumn) :
  (forall m k, detectMetricCols cols m = Some k ->
     exists c, c ∈ cols /\ key c = k /\ passes m c = true)
  /\ (NoDup (map key cols) ->
      forall m m' k k', m <> m' ->
        detectMetricCols cols m = Some k ->
        detectMetricCols cols m' = Some k' -> k <> k').
Proof.
  split; [apply detect_sound|]. intros Hnd m m' k k'. by apply detect_injective.
Qed.

Lemma isSet_setMetric mc m k :
  nonEmpty k = true -> isSet (setMetric mc m k) m = true.
Proof. intros H. unfold isSet, unset. rewrite setMetric_same. simpl. by rewrite H. Qed.

(** X11: the first match wins: once a metric holds a non-empty key, later
    columns never change it.  And no matching column is dropped: a column
    (with a non-empty key) whose header passes the test of a metric leaves
    that metric set, or is itself assigned to some metric. *)
Theorem detectMetricCols_first_match (cols1 cols2 : list ParsedColumn) :
  (forall m, isSet (detectMetricCols cols1) m = true ->
             detectMetricCols (cols1 ++ cols2) m = detectMetricCols cols1 m)
  /\ (forall c m, c ∈ cols1 -> nonEmpty (key c) = true -> passes m c = true ->
        isSet (detectMetricCols (cols1 ++ cols2)) m = true
        \/ exists m', detectMetricCols (cols1 ++ cols2) m' = Some (key c)).
Proof.
  split.
  - intros m Hs. rewrite detect_app. by apply fold_keeps.
  - intros c m Hc Hk Hp.
    apply list_elem_of_split in Hc as (pre & post & ->).
    rewrite <- app_assoc. cbn [app]. rewrite detect_app. cbn [foldl].
    set (mc := detectMetricCols pre).
    destruct (metricStep_cases mc c) as [[E Hnone]|(m' & E & _ & _)].
    + left. rewrite E.
      assert (Hs : isSet mc m = true).
      { unfold isSet. destruct (unset mc m) eqn:Eu; [|done].
        rewrite (Hnone m Eu) in Hp. done. }
      unfold isSet, unset in *. by rewrite fold_keeps.
    + right. exists m'. rewrite E, fold_keeps.
      * apply setMetric_same.
      * by apply isSet_setMetric.
Qed.

Lemma importMetricCols_keys rows cols m k :
  importMetricCols rows cols m = Some k -> nonEmpty k = true ->
  exists c, c ∈ cols /\ key c = k.
Proof.
  unfold importMetricCols. intros H Hk.
  destruct (metric_eq_dec m total) as [->|Hne].
  - rewrite setMetric_same in H. injection H as <-.
    destruct (detectMetricCols cols total) as [t0|] eqn:E;
      cbn [default] in *; unfold id in *.
    + destruct (nonEmpty t0) eqn:Et.
      * destruct (detect_sound cols total t0 E) as (c & ? & ? & _). by exists c.
      * destruct (guessTotalCol_chosen rows cols Hk) as (c & ? & ? & _).
        by exists c.
    + change (nonEmpty []) with false in *. cbn iota in *.
      destruct (guessTotalCol_chosen rows cols Hk) as (c & ? & ? & _).
      by exists c.
  - rewrite setMetric_other in H by done.
    destruct (detect_sound cols m k H) as (c & ? & ? & _). by exists c.
Qed.

(** X12: every non-empty value of the [metricCols] table of a record is the key
    of one of its columns; its [total] entry is the detected total column
    when there is one, else the guessed one. *)
Theorem importMetricCols_spec (rows : list Row) (cols : list ParsedColumn) :
  (forall m k, importMetricCols rows cols m = Some k -> nonEmpty k = true ->
               exists c, c ∈ cols /\ key c = k)
  /\ (forall k, detectMetricCols cols total = Some k -> nonEmpty k = true ->
                importMetricCols rows cols total = Some k)
  /\ (isSet (detectMetricCols cols) total = false ->
      importMetricCols rows cols total = Some (guessTotalCol rows cols)).
Proof.
  split; [apply importMetricCols_keys|]. split.
  - intros k E Hk. unfold importMetricCols. rewrite setMetric_same, E.
    cbn [default]. unfold id. by rewrite Hk.
  - intros Hs. unfold importMetricCols. rewrite setMetric_same.
    unfold isSet, unset in Hs. apply negb_false_iff, negb_true_iff in Hs.
    by rewrite Hs.
Qed.

(* ===================================================================== *)
(** ** The class index *)
(* ===================================================================== *)

Lemma elem_of_setAdd y x s : y ∈ setAdd x s <-> y = x \/ y ∈ s.
Proof.
  unfold setAdd. destruct (bool_decide (x ∈ s)) eqn:E.
  - apply bool_decide_eq_true in E. split; [by right|]. by intros [->|?].
  - rewrite elem_of_app, list_elem_of_singleton. tauto.
Qed.

Lemma indexRow_entries nm cc rows st :
  foldl (indexRow nm cc) st rows = foldl indexPair st (omap (rowEntry nm cc) rows).
Proof.
  revert st. induction rows as [|r rows IH]; intros st; [done|].
  cbn [foldl omap list_omap]. fold (omap (rowEntry nm cc) rows).
  unfold indexRow at 2, rowEntry at 1.
  destruct (negb (nonEmpty (strTrim (getProp r nm)))
            || negb (nonEmpty (strTrim (getProp r cc)))); [apply IH|].
  cbn [foldl]. rewrite IH. reflexivity.
Qed.

Lemma buildClassIndex_entries exams :
  let st := foldl indexPair ([], ∅) (indexEntries exams) in
  buildClassIndex exams
  = {| classSet := sortStrings (fst st); nameToClasses := snd st |}.
Proof.
  unfold buildClassIndex, indexEntries.
  match goal with |- context [foldl ?f ([], ∅) exams] =>
    assert (H : forall st, foldl f st exams
                = foldl indexPair st (concat (map examEntries exams)))
  end.
  { induction exams as [|ex exams IH]; intros st; [done|].
    cbn [foldl map concat]. rewrite foldl_app, IH. f_equal.
    unfold examEntries.
    destruct (negb (hasClassData ex) || negb (nonEmpty (classCol ex))
              || negb (nonEmpty (nameCol ex))); [done|].
    apply indexRow_entries. }
  simpl. by rewrite H.
Qed.

Lemma indexPair_inv entries :
  let st := foldl indexPair ([], ∅) entries in
  (forall n c, c ∈ default [] (snd st !! n) <-> (n, c) ∈ entries)
  /\ (forall c, c ∈ fst st <-> exists n, (n, c) ∈ entries)
  /\ NoDup (fst st).
Proof.
  induction entries as [|[n0 c0] entries IH] using rev_ind.
  - simpl. split; [|split].
    + intros n c. rewrite lookup_empty. simpl. split; intros H; inversion H.
    + intros c. split; [intros H; inversion H | intros [n H]; inversion H].
    + constructor.
  - rewrite foldl_app. cbn [foldl]. cbv zeta in IH.
    set (st := foldl indexPair ([], ∅) entries) in *.
    destruct IH as (Hmap & Hset & Hnd). unfold indexPair. cbn [fst snd].
    split; [|split].
    + intros n c. rewrite elem_of_app, list_elem_of_singleton.
      destruct (decide (n = n0)) as [->|Hne].
      * rewrite lookup_insert_eq. change (c ∈ setAdd c0 (default [] (snd st !! n0)) <-> (n0, c) ∈ entries \/ (n0, c) = (n0, c0)). rewrite elem_of_setAdd, Hmap.
        split; [intros [->|?]; auto | intros [?|[= ->]]; auto].
      * rewrite lookup_insert_ne by done. rewrite Hmap.
        split; [by left | intros [?|[= ? ?]]; done].
    + intros c. rewrite elem_of_setAdd, Hset. split.
      * intros [->|[n H]]; [exists n0 | exists n]; apply elem_of_app;
          [right; by left | by left].
      * intros [n H]. apply elem_of_app in H as [H|H]; [right; by exists n|].
        apply list_elem_of_singleton in H as [= _ ->]. by left.
    + by apply setAdd_NoDup.
Qed.

Lemma indexEntries_indexed exams n c :
  (n, c) ∈ indexEntries exams <-> indexed exams n c.
Proof.
  unfold indexEntries, indexed. split.
  - intros H. apply list_elem_of_In, in_concat in H as (l & Hl & H).
    apply list_elem_of_In, list_elem_of_fmap in Hl as (ex & -> & Hex).
    apply list_elem_of_In in H. unfold examEntries in H.
    destruct (hasClassData ex) eqn:Hcd; [|by apply not_elem_of_nil in H].
    destruct (nonEmpty (classCol ex)) eqn:Hcc; [|by apply not_elem_of_nil in H].
    destruct (nonEmpty (nameCol ex)) eqn:Hnc; [|by apply not_elem_of_nil in H].
    simpl in H. apply list_elem_of_omap in H as (r & Hr & E).
    unfold rowEntry in E.
    destruct (nonEmpty (strTrim (getProp r (nameCol ex)))) eqn:E1; [|done].
    destruct (nonEmpty (strTrim (getProp r (classCol ex)))) eqn:E2; [|done].
    simpl in E. injection E as <- <-. exists ex, r. done.
  - intros (ex & r & Hex & Hcd & Hnc & Hr & <- & Hn & <- & Hc).
    apply list_elem_of_In, in_concat. exists (examEntries ex).
    split; [apply list_elem_of_In, list_elem_of_fmap; by exists ex|].
    apply list_elem_of_In. unfold examEntries. rewrite Hcd, Hnc.
    assert (nonEmpty (classCol ex) = true) as ->.
    { unfold hasClassData, hasClassDataOf in Hcd.
      by apply andb_true_iff in Hcd as [? _]. }
    simpl. apply list_elem_of_omap. exists r. split; [done|].
    unfold rowEntry. by rewrite Hn, Hc.
Qed.

Lemma strLe_total a b : strLe a b = false -> strLe b a = true.
Proof.
  revert b. induction a as [|x a IH]; intros [|y b]; simpl; try done.
  intros H. apply orb_false_iff in H as [H1 H2].
  apply N.ltb_ge in H1.
  destruct (N.eqb_spec x y) as [->|Hne].
  - simpl in H2. rewrite (IH b H2), N.eqb_refl, andb_true_r, orb_true_r. done.
  - assert ((y <? x)%N = true) as -> by (apply N.ltb_lt; lia). done.
Qed.

Lemma strLe_trans a b c : strLe a b = true -> strLe b c = true -> strLe a c = true.
Proof.
  revert b c. induction a as [|x a IH]; intros [|y b] [|z c]; simpl; try done.
  intros H1 H2.
  apply orb_true_iff in H1 as [H1|H1]; apply orb_true_iff in H2 as [H2|H2].
  - apply N.ltb_lt in H1, H2.
    assert ((x <? z)%N = true) as -> by (apply N.ltb_lt; lia). done.
  - apply andb_true_iff in H2 as [E _]. apply N.eqb_eq in E as <-.
    by rewrite H1.
  - apply andb_true_iff in H1 as [E _]. apply N.eqb_eq in E as ->.
    by rewrite H2.
  - apply andb_true_iff in H1 as [E1 L1]. apply andb_true_iff in H2 as [E2 L2].
    apply N.eqb_eq in E1 as ->. rewrite E2, (IH b c L1 L2). simpl.
    by rewrite orb_true_r.
Qed.

Lemma elem_of_insertSorted y x l : y ∈ insertSorted x l <-> y = x \/ y ∈ l.
Proof.
  induction l as [|z l IH]; simpl.
  - rewrite list_elem_of_singleton. split; [by left | intros [?|H]; [done | inversion H]].
  - destruct (strLe x z); rewrite !elem_of_cons; [tauto|]. rewrite IH. tauto.
Qed.

Lemma insertSorted_sorted x l :
  StronglySorted strLeP l -> StronglySorted strLeP (insertSorted x l).
Proof.
  induction 1 as [|z l Hs IH Hall]; simpl.
  - repeat constructor.
  - destruct (strLe x z) eqn:E.
    + constructor; [by constructor|]. constructor; [done|].
      eapply Forall_impl; [exact Hall|]. intros w Hw. by eapply strLe_trans.
    + constructor; [done|]. apply Forall_forall. intros w Hw.
      apply elem_of_insertSorted in Hw as [->|Hw].
      * by apply strLe_total.
      * rewrite Forall_forall in Hall. by apply Hall.
Qed.

Lemma insertSorted_NoDup x l : x ∉ l -> NoDup l -> NoDup (insertSorted x l).
Proof.
  induction l as [|z l IH]; simpl; intros Hx Hnd.
  - repeat constructor. apply not_elem_of_nil.
  - apply not_elem_of_cons in Hx as [Hxz Hx]. apply NoDup_cons in Hnd as [Hz Hnd].
    destruct (strLe x z).
    + constructor; [|by constructor]. intros H.
      apply elem_of_cons in H as [?|?]; done.
    + constructor; [|by apply IH]. intros H.
      apply elem_of_insertSorted in H as [?|?]; done.
Qed.

Lemma sortStrings_spec l :
  NoDup l ->
  (forall y, y ∈ sortStrings l <-> y ∈ l)
  /\ NoDup (sortStrings l) /\ StronglySorted strLeP (sortStrings l).
Proof.
  unfold sortStrings. induction l as [|x l IH]; intros Hnd; simpl.
  - split; [done|]. split; constructor.
  - apply NoDup_cons in Hnd as [Hx Hnd]. destruct (IH Hnd) as (Hin & Hn & Hs).
    split; [|split].
    + intros y. rewrite elem_of_insertSorted, elem_of_cons, Hin. done.
    + apply insertSorted_NoDup; [by rewrite Hin | done].
    + by apply insertSorted_sorted.
Qed.

Lemma buildClassIndex_props (exams : list ExamConfig) :
  let idx := buildClassIndex exams in
  (forall n c, c ∈ knownClasses idx n <-> indexed exams n c)
  /\ (forall c, c ∈ classSet idx <-> exists n, indexed exams n c)
  /\ NoDup (classSet idx)
  /\ StronglySorted strLeP (classSet idx).
Proof.
  cbv zeta. rewrite buildClassIndex_entries. cbv zeta.
  destruct (indexPair_inv (indexEntries exams)) as (Hmap & Hset & Hnd).
  destruct (sortStrings_spec _ Hnd) as (Hin & Hn & Hs).
  unfold knownClasses. cbn [classSet nameToClasses].
  split; [|split; [|split]]; try done.
  - intros n c. by rewrite Hmap, indexEntries_indexed.
  - intros c. rewrite Hin, Hset. split; intros [n H]; exists n;
      by apply indexEntries_indexed.
Qed.

(** X13: the class index holds exactly what the sheets with class data say:
    a class is known for a name iff some row of such a sheet carries that
    (trimmed, non-empty) name with that (trimmed, non-empty) class; the class
    list is the set of all such classes, without repetition, in code-unit
    order. *)
Theorem buildClassIndex_spec (exams : list ExamConfig) :
  let idx := buildClassIndex exams in
  (forall n c, c ∈ knownClasses idx n <-> indexed exams n c)
  /\ (forall c, c ∈ classSet idx <-> exists n, indexed exams n c)
  /\ NoDup (classSet idx)
  /\ StronglySorted strLeP (classSet idx).
Proof. exact (buildClassIndex_props exams). Qed.

(* ===================================================================== *)
(** ** The inferred class of an imported sheet *)
(* ===================================================================== *)

Lemma votesFor_pos idx names c :
  0 < votesFor idx names c -> exists n, n ∈ names /\ c ∈ knownClasses idx n.
Proof.
  unfold votesFor. induction names as [|n names IH]; simpl; [lia|].
  destruct (bool_decide (c ∈ knownClasses idx n)) eqn:E.
  - intros _. apply bool_decide_eq_true in E. exists n. split; [by left | done].
  - intros H. destruct (IH H) as (n' & ? & ?). exists n'. split; [by right | done].
Qed.

Lemma inferSheetClass_range ex idx :
  wfIndex idx -> hasClassData ex = false ->
  inferSheetClass ex idx = UNKNOWN \/ inferSheetClass ex idx = SCHOOL
  \/ exists n, n ∈ votingSample ex /\ inferSheetClass ex idx ∈ knownClasses idx n.
Proof.
  intros Hwf Hcd. destruct (inferSheetClass_votes ex idx Hwf Hcd) as [Hlow Hhigh].
  destruct (Nat.lt_ge_cases (length (contributors idx (votingSample ex))) 3)
    as [Hlt|Hge]; [left; by apply Hlow|].
  destruct (Hhigh Hge) as (bestC & Hpos & _ & ->). unfold classRule.
  destruct (_ && _); [right; by left|].
  destruct (Qle_bool _ _); [|by left].
  right. right. by apply votesFor_pos.
Qed.

Lemma hasClassData_setInferredClass ex c :
  hasClassData (setInferredClass ex c) = hasClassData ex.
Proof. reflexivity. Qed.

Lemma indexed_setInferredClass (f : ExamConfig -> list N) all n c :
  indexed (map (fun ex => setInferredClass ex (f ex)) all) n c <-> indexed all n c.
Proof.
  unfold indexed. split.
  - intros (ex & r & Hex & H). apply list_elem_of_fmap in Hex as (ex0 & -> & Hex0).
    exists ex0, r. split; [done|]. exact H.
  - intros (ex & r & Hex & H). exists (setInferredClass ex (f ex)), r.
    split; [apply list_elem_of_fmap; by exists ex|]. exact H.
Qed.

Lemma importSheets_inv buildHeaders f ex :
  ex ∈ importSheets buildHeaders f ->
  exists sn sh b0 bs, (sn, sh) ∈ file_sheets f
    /\ trim sn <> js "说明"
    /\ parseSheetToBlocks buildHeaders sh = b0 :: bs
    /\ ex = importSheet (file_name f) sn b0 (b0 :: bs).
Proof.
  unfold importSheets. intros H.
  apply list_elem_of_omap in H as ([sn sh] & Hin & Hsome).
  destruct (JsString.eqb (trim sn) (js "说明")) eqn:E; [done|].
  apply eqb_false in E.
  destruct (parseSheetToBlocks buildHeaders sh) as [|b0 bs] eqn:Eb; [done|].
  injection Hsome as <-. by exists sn, sh, b0, bs.
Qed.

Lemma importFiles_firstPass buildHeaders files ex :
  ex ∈ importFiles buildHeaders files ->
  exists f ex0, f ∈ files /\ ex0 ∈ importSheets buildHeaders f
    /\ ex = setInferredClass ex0
              (inferSheetClass ex0
                 (buildClassIndex (concat (map (importSheets buildHeaders) files)))).
Proof.
  unfold importFiles. intros H.
  apply list_elem_of_fmap in H as (ex0 & -> & H0).
  apply list_elem_of_In, in_concat in H0 as (l & Hl & H0).
  apply list_elem_of_In, list_elem_of_fmap in Hl as (f & -> & Hf).
  exists f, ex0. split; [done|]. split; [by apply list_elem_of_In | done].
Qed.

Lemma nonEmpty_UNKNOWN : nonEmpty UNKNOWN = true.
Proof. reflexivity. Qed.

Lemma nonEmpty_SCHOOL : nonEmpty SCHOOL = true.
Proof. reflexivity. Qed.

(** X14: the inferred class of an imported sheet.  A sheet with class data is
    left without an inferred class.  A sheet without class data gets the
    unknown class, the school-wide class, or a class that a sheet with class
    data of the same import gives to one of the names sampled from it; in
    every case a non-empty string.  No record is made for a sheet named
    (up to surrounding blanks) as the instructions sheet. *)
Theorem importFiles_inferredClass buildHeaders (files : list File)
    (ex : ExamConfig) :
  ex ∈ importFiles buildHeaders files ->
  trim (sheetName ex) <> js "说明"
  /\ (hasClassData ex = true -> inferredClass ex = [])
  /\ (hasClassData ex = false ->
      nonEmpty (inferredClass ex) = true
      /\ (inferredClass ex = UNKNOWN \/ inferredClass ex = SCHOOL
          \/ exists n, n ∈ votingSample ex
               /\ indexed (importFiles buildHeaders files) n (inferredClass ex))).
Proof.
  intros Hex.
  destruct (importFiles_firstPass _ _ _ Hex) as (f & ex0 & Hf & Hex0 & ->).
  destruct (importSheets_inv _ _ _ Hex0) as (sn & sh & b0 & bs & _ & Hsn & _ & E0).
  set (all := concat (map (importSheets buildHeaders) files)).
  rewrite hasClassData_setInferredClass.
  split; [by rewrite E0|]. split.
  - intros Hcd. cbn [inferredClass setInferredClass]. unfold inferSheetClass.
    rewrite Hcd. by rewrite E0.
  - intros Hcd. cbn [inferredClass setInferredClass].
    assert (Hr := inferSheetClass_range ex0 (buildClassIndex all)
                    (buildClassIndex_wf all) Hcd).
    assert (Hkn : forall n,
              inferSheetClass ex0 (buildClassIndex all)
                ∈ knownClasses (buildClassIndex all) n ->
              indexed (importFiles buildHeaders files) n
                (inferSheetClass ex0 (buildClassIndex all))).
    { intros n Hn. unfold importFiles. apply indexed_setInferredClass.
      by apply (proj1 (buildClassIndex_props all)). }
    split.
    + destruct Hr as [->|[->|(n & _ & Hn)]]; [done | done|].
      destruct (Hkn n Hn) as (? & ? & _ & _ & _ & _ & _ & _ & <- & ?). done.
    + destruct Hr as [?|[?|(n & Hs & Hn)]]; [by left | right; by left|].
      right. right. exists n. split; [exact Hs | by apply Hkn].
Qed.

(** The second sheet of the workbook has no class column: the roster of the
    first sheet gives it its class; the instructions sheet is skipped. *)
Lemma importFiles_infers_roster_class :
  exists ex, ex ∈ importFiles buildHeaders [twoSheetFile]
    /\ hasClassData ex = false /\ inferredClass ex = js "1班"
    /\ trim (sheetName ex) <> js "说明".
Proof.
  pose (l := importFiles buildHeaders [twoSheetFile]).
  assert (Hin : default blankExam (last l) ∈ l) by (vm_compute; right; left).
  exists (default blankExam (last l)). split; [exact Hin|].
  split; [vm_compute; reflexivity|].
  split; [vm_compute; reflexivity|].
  exact (proj1 (importFiles_inferredClass buildHeaders [twoSheetFile] _ Hin)).
Defined.

Lemma columnValues_nonEmpty k rows v : v ∈ columnValues k rows -> nonEmpty v = true.
Proof.
  unfold columnValues. intros H. apply list_elem_of_In, filter_In in H as [_ H]. done.
Qed.

Lemma existsb_columnValues k l :
  existsb (fun r : Row => nonEmpty (strTrim (getProp r k))) l = false ->
  columnValues k l = [].
Proof.
  unfold columnValues. induction l as [|r l IH]; [done|]. cbn [existsb map List.filter].
  intros H. apply orb_false_iff in H as [H1 H2]. rewrite H1. by apply IH.
Qed.

Lemma hasClassData_values ex :
  hasClassData ex = false -> nonEmpty (classCol ex) = true ->
  columnValues (classCol ex) (slice0 300 (rows ex)) = [].
Proof.
  unfold hasClassData, hasClassDataOf. intros H Hc.
  rewrite Hc in H. by apply existsb_columnValues.
Qed.

(** X15: the effective class of a sheet is never the empty string.  With no
    override and a class column that holds no value in the first 300 rows,
    it is the unknown class, whatever class was inferred for the sheet. *)
Theorem getEffectiveClass_never_empty (ex : ExamConfig) :
  nonEmpty (getEffectiveClass ex) = true
  /\ (nonEmpty (trim (overrideClass ex)) = false ->
      nonEmpty (classCol ex) = true -> hasClassData ex = false ->
      getEffectiveClass ex = UNKNOWN).
Proof.
  unfold getEffectiveClass.
  destruct (nonEmpty (trim (overrideClass ex))) eqn:Ho; [done|].
  destruct (nonEmpty (classCol ex)) eqn:Hc.
  - destruct (sampleClasses_empty (classCol ex) (slice0 300 (rows ex)))
      as [[Hv ->] | [(v & Hin & _ & ->) | (v & w & Hin & _ & _ & ->)]].
    + done.
    + split; [by apply columnValues_nonEmpty in Hin|].
      intros _ _ Hcd. rewrite (hasClassData_values ex Hcd Hc) in Hin.
      by apply not_elem_of_nil in Hin.
    + split; [done|].
      intros _ _ Hcd. rewrite (hasClassData_values ex Hcd Hc) in Hin.
      by apply not_elem_of_nil in Hin.
  - split; [|done]. destruct (nonEmpty (inferredClass ex)) eqn:Hi; done.
Qed.

(** A class column without any value, and an inferred class. *)
Lemma getEffectiveClass_empty_column :
  getEffectiveClass emptyClassExam = UNKNOWN.
Proof.
  apply (getEffectiveClass_never_empty emptyClassExam); reflexivity.
Defined.

(* ===================================================================== *)
(** ** The blocks of a sheet *)
(* ===================================================================== *)

Lemma StronglySorted_lookup {A} (R : A -> A -> Prop) l i j x y :
  StronglySorted R l -> i < j -> l !! i = Some x -> l !! j = Some y -> R x y.
Proof.
  intros Hs. revert i j. induction Hs as [|a l Hs IH Hall]; intros i j Hij Hi Hj.
  - by rewrite lookup_nil in Hi.
  - destruct j as [|j]; [lia|]. destruct i as [|i].
    + simpl in Hi, Hj. injection Hi as <-. rewrite Forall_forall in Hall.
      apply Hall. by eapply list_elem_of_lookup_2.
    + simpl in Hi, Hj. apply (IH i j); [lia | done | done].
Qed.

Lemma getRow_drop matrix n i : getRow (drop n matrix) i = getRow matrix (n + i).
Proof. unfold getRow. by rewrite lookup_drop. Qed.

Lemma blocksOfView_lookup view headers hsr hru i b :
  blocksOfView view headers hsr hru !! i = Some b ->
  exists s e, splitBlocks view headers !! i = Some (s, e)
    /\ ExcelParse.blockId b = js "block-" ++ ofNat (i + 1)
    /\ columns b = makeUniqueColumns headers s e
    /\ ExcelParse.rows b = buildRows (makeUniqueColumns headers s e) view hru
    /\ meta b = {| startCol := s; endCol := e; headerStartRow := hsr;
                   headerRowsUsed := hru |}.
Proof.
  unfold blocksOfView. rewrite list_lookup_imap.
  destruct (splitBlocks view headers !! i) as [[s e]|] eqn:E; [|done].
  simpl. intros [= <-]. exists s, e. done.
Qed.

Lemma blocksOfView_props view headers hsr hru :
  let blocks := blocksOfView view headers hsr hru in
  (forall i b, blocks !! i = Some b ->
     ExcelParse.blockId b = js "block-" ++ ofNat (i + 1)
     /\ headerStartRow (meta b) = hsr /\ headerRowsUsed (meta b) = hru
     /\ startCol (meta b) + 2 <= endCol (meta b)
     /\ endCol (meta b) < length headers
     /\ map colIndex (columns b)
        = seq (startCol (meta b)) (endCol (meta b) - startCol (meta b) + 1)
     /\ NoDup (map key (columns b))
     /\ forall r, r ∈ ExcelParse.rows b ->
          (exists c, c ∈ columns b /\ isEmptyCell (getProp r (key c)) = false)
          /\ exists j, hru <= j < length view
                       /\ rowOf (columns b) (getRow view j) r)
  /\ (forall i j bi bj, i < j -> blocks !! i = Some bi -> blocks !! j = Some bj ->
        endCol (meta bi) + 1 < startCol (meta bj)).
Proof.
  intros blocks. destruct (splitBlocks_props view headers) as [Hr Hs].
  split.
  - intros i b Hb.
    destruct (blocksOfView_lookup _ _ _ _ _ _ Hb) as (s & e & Hi & Hid & Hc & Hrows & Hm).
    apply list_elem_of_lookup_2, Hr in Hi as (Hw & Hse & He & _).
    destruct (makeUniqueColumns_props headers s e) as (Hnd & Hidx & _).
    rewrite Hm, Hc, Hrows. cbn [startCol endCol headerStartRow headerRowsUsed].
    split; [done|]. split; [done|]. split; [done|]. split; [lia|].
    split; [done|]. split; [rewrite Hidx; f_equal; lia|]. split; [done|].
    intros r Hrin.
    destruct (proj1 (buildRows_props _ view hru Hnd) r Hrin)
      as (j & Hj & Hrow & _ & Hc').
    split; [done|]. by exists j.
  - intros i j bi bj Hij Hbi Hbj.
    destruct (blocksOfView_lookup _ _ _ _ _ _ Hbi) as (s & e & Hi & _ & _ & _ & ->).
    destruct (blocksOfView_lookup _ _ _ _ _ _ Hbj) as (s' & e' & Hj & _ & _ & _ & ->).
    cbn [startCol endCol].
    pose proof (StronglySorted_lookup _ _ _ _ _ _ Hs Hij Hi Hj) as Hlt.
    simpl in Hlt.
    apply list_elem_of_lookup_2, Hr in Hi as (_ & _ & _ & _ & _ & Hend).
    apply list_elem_of_lookup_2, Hr in Hj as (_ & Hse' & He' & Hin & _ & _).
    destruct Hend as [Hend|Hend]; [lia|].
    destruct (decide (e + 1 = s')) as [E|]; [|lia].
    rewrite E, Hin in Hend; [done | lia].
Qed.

(** X16: the blocks of a sheet, for any header builder.  Block [i] is named
    [block-(i+1)]; it spans at least 3 columns, one column record per grid
    column of its span, with pairwise distinct keys; each of its rows is a
    grid row below the header rows, read through the block's columns, and
    holds a non-empty cell.  Blocks come left to right and two blocks are
    at least one column apart.  An empty grid gives no block. *)
Theorem parseSheetToBlocks_blocks
    (buildHeaders : list (list Cell) -> list (list N) * nat) (sh : Sheet) :
  let matrix := applyMergesToMatrix (sheet_ws sh) (sheet_matrix sh) 30 in
  let blocks := parseSheetToBlocks buildHeaders sh in
  (forall i b, blocks !! i = Some b ->
     ExcelParse.blockId b = js "block-" ++ ofNat (i + 1)
     /\ headerStartRow (meta b) = detectHeaderStartRow matrix
     /\ startCol (meta b) + 2 <= endCol (meta b)
     /\ map colIndex (columns b)
        = seq (startCol (meta b)) (endCol (meta b) - startCol (meta b) + 1)
     /\ NoDup (map key (columns b))
     /\ forall r, r ∈ ExcelParse.rows b ->
          (exists c, c ∈ columns b /\ isEmptyCell (getProp r (key c)) = false)
          /\ exists j, headerStartRow (meta b) + headerRowsUsed (meta b) <= j
                         < length matrix
                       /\ rowOf (columns b) (getRow matrix j) r)
  /\ (forall i j bi bj, i < j -> blocks !! i = Some bi -> blocks !! j = Some bj ->
        endCol (meta bi) + 1 < startCol (meta bj))
  /\ (sheet_matrix sh = [] -> blocks = []).
Proof.
  intros matrix blocks. subst blocks. unfold parseSheetToBlocks.
  destruct (sheet_matrix sh) as [|row0 rest] eqn:Em.
  { split; [|split; [|done]].
    - intros i b H. by rewrite lookup_nil in H.
    - intros i j bi bj _ H. by rewrite lookup_nil in H. }
  fold matrix.
  destruct (buildHeaders (drop (detectHeaderStartRow matrix) matrix))
    as [headers hru].
  destruct (blocksOfView_props (drop (detectHeaderStartRow matrix) matrix)
              headers (detectHeaderStartRow matrix) hru) as [Hb Hord].
  split; [|split; [exact Hord | done]].
  intros i b Hi.
  destruct (Hb i b Hi) as (H1 & H2 & H3 & H4 & _ & H5 & H6 & H7).
  split; [done|]. split; [done|]. split; [done|]. split; [done|].
  split; [done|]. intros r Hr. destruct (H7 r Hr) as (Hc & j & Hj & Hrow).
  split; [done|]. exists (detectHeaderStartRow matrix + j).
  rewrite length_drop in Hj. rewrite H2, H3. split; [lia|].
  by rewrite <- getRow_drop.
Qed.

(** X17: with the header builder of the source, a block uses one or two
    header rows and every column of a block has a header text with a
    visible character: its key is the normalised text followed by the
    column index, its label the text followed by the column letter.  The
    fallbacks of [makeUniqueColumns] for a missing or blank header are
    never taken. *)
Theorem parseSheet_headers (sh : Sheet) (b : ParsedBlock) :
  b ∈ parseSheet sh ->
  (headerRowsUsed (meta b) = 1 \/ headerRowsUsed (meta b) = 2)
  /\ forall c, c ∈ columns b ->
       exists h, hasInk h = true
         /\ key c = norm h ++ js "__" ++ ofNat (colIndex c)
         /\ label c = h ++ js "（" ++ colLetter (colIndex c) ++ js "列）".
Proof.
  unfold parseSheet, parseSheetToBlocks.
  destruct (sheet_matrix sh) as [|row0 rest] eqn:Em.
  { intros H. by apply not_elem_of_nil in H. }
  set (matrix := applyMergesToMatrix (sheet_ws sh) (row0 :: rest) 30).
  set (view := drop (detectHeaderStartRow matrix) matrix).
  destruct (buildHeaders_props view) as (_ & Hn & Hh & _).
  destruct (buildHeaders view) as [headers hru] eqn:Eb. cbn [fst snd] in *.
  intros Hin. apply list_elem_of_lookup_1 in Hin as [i Hi].
  destruct (blocksOfView_lookup _ _ _ _ _ _ Hi)
    as (s & e & Hse & _ & Hc & _ & Hm).
  apply list_elem_of_lookup_2, (proj1 (splitBlocks_props view headers)) in Hse
    as (_ & _ & He & _).
  rewrite Hm, Hc. cbn [headerRowsUsed]. split; [done|].
  intros c Hcin. unfold makeUniqueColumns in Hcin.
  apply list_elem_of_fmap in Hcin as (k & -> & Hk).
  apply elem_of_fromTo in Hk.
  destruct (lookup_lt_is_Some_2 headers k) as [h Hh']; [lia|].
  destruct (Hh k h Hh') as [Hink Hkey]. exists h.
  split; [done|]. split; [exact Hkey|].
  unfold makeColumn. cbn [label colIndex]. by rewrite Hh'.
Qed.

(** The titled sheet through the header builder of the source. *)
Lemma parseSheet_headers_titled :
  exists b, b ∈ parseSheet (sheetOf titledGrid)
    /\ (headerRowsUsed (meta b) = 1 \/ headerRowsUsed (meta b) = 2).
Proof.
  pose (l := parseSheet (sheetOf titledGrid)).
  assert (Hin : default blankBlock (head l) ∈ l) by (vm_compute; left).
  exists (default blankBlock (head l)). split; [exact Hin|].
  exact (proj1 (parseSheet_headers (sheetOf titledGrid) _ Hin)).
Defined.

(* ===================================================================== *)
(** ** The best block *)
(* ===================================================================== *)

Lemma pickBestBlock_firstBest b0 blocks :
  blocks <> [] -> firstBest scoreBlockQuality blocks (pickBestBlock b0 blocks).
Proof.
  unfold pickBestBlock.
  match goal with |- context [foldl ?f ?a blocks] =>
    assert (H : blocks <> [] ->
                exists best, firstBest scoreBlockQuality blocks best
                  /\ foldl f a blocks = (best, Some (scoreBlockQuality best)))
  end.
  { induction blocks as [|x blocks IH] using rev_ind; [done|]. intros _.
    rewrite foldl_app.
    destruct blocks as [|y blocks'].
    - simpl. exists x. split; [|done]. exists [], []. split; [done|].
      split; intros z Hz; by apply not_elem_of_nil in Hz.
    - destruct IH as (best & (pre & post & E & Hpre & Hpost) & ->); [done|].
      cbn [foldl]. rewrite E.
      destruct (Qltb (scoreBlockQuality best) (scoreBlockQuality x)) eqn:Hlt.
      + apply Qltb_true in Hlt. exists x. split; [|done].
        exists (pre ++ best :: post), []. split; [done|]. split.
        * intros z Hz. apply elem_of_app in Hz as [Hz|Hz].
          -- specialize (Hpre z Hz). lra.
          -- apply elem_of_cons in Hz as [->|Hz]; [done|].
             specialize (Hpost z Hz). lra.
        * intros z Hz. by apply not_elem_of_nil in Hz.
      + apply Qltb_false in Hlt. exists best. split; [|done].
        exists pre, (post ++ [x]). split; [by rewrite <- app_assoc|].
        split; [done|].
        intros z Hz. apply elem_of_app in Hz as [Hz|Hz]; [by apply Hpost|].
        apply list_elem_of_singleton in Hz as ->. done. }
  intros Hne. destruct (H Hne) as (best & Hfb & ->). done.
Qed.

Lemma frac_le_1 a b : a <= b -> (frac a b <= 1)%Q.
Proof.
  intros H. unfold frac. destruct b as [|b].
  - unfold Qdiv, Qinv. simpl. rewrite Qmult_0_r. lra.
  - apply Qle_shift_div_r.
    + unfold Qlt. simpl. lia.
    + rewrite Qmult_1_l. unfold Qle. simpl. lia.
Qed.

Lemma qualityCounts_le rows nameCol totalCol :
  let '(seen, nameHit, totalHit) := qualityCounts rows nameCol totalCol in
  nameHit <= seen /\ totalHit <= seen.
Proof.
  unfold qualityCounts.
  match goal with |- context [foldl ?f ?a ?l] =>
    assert (H : forall l' st,
              (let '(seen, nameHit, totalHit) := st in
               nameHit <= seen /\ totalHit <= seen) ->
              let '(seen, nameHit, totalHit) := foldl f st l' in
              nameHit <= seen /\ totalHit <= seen)
  end.
  { induction l' as [|r l' IH]; intros [[seen nameHit] totalHit] Hst; [done|].
    cbn [foldl]. apply IH.
    destruct (negb _ && negb _); [done|].
    destruct (isLikelyChineseName _); destruct (bool_decide _); lia. }
  apply H. lia.
Qed.

Lemma scoreBlockQuality_range block :
  (populated block = false -> scoreBlockQuality block = (-999)%Q)
  /\ (populated block = true ->
      (-10 <= scoreBlockQuality block)%Q /\ (scoreBlockQuality block <= 68)%Q).
Proof.
  unfold populated, scoreBlockQuality.
  destruct (columns block) as [|c cols] eqn:Ec; [done|].
  destruct (ExcelParse.rows block) as [|r rows] eqn:Er; [done|].
  split; [done|]. intros _.
  pose proof (qualityCounts_le (r :: rows) (guessNameCol (r :: rows) (c :: cols))
                (guessTotalCol (r :: rows) (c :: cols))) as Hq.
  destruct (qualityCounts _ _ _) as [[seen nameHit] totalHit].
  destruct Hq as [Hn Ht].
  pose proof (frac_nonneg nameHit seen). pose proof (frac_nonneg totalHit seen).
  pose proof (frac_le_1 nameHit seen Hn). pose proof (frac_le_1 totalHit seen Ht).
  destruct (isNameHeader _); destruct (includes _ (js "总分"));
    destruct (0 <? seen);
    destruct (Nat.leb_spec 6 (length (c :: cols)));
    destruct (Nat.ltb_spec (length (c :: cols)) 4); try lia; split; nra.
Qed.

(** X18: [pickBestBlock] returns the first block of maximal quality score. *)
Theorem pickBestBlock_spec (b0 : ParsedBlock) (blocks : list ParsedBlock) :
  (blocks = [] -> pickBestBlock b0 blocks = b0)
  /\ (blocks <> [] ->
      firstBest scoreBlockQuality blocks (pickBestBlock b0 blocks)).
Proof.
  split; [by intros -> | apply pickBestBlock_firstBest].
Qed.

(** X19: the quality score of a block without columns or without rows is
    -999; that of any other block lies between -10 and 68.  So
    [pickBestBlock] never prefers a block without rows or columns to a block
    that has both. *)
Theorem scoreBlockQuality_bounds (b0 : ParsedBlock) (blocks : list ParsedBlock) :
  (forall b, populated b = false -> scoreBlockQuality b = (-999)%Q)
  /\ (forall b, populated b = true ->
        (-10 <= scoreBlockQuality b)%Q /\ (scoreBlockQuality b <= 68)%Q)
  /\ (forall b, b ∈ blocks -> populated b = true ->
        populated (pickBestBlock b0 blocks) = true).
Proof.
  split; [intros b; apply scoreBlockQuality_range|].
  split; [intros b; apply scoreBlockQuality_range|].
  intros b Hb Hp.
  destruct (pickBestBlock_firstBest b0 blocks) as (pre & post & E & Hpre & Hpost).
  { intros ->. by apply not_elem_of_nil in Hb. }
  destruct (populated (pickBestBlock b0 blocks)) eqn:Hbest; [done|].
  apply scoreBlockQuality_range in Hbest.
  destruct (proj2 (scoreBlockQuality_range b) Hp) as [Hlo _].
  rewrite E in Hb. apply elem_of_app in Hb as [Hb|Hb].
  - specialize (Hpre b Hb). rewrite Hbest in Hpre. lra.
  - apply elem_of_cons in Hb as [->|Hb].
    + rewrite Hbest in Hlo. lra.
    + specialize (Hpost b Hb). rewrite Hbest in Hpost. lra.
Qed.

(* ===================================================================== *)
(** ** Class and id columns, sheet status *)
(* ===================================================================== *)

Lemma find_firstWith {A} (p : A -> bool) l :
  match List.find p l with
  | Some x => firstWith p l x
  | None => forall y, y ∈ l -> p y = false
  end.
Proof.
  induction l as [|a l IH]; simpl.
  - intros y Hy. by apply not_elem_of_nil in Hy.
  - destruct (p a) eqn:Ea.
    + exists [], l. split; [done|]. split; [done|].
      intros y Hy. by apply not_elem_of_nil in Hy.
    + destruct (List.find p l) as [x|].
      * destruct IH as (pre & post & -> & Hx & Hpre).
        exists (a :: pre), post. split; [done|]. split; [done|].
        intros y Hy. apply elem_of_cons in Hy as [->|Hy]; [done | by apply Hpre].
      * intros y Hy. apply elem_of_cons in Hy as [->|Hy]; [done | by apply IH].
Qed.

Lemma firstWith_in {A} (p : A -> bool) l x : firstWith p l x -> x ∈ l.
Proof. intros (pre & post & -> & _). apply elem_of_app. right. by left. Qed.

Lemma guessClassCol_cases cols :
  (exists c, firstWith classExact cols c /\ guessClassCol cols = key c)
  \/ ((forall y, y ∈ cols -> classExact y = false)
      /\ exists c, firstWith classLoose cols c /\ guessClassCol cols = key c)
  \/ ((forall y, y ∈ cols -> classExact y = false)
      /\ (forall y, y ∈ cols -> classLoose y = false)
      /\ guessClassCol cols = []).
Proof.
  unfold guessClassCol.
  pose proof (find_firstWith classExact cols) as H1.
  pose proof (find_firstWith classLoose cols) as H2.
  unfold classExact in H1 at 1. unfold classLoose in H2 at 1.
  cbv zeta in H1, H2 |- *.
  destruct (List.find _ cols) as [c|].
  - left. by exists c.
  - destruct (List.find _ cols) as [c|].
    + right. left. split; [done|]. by exists c.
    + right. right. done.
Qed.

Lemma guessIdCol_cases cols :
  (exists c, firstWith idLike cols c /\ guessIdCol cols = key c)
  \/ ((forall y, y ∈ cols -> idLike y = false) /\ guessIdCol cols = []).
Proof.
  unfold guessIdCol.
  pose proof (find_firstWith idLike cols) as H. unfold idLike in H at 1.
  cbv zeta in H |- *.
  destruct (List.find _ cols) as [c|]; [left; by exists c | by right].
Qed.

(** X20: [guessClassCol] prefers an exact class header anywhere to a header
    that merely contains a class word, takes the first column in either
    pass, and gives the empty key when no column passes; a rank-like header
    passes neither.  [guessIdCol] takes the first column whose header
    contains an id word. *)
Theorem guessClassCol_spec (cols : list ParsedColumn) :
  ((exists c, firstWith classExact cols c /\ guessClassCol cols = key c)
   \/ ((forall y, y ∈ cols -> classExact y = false)
       /\ exists c, firstWith classLoose cols c /\ guessClassCol cols = key c)
   \/ ((forall y, y ∈ cols -> classExact y = false)
       /\ (forall y, y ∈ cols -> classLoose y = false)
       /\ guessClassCol cols = []))
  /\ ((exists c, firstWith idLike cols c /\ guessIdCol cols = key c)
      \/ ((forall y, y ∈ cols -> idLike y = false) /\ guessIdCol cols = []))
  /\ (forall c, classRankLike (normalizeHeader (label c)) = true ->
        classExact c = false /\ classLoose c = false).
Proof.
  split; [apply guessClassCol_cases|]. split; [apply guessIdCol_cases|].
  intros c H. unfold classExact, classLoose. cbv zeta. by rewrite H.
Qed.

Lemma importSheet_classCol fName sn b0 blocks :
  let ex := importSheet fName sn b0 blocks in
  nonEmpty (classCol ex) = true ->
  classCol ex = guessClassCol (cols ex)
  /\ hasAnyNonEmpty (rows ex) (classCol ex) 400 = true.
Proof.
  cbn [importSheet classCol cols rows].
  set (best := pickBestBlock b0 blocks).
  destruct (nonEmpty (guessClassCol (columns best))) eqn:E; simpl.
  - destruct (hasAnyNonEmpty _ _ 400) eqn:Eh; simpl; [done|]. done.
  - by rewrite E.
Qed.

(** X21: the class and id columns of an imported record.  A non-empty class
    column is the key of a column of the record whose header is not
    rank-like and passes the exact or the loose class test, and some row
    among the first 400 holds a value in it; a non-empty id column is the
    key of a column whose header contains an id word. *)
Theorem importFiles_classCol buildHeaders (files : list File)
    (ex : ExamConfig) :
  ex ∈ importFiles buildHeaders files ->
  (nonEmpty (classCol ex) = true ->
     exists c, c ∈ cols ex /\ key c = classCol ex
       /\ classRankLike (normalizeHeader (label c)) = false
       /\ (classExact c = true \/ classLoose c = true)
       /\ exists r, r ∈ take 400 (rows ex)
                    /\ nonEmpty (strTrim (getProp r (classCol ex))) = true)
  /\ (nonEmpty (idCol ex) = true ->
      exists c, c ∈ cols ex /\ key c = idCol ex /\ idLike c = true).
Proof.
  intros Hex.
  destruct (importFiles_inv buildHeaders files ex Hex)
    as (fName & sn & b0 & bs & c0 & -> & _).
  cbn [setInferredClass classCol idCol cols rows].
  split.
  - intros Hne.
    destruct (importSheet_classCol fName sn b0 (b0 :: bs) Hne) as [Hk Hany].
    cbv zeta in Hk. rewrite Hk in *.
    assert (Hrow : exists r, r ∈ take 400 (rows (importSheet fName sn b0 (b0 :: bs)))
              /\ nonEmpty (strTrim (getProp r
                   (guessClassCol (cols (importSheet fName sn b0 (b0 :: bs)))))) = true).
    { unfold hasAnyNonEmpty in Hany. apply andb_true_iff in Hany as [_ Hany].
      apply existsb_exists in Hany as (r & Hr & Hv). exists r.
      split; [by apply list_elem_of_In | done]. }
    destruct (guessClassCol_cases (cols (importSheet fName sn b0 (b0 :: bs))))
      as [(c & Hf & E) | [(_ & c & Hf & E) | (_ & _ & E)]].
    + exists c. split; [by eapply firstWith_in|]. split; [done|].
      destruct Hf as (_ & _ & _ & Hp & _).
      split; [|split; [by left | done]].
      unfold classExact in Hp. apply andb_true_iff in Hp as [Hp _].
      by apply negb_true_iff.
    + exists c. split; [by eapply firstWith_in|]. split; [done|].
      destruct Hf as (_ & _ & _ & Hp & _).
      split; [|split; [by right | done]].
      unfold classLoose in Hp. apply andb_true_iff in Hp as [Hp _].
      by apply negb_true_iff.
    + rewrite E in Hne. done.
  - intros Hne.
    destruct (guessIdCol_cases (cols (importSheet fName sn b0 (b0 :: bs))))
      as [(c & Hf & E) | (_ & E)].
    + exists c. split; [by eapply firstWith_in|]. split; [done|].
      by destruct Hf as (_ & _ & _ & Hp & _).
    + cbn [importSheet idCol cols] in *. rewrite E in Hne. done.
Qed.

(** The roster sheet: its class column is the column headed as the class. *)
Lemma importFiles_classCol_roster :
  exists ex c, ex ∈ importFiles buildHeaders [fileOf rosterGrid]
    /\ c ∈ cols ex /\ key c = classCol ex
    /\ classRankLike (normalizeHeader (label c)) = false.
Proof.
  pose (l := importFiles buildHeaders [fileOf rosterGrid]).
  assert (Hin : default blankExam (head l) ∈ l) by (vm_compute; left).
  assert (Hne : nonEmpty (classCol (default blankExam (head l))) = true)
    by (vm_compute; reflexivity).
  destruct (proj1 (importFiles_classCol buildHeaders [fileOf rosterGrid] _ Hin) Hne)
    as (c & Hc & Hk & Hr & _).
  exists (default blankExam (head l)), c.
  split; [exact Hin|]. split; [exact Hc|]. split; [exact Hk | exact Hr].
Defined.

(** X22: the status of an imported sheet is fail exactly when its block has
    two or more name columns (a missing name column cannot occur), and ok
    exactly when it has at most one, no duplicate names were counted, a
    total column was found and there is no warning. *)
Theorem getExamStatus_imported buildHeaders (files : list File)
    (ex : ExamConfig) (dup : nat) :
  ex ∈ importFiles buildHeaders files ->
  (getExamStatus ex dup = fail <-> 2 <= length (findAllNameCols (cols ex)))
  /\ (getExamStatus ex dup = ok <->
      length (findAllNameCols (cols ex)) < 2 /\ dup = 0
      /\ nonEmpty (totalCol ex) = true /\ warnings ex = []).
Proof.
  intros Hex.
  destruct (importFiles_inv buildHeaders files ex Hex)
    as (fName & sn & b0 & bs & c0 & -> & Hwf).
  destruct (importSheet_nameCol fName sn b0 (b0 :: bs) Hwf) as (_ & _ & Hf).
  unfold getExamStatus. cbn [setInferredClass fatalErrors totalCol warnings cols].
  cbv zeta in Hf. rewrite Hf. clear Hf Hex Hwf.
  set (ex0 := importSheet fName sn b0 (b0 :: bs)). clearbody ex0.
  set (k := length (findAllNameCols (cols ex0))). clearbody k.
  destruct (Nat.leb_spec 2 k) as [Hge|Hlt]; cbn [length Nat.ltb Nat.leb].
  - split; [done | split; [done | lia]].
  - destruct dup as [|dup]; cbn [Nat.ltb Nat.leb].
    2: { split; [split; [done | lia] | split; [done | lia]]. }
    destruct (nonEmpty (totalCol ex0)) eqn:Et; cbn [negb].
    2: { split; [split; [done | lia]|].
         split; [done | intros (_ & _ & ? & _); done]. }
    destruct (warnings ex0) as [|w ws] eqn:Ew; cbn [length Nat.ltb Nat.leb].
    + split; [split; [done | lia] | done].
    + split; [split; [done | lia]|].
      split; [done | intros (_ & _ & _ & ?); done].
Qed.

(** Two name columns: the sheet fails. *)
Lemma getExamStatus_dup_names :
  exists ex, ex ∈ importFiles firstRowHeaders [fileOf dupNameGrid]
    /\ getExamStatus ex 0 = fail.
Proof.
  pose (l := importFiles firstRowHeaders [fileOf dupNameGrid]).
  assert (Hin : default blankExam (head l) ∈ l) by (vm_compute; left).
  exists (default blankExam (head l)). split; [exact Hin|].
  apply (getExamStatus_imported firstRowHeaders [fileOf dupNameGrid] _ 0 Hin).
  vm_compute. lia.
Defined.

(* ===================================================================== *)
(** ** Duplicate names *)
(* ===================================================================== *)

Lemma voteGet_elem vote c v :
  voteGet vote c = v -> 0 < v -> (c, v) ∈ vote.
Proof.
  induction vote as [|[x w] vote IH]; simpl; intros E Hv; [lia|].
  destruct (JsString.eqb x c) eqn:Ex.
  - apply eqb_true in Ex as ->. subst. by left.
  - right. by apply IH.
Qed.

Lemma occurrences_snoc nameCol rows r n :
  occurrences nameCol (rows ++ [r]) n =
  occurrences nameCol rows n
  + (if bool_decide (strTrim (getProp r nameCol) = n) then 1 else 0).
Proof.
  unfold occurrences. rewrite List.filter_app, length_app. simpl.
  destruct (bool_decide _); simpl; lia.
Qed.

Lemma seenCounts_inv nameCol rows :
  let seen := seenCounts nameCol rows in
  NoDup (map fst seen) /\ votePos seen
  /\ forall n, voteGet seen n =
               if nonEmpty n then occurrences nameCol rows n else 0.
Proof.
  unfold seenCounts. induction rows as [|r rows IH] using rev_ind.
  - simpl. split; [constructor|]. split; [constructor|].
    intros n. by destruct (nonEmpty n).
  - rewrite foldl_app. cbn [foldl]. cbv zeta in IH.
    set (seen := foldl _ [] rows) in *. destruct IH as (Hnd & Hpos & Hget).
    destruct (nonEmpty (strTrim (getProp r nameCol))) eqn:Hne.
    + destruct (voteAdd_keys seen (strTrim (getProp r nameCol)) Hnd) as [Hnd' _].
      split; [done|]. split; [by apply voteAdd_pos|].
      intros n. rewrite voteGet_voteAdd, occurrences_snoc.
      destruct (JsString.eqb (strTrim (getProp r nameCol)) n) eqn:E.
      * apply eqb_true in E. subst n. rewrite Hget, Hne.
        rewrite bool_decide_eq_true_2 by done. lia.
      * apply eqb_false in E. rewrite Hget.
        rewrite bool_decide_eq_false_2 by done. destruct (nonEmpty n); lia.
    + split; [done|]. split; [done|]. intros n. rewrite Hget, occurrences_snoc.
      destruct (nonEmpty n) eqn:En; [|done].
      rewrite bool_decide_eq_false_2; [lia|]. intros E. congruence.
Qed.

(** X23: the duplicate-name check lists exactly the non-empty trimmed names
    that two or more rows carry in the name column, each of them once. *)
Theorem duplicateNames_spec (nameCol : list N) (rows : list Row) :
  (forall n, n ∈ duplicateNames nameCol rows <->
             nonEmpty n = true /\ 2 <= occurrences nameCol rows n)
  /\ NoDup (duplicateNames nameCol rows).
Proof.
  destruct (seenCounts_inv nameCol rows) as (Hnd & Hpos & Hget).
  unfold duplicateNames. split.
  - intros n. rewrite list_elem_of_fmap. split.
    + intros ([c v] & -> & Hin). apply list_elem_of_In, filter_In in Hin as [Hin Hv].
      apply list_elem_of_In in Hin. cbn [fst snd] in *. apply Nat.leb_le in Hv.
      pose proof (voteGet_in _ _ _ Hnd Hin) as E. rewrite Hget in E.
      destruct (nonEmpty c); [split; [done | lia] | lia].
    + intros [Hne Hocc]. exists (n, occurrences nameCol rows n). split; [done|].
      apply list_elem_of_In, filter_In. split.
      * apply list_elem_of_In, voteGet_elem; [|lia]. by rewrite Hget, Hne.
      * cbn [snd]. by apply Nat.leb_le.
  - apply NoDup_fmap_2_strong.
    + intros [c v] [c' v'] Hin Hin' E. cbn [fst] in E. subst c'.
      apply list_elem_of_In, filter_In in Hin as [Hin _].
      apply list_elem_of_In, filter_In in Hin' as [Hin' _].
      apply list_elem_of_In in Hin, Hin'.
      rewrite <- (voteGet_in _ _ _ Hnd Hin), <- (voteGet_in _ _ _ Hnd Hin'). done.
    + apply NoDup_ListNoDup, List.NoDup_filter, NoDup_ListNoDup.
      eapply NoDup_fmap_1. exact Hnd.
Qed.
